(** * The redraw scheduler of [src/internal/drawImage.js]

    A shallow embedding of the module: its three module-level variables
    ([rafId], [rafStopTime], [elementsDrawMap]), the flag stashed on
    [registerVisibilityChange], and the functions [drawImage], [step],
    [addDrawCallback], [removeDrawCallback], [registerVisibilityChange] and
    [stopRaf].  The collaborators the module imports ([getEnabledElement],
    [drawImageSync], the registered callbacks, the document) are gathered in
    a [Host] record; the browser state the module reads and writes (the
    clock, the [invalid] flag of enabled elements, the installed listeners,
    the outstanding animation-frame requests) is part of [World].

    Time is counted in whole milliseconds.  The two [forEach] loops of
    [step] run over collections that the code they call may grow, so they
    take fuel: a bound on the number of turns, [None] when it runs out. *)

From stdpp Require Import base tactics numbers option list.

(** ** Values *)

(** A DOM element used as a key of [elementsDrawMap].  The two falsy values
    a caller can pass are kept apart because a JS [Map] keeps them apart. *)
Inductive Element :=
  | ElUndefined
  | ElNull
  | ElNode (node : nat).

#[global] Instance Element_eq_dec : EqDecision Element.
Proof. solve_decision. Defined.

(** [!element] is false exactly for DOM nodes. *)
Definition element_truthy (e : Element) : bool :=
  match e with ElNode _ => true | _ => false end.

(** A callback is a JS function; it is known by its identity. *)
Abbreviation Callback := nat (only parsing).

(** The part of an enabled element that [drawImage] reads.  [oid] is the
    identity of the JS object: its mutable [invalid] property lives in the
    world, keyed by [oid].  [layers] is [None] when the object has no
    [layers] property, otherwise [Some] of [layers.length]. *)
Record EnabledElement := {
  oid : nat;
  element : Element;
  canvas : bool;
  image : bool;
  layers : option nat
}.

(** The [[SetData]] list of a JS [Set]: insertion ordered, a deleted member
    leaves an empty slot behind, so that an iteration in progress keeps its
    position. *)
Abbreviation CallbackSet := (list (option Callback)).

Fixpoint set_has (f : Callback) (s : CallbackSet) : bool :=
  match s with
  | [] => false
  | e :: s' => if decide (e = Some f) then true else set_has f s'
  end.

Definition set_add (f : Callback) (s : CallbackSet) : CallbackSet :=
  if set_has f s then s else s ++ [Some f].

Fixpoint set_delete (f : Callback) (s : CallbackSet) : CallbackSet :=
  match s with
  | [] => []
  | e :: s' => if decide (e = Some f) then None :: s' else e :: set_delete f s'
  end.

(** The members, in iteration order. *)
Definition set_members (s : CallbackSet) : list Callback := omap id s.

Definition set_size (s : CallbackSet) : nat := length (set_members s).

(** The value stored in [elementsDrawMap] for an element. *)
Record Entry := {
  needsRedraw : bool;
  callbacks : CallbackSet
}.

Definition with_needsRedraw (b : bool) (e : Entry) : Entry :=
  {| needsRedraw := b; callbacks := callbacks e |}.

Definition with_callbacks (s : CallbackSet) (e : Entry) : Entry :=
  {| needsRedraw := needsRedraw e; callbacks := s |}.

(** [{ needsRedraw: false, callbacks: new Set() }] *)
Definition fresh_entry : Entry := {| needsRedraw := false; callbacks := [] |}.

(** A JS [Map] in insertion order.  Nothing in the module deletes a key. *)
Abbreviation DrawMap := (list (Element * Entry)).

Fixpoint map_get (k : Element) (m : DrawMap) : option Entry :=
  match m with
  | [] => None
  | (k', e) :: m' => if decide (k' = k) then Some e else map_get k m'
  end.

Definition map_has (k : Element) (m : DrawMap) : bool :=
  match map_get k m with Some _ => true | None => false end.

(** Mutation of the entry object stored under [k]. *)
Fixpoint map_update (k : Element) (f : Entry -> Entry) (m : DrawMap) : DrawMap :=
  match m with
  | [] => []
  | (k', e) :: m' =>
      if decide (k' = k) then (k', f e) :: m' else (k', e) :: map_update k f m'
  end.

Definition map_set (k : Element) (v : Entry) (m : DrawMap) : DrawMap :=
  if map_has k m then map_update k (fun _ => v) m else m ++ [(k, v)].

(** Mutation of the entry object at position [i] of the map's data, which is
    how the closure of [forEach] holds its [entry]. *)
Definition map_update_at (i : nat) (f : Entry -> Entry) (m : DrawMap) : DrawMap :=
  alter (fun ke => (ke.1, f ke.2)) i m.

(** The name of the document property a visibility listener reads. *)
Inductive HiddenProperty := PropHidden | PropMsHidden | PropWebkitHidden.

(** What the module asks of its collaborators, recorded in call order.  The
    element is the key of the map entry being processed.  The listeners of
    the pre-render event are outside the model: the notification is only
    recorded. *)
Inductive Event :=
  | EvPreRender (el : Element) (ee : EnabledElement)
  | EvRender (el : Element) (ee : EnabledElement) (invalidated : bool)
  | EvCallback (el : Element) (f : Callback) (ee : EnabledElement).

#[global] Instance EnabledElement_eq_dec : EqDecision EnabledElement.
Proof. solve_decision. Defined.

#[global] Instance Event_eq_dec : EqDecision Event.
Proof. solve_decision. Defined.

(** ** The world *)

Record World := {
  (* module variables *)
  rafId : option nat;
  rafStopTime : option nat;
  elementsDrawMap : DrawMap;
  registered : bool;
  (* browser *)
  now : nat;
  invalid : nat -> bool;
  listeners : list HiddenProperty;
  pending : list nat;
  raf_calls : nat;
  trace : list Event
}.

Definition with_rafId (v : option nat) (w : World) : World :=
  {| rafId := v; rafStopTime := rafStopTime w;
     elementsDrawMap := elementsDrawMap w; registered := registered w;
     now := now w; invalid := invalid w; listeners := listeners w;
     pending := pending w; raf_calls := raf_calls w; trace := trace w |}.

Definition with_rafStopTime (v : option nat) (w : World) : World :=
  {| rafId := rafId w; rafStopTime := v;
     elementsDrawMap := elementsDrawMap w; registered := registered w;
     now := now w; invalid := invalid w; listeners := listeners w;
     pending := pending w; raf_calls := raf_calls w; trace := trace w |}.

Definition with_elementsDrawMap (m : DrawMap) (w : World) : World :=
  {| rafId := rafId w; rafStopTime := rafStopTime w;
     elementsDrawMap := m; registered := registered w;
     now := now w; invalid := invalid w; listeners := listeners w;
     pending := pending w; raf_calls := raf_calls w; trace := trace w |}.

Definition with_registered (b : bool) (w : World) : World :=
  {| rafId := rafId w; rafStopTime := rafStopTime w;
     elementsDrawMap := elementsDrawMap w; registered := b;
     now := now w; invalid := invalid w; listeners := listeners w;
     pending := pending w; raf_calls := raf_calls w; trace := trace w |}.

Definition with_now (t : nat) (w : World) : World :=
  {| rafId := rafId w; rafStopTime := rafStopTime w;
     elementsDrawMap := elementsDrawMap w; registered := registered w;
     now := t; invalid := invalid w; listeners := listeners w;
     pending := pending w; raf_calls := raf_calls w; trace := trace w |}.

Definition with_invalid (f : nat -> bool) (w : World) : World :=
  {| rafId := rafId w; rafStopTime := rafStopTime w;
     elementsDrawMap := elementsDrawMap w; registered := registered w;
     now := now w; invalid := f; listeners := listeners w;
     pending := pending w; raf_calls := raf_calls w; trace := trace w |}.

Definition with_listeners (l : list HiddenProperty) (w : World) : World :=
  {| rafId := rafId w; rafStopTime := rafStopTime w;
     elementsDrawMap := elementsDrawMap w; registered := registered w;
     now := now w; invalid := invalid w; listeners := l;
     pending := pending w; raf_calls := raf_calls w; trace := trace w |}.

Definition with_pending (l : list nat) (w : World) : World :=
  {| rafId := rafId w; rafStopTime := rafStopTime w;
     elementsDrawMap := elementsDrawMap w; registered := registered w;
     now := now w; invalid := invalid w; listeners := listeners w;
     pending := l; raf_calls := raf_calls w; trace := trace w |}.

Definition with_raf_calls (n : nat) (w : World) : World :=
  {| rafId := rafId w; rafStopTime := rafStopTime w;
     elementsDrawMap := elementsDrawMap w; registered := registered w;
     now := now w; invalid := invalid w; listeners := listeners w;
     pending := pending w; raf_calls := n; trace := trace w |}.

Definition log (e : Event) (w : World) : World :=
  {| rafId := rafId w; rafStopTime := rafStopTime w;
     elementsDrawMap := elementsDrawMap w; registered := registered w;
     now := now w; invalid := invalid w; listeners := listeners w;
     pending := pending w; raf_calls := raf_calls w; trace := trace w ++ [e] |}.

(** [enabledElement.invalid = b] on the object [o]. *)
Definition set_invalid (o : nat) (b : bool) (w : World) : World :=
  with_invalid (fun o' => if decide (o' = o) then b else invalid w o') w.

(** The state when the module has just been loaded. *)
Definition initial (flags : nat -> bool) : World :=
  {| rafId := None; rafStopTime := None; elementsDrawMap := [];
     registered := false; now := 0; invalid := flags; listeners := [];
     pending := []; raf_calls := 0; trace := [] |}.

(** ** Collaborators *)

Inductive Outcome := Normal | Throw.

(** What foreign code (a callback, the render routine) may do while it runs:
    call back into the module, let time pass, write an [invalid] flag. *)
Inductive Action :=
  | ADrawImage (enabledElement : option EnabledElement) (invalidated : bool)
  | AAddDrawCallback (el : Element) (f : Callback)
  | ARemoveDrawCallback (el : Element) (f : Callback)
  | AElapse (dt : nat)
  | ASetInvalid (o : nat) (b : bool).

(** Foreign code: its actions in order, and whether it then throws. *)
Record Script := {
  actions : list Action;
  throws : bool
}.

Record Host := {
  (* [None] when the lookup throws *)
  getEnabledElement : Element -> option EnabledElement;
  drawImageSync : EnabledElement -> bool -> Script;
  callback_body : Callback -> EnabledElement -> Script;
  (* [typeof document.hidden !== 'undefined'] and its vendor variants *)
  document_hidden : bool;
  document_msHidden : bool;
  document_webkitHidden : bool
}.

(** ** The module *)

Definition rafStopMaxTime : nat := 100.

(** [!v] is false for a number other than 0; [null] and 0 are falsy. *)
Definition truthy (v : option nat) : bool :=
  match v with Some (S _) => true | _ => false end.

(** Modelled from the spec: the imported [requestAnimationFrame] wrapper is
    not among the sources.  It is the host's single-shot refresh primitive,
    [scheduleOnceBeforeNextRefresh(callback) -> Handle]; as in a browser the
    handles are the consecutive request numbers 1, 2, ..., and the request
    stays outstanding until it fires or is cancelled. *)
Definition requestAnimationFrame (w : World) : nat * World :=
  let id := S (raf_calls w) in
  (id, with_pending (pending w ++ [id]) (with_raf_calls id w)).

(** The browser's [cancelAnimationFrame]: the request is outstanding no
    more. *)
Definition cancelAnimationFrame (id : nat) (w : World) : World :=
  with_pending (filter (fun id' => id' <> id) (pending w)) w.

(** Lines 173-183. *)
Definition stopRaf (w : World) : World :=
  let w1 :=
    match rafId w with
    | Some (S n) => cancelAnimationFrame (S n) w
    | _ => w
    end in
  with_rafId None w1.

Section Module.
Context (host : Host).

(** Lines 145-156: the first of the three properties the document has. *)
Definition hidden_property : option HiddenProperty :=
  if document_hidden host then Some PropHidden
  else if document_msHidden host then Some PropMsHidden
  else if document_webkitHidden host then Some PropWebkitHidden
  else None.

(** Lines 138-170, but for the listener itself, which is
    [visibility_listener] below. *)
Definition registerVisibilityChange (w : World) : World :=
  if registered w then w
  else
    let w1 := with_registered true w in
    match hidden_property with
    | None => w1
    | Some p => with_listeners (listeners w1 ++ [p]) w1
    end.

(** The test of line 26: [Some true] to return early, [Some false] to go on,
    [None] when reading [layers.length] of a missing [layers] throws. *)
Definition drawImage_rejects (enabledElement : option EnabledElement) : option bool :=
  match enabledElement with
  | None => Some true
  | Some ee =>
      if negb (canvas ee) then Some true
      else if negb (image ee) then
        match layers ee with
        | None => None
        | Some len => Some (len <? 1)
        end
      else Some false
  end.

(** Lines 23-49.  The argument is [None] for [null] or [undefined]. *)
Definition drawImage (enabledElement : option EnabledElement) (invalidated : bool)
    (w : World) : World * Outcome :=
  let w1 := registerVisibilityChange w in
  match enabledElement, drawImage_rejects enabledElement with
  | _, None => (w1, Throw)
  | Some ee, Some false =>
      let element := element ee in
      let w2 := if invalidated then set_invalid (oid ee) true w1 else w1 in
      let w3 :=
        if map_has element (elementsDrawMap w2) then w2
        else with_elementsDrawMap (map_set element fresh_entry (elementsDrawMap w2)) w2 in
      let w4 :=
        with_elementsDrawMap
          (map_update element (with_needsRedraw true) (elementsDrawMap w3)) w3 in
      let w5 := with_rafStopTime (Some (now w4 + rafStopMaxTime)) w4 in
      if truthy (rafId w5) then (w5, Normal)
      else
        let '(id, w6) := requestAnimationFrame w5 in
        (with_rafId (Some id) w6, Normal)
  | _, _ => (w1, Normal)
  end.

(** Lines 102-114. *)
Definition addDrawCallback (element : Element) (f : Callback) (w : World) : World :=
  if negb (element_truthy element) then w
  else
    let w1 :=
      if map_has element (elementsDrawMap w) then w
      else with_elementsDrawMap (map_set element fresh_entry (elementsDrawMap w)) w in
    with_elementsDrawMap
      (map_update element (fun e => with_callbacks (set_add f (callbacks e)) e)
         (elementsDrawMap w1)) w1.

(** Lines 125-135. *)
Definition removeDrawCallback (element : Element) (f : Callback) (w : World) : World :=
  if negb (element_truthy element) then w
  else
    match map_get element (elementsDrawMap w) with
    | None => w
    | Some _ =>
        with_elementsDrawMap
          (map_update element (fun e => with_callbacks (set_delete f (callbacks e)) e)
             (elementsDrawMap w)) w
    end.

(** Foreign code runs its actions in order; a call that throws ends it. *)
Definition run_action (a : Action) (w : World) : World * Outcome :=
  match a with
  | ADrawImage ee inv => drawImage ee inv w
  | AAddDrawCallback el f => (addDrawCallback el f w, Normal)
  | ARemoveDrawCallback el f => (removeDrawCallback el f w, Normal)
  | AElapse dt => (with_now (now w + dt) w, Normal)
  | ASetInvalid o b => (set_invalid o b w, Normal)
  end.

Fixpoint run_actions (l : list Action) (w : World) : World * Outcome :=
  match l with
  | [] => (w, Normal)
  | a :: l' =>
      match run_action a w with
      | (w', Normal) => run_actions l' w'
      | (w', Throw) => (w', Throw)
      end
  end.

Definition run_script (s : Script) (w : World) : World * Outcome :=
  match run_actions (actions s) w with
  | (w', Normal) => (w', if throws s then Throw else Normal)
  | (w', Throw) => (w', Throw)
  end.

(** [entry.callbacks.forEach(rafcb => { try { rafcb(enabledElement) } catch
    (err) {} })] for the entry at position [i] of the map, from position
    [index] of its set.  The set is read afresh at every turn: members added
    meanwhile are visited, deleted ones are not. *)
Fixpoint callbacks_forEach (fuel : nat) (i : nat) (ee : EnabledElement)
    (index : nat) (w : World) : option World :=
  match fuel with
  | 0 => None
  | S fuel' =>
      match elementsDrawMap w !! i with
      | None => Some w
      | Some (el, entry) =>
          match callbacks entry !! index with
          | None => Some w
          | Some None => callbacks_forEach fuel' i ee (S index) w
          | Some (Some rafcb) =>
              let w1 := log (EvCallback el rafcb ee) w in
              let '(w2, _) := run_script (callback_body host rafcb ee) w1 in
              callbacks_forEach fuel' i ee (S index) w2
          end
      end
  end.

(** The body of the arrow function of [step] (lines 52-85), for the entry at
    position [i]. *)
Definition visit (fuel : nat) (i : nat) (w : World) : option (World * Outcome) :=
  match elementsDrawMap w !! i with
  | None => Some (w, Normal)
  | Some (element, entry) =>
      if negb (element_truthy element) || negb (needsRedraw entry) then Some (w, Normal)
      else
        match getEnabledElement host element with
        | None => Some (w, Normal)
        | Some enabledElement =>
            let w1 := log (EvPreRender element enabledElement) w in
            let flag := invalid w1 (oid enabledElement) in
            let w2 := log (EvRender element enabledElement flag) w1 in
            match run_script (drawImageSync host enabledElement flag) w2 with
            | (w3, Throw) => Some (w3, Throw)
            | (w3, Normal) =>
                let w4 :=
                  with_elementsDrawMap
                    (map_update_at i (with_needsRedraw false) (elementsDrawMap w3)) w3 in
                match elementsDrawMap w4 !! i with
                | None => Some (w4, Normal)
                | Some (_, entry4) =>
                    if 0 <? set_size (callbacks entry4) then
                      match callbacks_forEach fuel i enabledElement 0 w4 with
                      | None => None
                      | Some w5 =>
                          Some (with_rafStopTime (Some (now w5 + rafStopMaxTime)) w5, Normal)
                      end
                    else Some (w4, Normal)
                end
            end
        end
  end.

(** [elementsDrawMap.forEach(...)] from position [index]; entries appended
    meanwhile are visited too.  [fuel_cb] bounds each inner iteration. *)
Fixpoint map_forEach (fuel_cb : nat) (fuel : nat) (index : nat) (w : World)
    : option (World * Outcome) :=
  match fuel with
  | 0 => None
  | S fuel' =>
      match elementsDrawMap w !! index with
      | None => Some (w, Normal)
      | Some _ =>
          match visit fuel_cb index w with
          | None => None
          | Some (w', Throw) => Some (w', Throw)
          | Some (w', Normal) => map_forEach fuel_cb fuel' (S index) w'
          end
      end
  end.

(** The drain of one tick: lines 52-85. *)
Definition drain (fuel : nat) (w : World) : option (World * Outcome) :=
  map_forEach fuel fuel 0 w.

(** [rafStopTime && performance.now() < rafStopTime] *)
Definition keep_running (w : World) : bool :=
  truthy (rafStopTime w) &&
  match rafStopTime w with Some t => now w <? t | None => false end.

(** Lines 51-92.  An exception of the drain leaves [step] at once. *)
Definition step (fuel : nat) (w : World) : option (World * Outcome) :=
  match drain fuel w with
  | None => None
  | Some (w1, Throw) => Some (w1, Throw)
  | Some (w1, Normal) =>
      if keep_running w1 then
        let '(id, w2) := requestAnimationFrame w1 in
        Some (with_rafId (Some id) w2, Normal)
      else Some (stopRaf w1, Normal)
  end.

(** The listener of lines 162-169; [hidden] is [document[hidden]] when the
    event is delivered. *)
Definition visibility_listener (hidden : bool) (w : World) : World :=
  let w1 := stopRaf w in
  if hidden then w1
  else
    let w2 := with_rafStopTime (Some (now w1 + rafStopMaxTime)) w1 in
    let '(id, w3) := requestAnimationFrame w2 in
    with_rafId (Some id) w3.

(** ** The browser around the module *)

(** The document changes visibility: every installed listener runs. *)
Definition visibilitychange (hidden : bool) (w : World) : World :=
  foldl (fun w' _ => visibility_listener hidden w') w (listeners w).

(** The browser runs the oldest outstanding animation-frame request. *)
Definition frame (fuel : nat) (w : World) : option (World * Outcome) :=
  match pending w with
  | [] => Some (w, Normal)
  | _ :: rest => step fuel (with_pending rest w)
  end.

Inductive Input :=
  | InDrawImage (enabledElement : option EnabledElement) (invalidated : bool)
  | InAddDrawCallback (el : Element) (f : Callback)
  | InRemoveDrawCallback (el : Element) (f : Callback)
  | InVisibility (hidden : bool)
  | InFrame (fuel : nat)
  | InElapse (dt : nat).

Definition react (i : Input) (w : World) : option World :=
  match i with
  | InDrawImage ee inv => Some (drawImage ee inv w).1
  | InAddDrawCallback el f => Some (addDrawCallback el f w)
  | InRemoveDrawCallback el f => Some (removeDrawCallback el f w)
  | InVisibility hidden => Some (visibilitychange hidden w)
  | InFrame fuel => fst <$> frame fuel w
  | InElapse dt => Some (with_now (now w + dt) w)
  end.

Fixpoint run (l : list Input) (w : World) : option World :=
  match l with
  | [] => Some w
  | i :: l' =>
      match react i w with
      | None => None
      | Some w' => run l' w'
      end
  end.

End Module.

(** ** Vocabulary of the properties *)

(** Some entry of the table is owed a render pass. *)
Definition has_dirty (m : DrawMap) : bool :=
  existsb (fun ke => needsRedraw ke.2) m.

Definition dirty (w : World) : Prop := has_dirty (elementsDrawMap w) = true.

(** The idle deadline is still in the future. *)
Definition deadline_ahead (w : World) : Prop :=
  exists t, rafStopTime w = Some t /\ now w < t.

(** No dirty entry is left without a live request. *)
Definition dirty_scheduled (w : World) : Prop :=
  dirty w -> truthy (rafId w) = true.

(** The inputs that end the dormancy of the loop: an accepted [drawImage]
    and a change to visible. *)
Definition wakes (i : Input) : bool :=
  match i with
  | InDrawImage a _ =>
      match drawImage_rejects a with Some false => true | _ => false end
  | InVisibility hidden => negb hidden
  | _ => false
  end.

(** The inputs after which no dirty entry is left without a request: all
    but a tick and a change to hidden. *)
Definition schedule_keeping (i : Input) : bool :=
  match i with
  | InVisibility true | InFrame _ => false
  | _ => true
  end.

(** A document of a browser without any page-visibility property. *)
Definition legacy_host : Host :=
  {| getEnabledElement := fun _ => None;
     drawImageSync := fun _ _ => {| actions := []; throws := false |};
     callback_body := fun _ _ => {| actions := []; throws := false |};
     document_hidden := false; document_msHidden := false;
     document_webkitHidden := false |}.

(** An object with a canvas, but neither an image nor a [layers] array. *)
Definition bare_canvas : EnabledElement :=
  {| oid := 0; element := ElNode 1; canvas := true; image := false;
     layers := None |}.

(** The keys of the table, in insertion order. *)
Definition keys (w : World) : list Element := (elementsDrawMap w).*1.

(** Every collaborator call on record was made for an element and the
    context the lookup resolves it to. *)
Definition event_ok (host : Host) (ev : Event) : Prop :=
  match ev with
  | EvPreRender el ee | EvRender el ee _ | EvCallback el _ ee =>
      getEnabledElement host el = Some ee
  end.

Definition event_key (ev : Event) : Element :=
  match ev with
  | EvPreRender el _ | EvRender el _ _ | EvCallback el _ _ => el
  end.

(** *** Collaborators that do not call back

    A script is passive when all it does is let time pass.  A host is
    passive when its render routine and its callbacks are; they may still
    throw. *)
Definition is_elapse (a : Action) : bool :=
  match a with AElapse _ => true | _ => false end.

Definition passive (s : Script) : Prop := forallb is_elapse (actions s) = true.

Definition passive_host (host : Host) : Prop :=
  (forall ee b, passive (drawImageSync host ee b)) /\
  (forall f ee, passive (callback_body host f ee)).

Definition render_returns (host : Host) : Prop :=
  forall ee b, throws (drawImageSync host ee b) = false.

Fixpoint elapse_total (l : list Action) : nat :=
  match l with
  | [] => 0
  | AElapse dt :: l' => dt + elapse_total l'
  | _ :: l' => elapse_total l'
  end.

Definition elapsed (s : Script) : nat := elapse_total (actions s).

(** The same host, but with callbacks that return where they would throw. *)
Definition silenced (s : Script) : Script :=
  {| actions := actions s; throws := false |}.

Definition without_callback_throws (host : Host) : Host :=
  {| getEnabledElement := getEnabledElement host;
     drawImageSync := drawImageSync host;
     callback_body := fun f ee => silenced (callback_body host f ee);
     document_hidden := document_hidden host;
     document_msHidden := document_msHidden host;
     document_webkitHidden := document_webkitHidden host |}.

(** *** What a tick owes, in the words of the specification

    For every entry that is dirty, whose element is a node and resolves:
    a pre-render notification, the render call with the pending [invalid]
    flag, the dirty flag cleared, and every registered callback invoked. *)
Definition resolved (host : Host) (ke : Element * Entry) : option EnabledElement :=
  if element_truthy ke.1 && needsRedraw ke.2 then getEnabledElement host ke.1
  else None.

Definition drained_entry (host : Host) (ke : Element * Entry) : Element * Entry :=
  match resolved host ke with
  | Some _ => (ke.1, with_needsRedraw false ke.2)
  | None => ke
  end.

Definition entry_trace (host : Host) (inv : nat -> bool) (ke : Element * Entry)
    : list Event :=
  match resolved host ke with
  | Some ee =>
      EvPreRender ke.1 ee :: EvRender ke.1 ee (inv (oid ee)) ::
      ((fun f => EvCallback ke.1 f ee) <$> set_members (callbacks ke.2))
  | None => []
  end.

Definition drain_trace (host : Host) (inv : nat -> bool) (m : DrawMap) : list Event :=
  m ≫= entry_trace host inv.

(** The entry is rendered and has a callback to invoke. *)
Definition invokes (host : Host) (ke : Element * Entry) : bool :=
  match resolved host ke with
  | Some _ => 0 <? set_size (callbacks ke.2)
  | None => false
  end.

(** The passive run of the callbacks [fs] of the entry of [el]. *)
Definition callbacks_run (host : Host) (el : Element) (ee : EnabledElement)
    (fs : list nat) (w : World) : World :=
  foldl (fun w0 f =>
           with_now (now w0 + elapsed (callback_body host f ee))
             (log (EvCallback el f ee) w0)) w fs.

(** Fuel that lets a tick with passive collaborators run to its end: more
    than the number of entries and than the slots of any callback set. *)
Definition drain_fuel (m : DrawMap) : nat :=
  S (foldr (fun ke n => max (length (callbacks ke.2)) n) (length m) m).

(** The part of the world a passive tick leaves alone. *)
Definition same_schedule (w w' : World) : Prop :=
  rafId w' = rafId w /\ pending w' = pending w /\ raf_calls w' = raf_calls w /\
  registered w' = registered w /\ listeners w' = listeners w /\
  invalid w' = invalid w.

Definition is_render_of (el : Element) (ev : Event) : bool :=
  match ev with
  | EvRender el' _ _ => bool_decide (el' = el)
  | _ => false
  end.

Definition is_call_of (el : Element) (f : nat) (ev : Event) : bool :=
  match ev with
  | EvCallback el' f' _ => bool_decide (el' = el) && bool_decide (f' = f)
  | _ => false
  end.

(** The calls of [drawImage] made for one enabled element in a window. *)
Definition drawImages (host : Host) (ee : EnabledElement) (invs : list bool)
    (w : World) : World :=
  foldl (fun w0 inv => (drawImage host (Some ee) inv w0).1) w invs.

(** The table is a [Map] and the callback sets are [Set]s: no key and no
    member occurs twice. *)
Definition unique_keys (w : World) : Prop := NoDup (keys w).

Definition unique_members (w : World) : Prop :=
  Forall (fun ke => NoDup (set_members (callbacks ke.2))) (elementsDrawMap w).

Definition map_of_sets (w : World) : Prop := unique_keys w /\ unique_members w.

(** Every element of the table is a node that the lookup resolves. *)
Definition all_resolve (host : Host) (w : World) : Prop :=
  Forall (fun ke : Element * Entry =>
            element_truthy ke.1 = true /\ is_Some (getEnabledElement host ke.1))
    (elementsDrawMap w).

(** An enabled element with a canvas and an image, shown in node 1. *)
Definition ee1 : EnabledElement :=
  {| oid := 0; element := ElNode 1; canvas := true; image := true;
     layers := Some 0 |}.

Definition quiet : Script := {| actions := []; throws := false |}.

(** A page in which node 1 is enabled and every callback asks for another
    redraw of it. *)
Definition redrawing_host : Host :=
  {| getEnabledElement := fun el => if decide (el = ElNode 1) then Some ee1 else None;
     drawImageSync := fun _ _ => quiet;
     callback_body := fun _ _ =>
       {| actions := [ADrawImage (Some ee1) false]; throws := false |};
     document_hidden := true; document_msHidden := false;
     document_webkitHidden := false |}.

Definition all_clear : nat -> bool := fun _ => false.

(** An enabled element shown in node 2. *)
Definition ee2 : EnabledElement :=
  {| oid := 1; element := ElNode 2; canvas := true; image := false;
     layers := Some 2 |}.

(** A page with nodes 1 and 2 enabled; rendering takes 5 ms and leaves the
    [invalid] flag alone; callback 7 runs for 3 ms and throws, the other
    callbacks return at once. *)
Definition page_host : Host :=
  {| getEnabledElement := fun el =>
       if decide (el = ElNode 1) then Some ee1
       else if decide (el = ElNode 2) then Some ee2 else None;
     drawImageSync := fun _ _ => {| actions := [AElapse 5]; throws := false |};
     callback_body := fun f _ =>
       if decide (f = 7) then {| actions := [AElapse 3]; throws := true |}
       else quiet;
     document_hidden := true; document_msHidden := false;
     document_webkitHidden := false |}.

(** Both nodes are dirty; node 1 has the callbacks 7 and 8, node 2 has 9. *)
Definition two_dirty : World :=
  (drawImage page_host (Some ee2) false
     (drawImage page_host (Some ee1) false
        (addDrawCallback (ElNode 2) 9
           (addDrawCallback (ElNode 1) 8
              (addDrawCallback (ElNode 1) 7 (initial all_clear))))).1).1.

(** The loop after its last useful tick: nothing is dirty, the deadline of
    100 ms has passed, the request that is about to run was the only one. *)
Definition idle_world : World :=
  {| rafId := Some 2; rafStopTime := Some 100;
     elementsDrawMap := [(ElNode 1, {| needsRedraw := false; callbacks := [] |})];
     registered := true; now := 150; invalid := all_clear;
     listeners := [PropHidden]; pending := []; raf_calls := 2;
     trace := [EvPreRender (ElNode 1) ee1; EvRender (ElNode 1) ee1 false] |}.

(** Node 1 has a callback and is dirty; the request armed for it has just
    been taken off the browser's list to be run. *)
Definition tick_world : World :=
  with_pending []
    (drawImage redrawing_host (Some ee1) false
       (addDrawCallback (ElNode 1) 7 (initial all_clear))).1.

(** A page in which node 1 is enabled and the render routine throws. *)
Definition throwing_host : Host :=
  {| getEnabledElement := fun el => if decide (el = ElNode 1) then Some ee1 else None;
     drawImageSync := fun _ _ => {| actions := []; throws := true |};
     callback_body := fun _ _ => quiet;
     document_hidden := true; document_msHidden := false;
     document_webkitHidden := false |}.

(** *** Further invariants of the scheduler *)

(** At most one animation-frame request is outstanding, and [rafId] is its
    handle. *)
Definition single_request (w : World) : Prop :=
  pending w = [] \/ exists n, rafId w = Some (S n) /\ pending w = [S n].

(** The visibility listener is installed at most once, and not before the
    registration has run. *)
Definition listener_once (w : World) : Prop :=
  length (listeners w) <= 1 /\ (registered w = false -> listeners w = []).

(** The deadline is never more than the idle window ahead of the clock. *)
Definition deadline_bounded (w : World) : Prop :=
  forall t, rafStopTime w = Some t -> t <= now w + rafStopMaxTime.

(** The collaborator call was made while the entry of [k] was processed. *)
Definition event_of (k : Element) (ev : Event) : bool :=
  bool_decide (event_key ev = k).

(** A request is armed: what [rafId = requestAnimationFrame(step)] does. *)
Definition arm (w : World) : World :=
  let '(id, w1) := requestAnimationFrame w in with_rafId (Some id) w1.

(** An enabled element that is ready to draw but names no DOM node. *)
Definition detached : EnabledElement :=
  {| oid := 2; element := ElUndefined; canvas := true; image := true;
     layers := Some 0 |}.

(** *** Collaborators that call back into the module

    Foreign code is settled for the elements [ks] when it registers no
    callback, asks for the redraw of no element outside [ks] and makes no
    call that raises: it may ask for the redraw of elements of [ks], remove
    callbacks, let time pass and write [invalid] flags.  A host is settled
    when its render routine and its callbacks are. *)
Definition settled_action (ks : list Element) (a : Action) : bool :=
  match a with
  | ADrawImage None _ => true
  | ADrawImage (Some ee) _ =>
      match drawImage_rejects (Some ee) with
      | Some true => true
      | Some false => bool_decide (element ee ∈ ks)
      | None => false
      end
  | AAddDrawCallback _ _ => false
  | _ => true
  end.

Definition settled_host (ks : list Element) (host : Host) : Prop :=
  (forall ee b,
     forallb (settled_action ks) (actions (drawImageSync host ee b)) = true) /\
  (forall f ee,
     forallb (settled_action ks) (actions (callback_body host f ee)) = true).

(** Foreign code that never calls [drawImage]; it may register and remove
    callbacks. *)
Definition is_draw (a : Action) : bool :=
  match a with ADrawImage _ _ => true | _ => false end.

Definition nondrawing (a : Action) : bool := negb (is_draw a).

Definition nondrawing_host (host : Host) : Prop :=
  (forall ee b, forallb nondrawing (actions (drawImageSync host ee b)) = true) /\
  (forall f ee, forallb nondrawing (actions (callback_body host f ee)) = true).

Definition any_action (a : Action) : bool := true.

(** The elements of the table, each with the number of slots of its set. *)
Definition shape (m : DrawMap) : list (Element * nat) :=
  (fun ke => (ke.1, length (callbacks ke.2))) <$> m.

(** The entry at position [i] of the table belongs to [k] and is owed a
    render pass. *)
Definition dirty_at (i : nat) (k : Element) (w : World) : Prop :=
  exists e, elementsDrawMap w !! i = Some (k, e) /\ needsRedraw e = true.

(** [entry.needsRedraw = false] for the entry at position [i]. *)
Definition clear_at (i : nat) (w : World) : World :=
  with_elementsDrawMap
    (map_update_at i (with_needsRedraw false) (elementsDrawMap w)) w.

(** How a callback set can change while it is iterated: slots are emptied
    and slots are appended, no slot is filled again. *)
Definition evolves (s s' : CallbackSet) : Prop :=
  length s <= length s' /\
  forall p f, p < length s -> s' !! p = Some (Some f) -> s !! p = Some (Some f).

(** Every entry that is owed a render pass belongs to a node that the
    lookup resolves. *)
Definition dirty_resolve (host : Host) (w : World) : Prop :=
  forall i k e,
    elementsDrawMap w !! i = Some (k, e) -> needsRedraw e = true ->
    element_truthy k = true /\ is_Some (getEnabledElement host k).

(** The calls of a page that keeps its promises to the scheduler: it never
    hides, and every [drawImage] that is accepted names a node that the
    lookup resolves. *)
Definition resolvable_input (host : Host) (i : Input) : bool :=
  match i with
  | InVisibility hidden => negb hidden
  | InDrawImage (Some ee) _ =>
      match drawImage_rejects (Some ee) with
      | Some false =>
          element_truthy (element ee) &&
          match getEnabledElement host (element ee) with
          | Some _ => true
          | None => false
          end
      | _ => true
      end
  | _ => true
  end.

(** While [rafId] is a handle, its request is outstanding. *)
Definition request_outstanding (w : World) : Prop :=
  truthy (rafId w) = true -> pending w <> [].

Definition is_callback_of (k : Element) (ee : EnabledElement) (ev : Event) : Prop :=
  exists f, ev = EvCallback k f ee.

(** The invocation on record is of a callback that is registered for its
    element in the table [m], with the context the lookup resolves. *)
Definition registered_call (host : Host) (m : DrawMap) (ev : Event) : Prop :=
  match ev with
  | EvCallback k f ee =>
      exists i e, m !! i = Some (k, e) /\ f ∈ set_members (callbacks e) /\
                  getEnabledElement host k = Some ee
  | _ => True
  end.

(** A page in which callback 7 of node 1 unregisters callback 8 of node 1. *)
Definition unregistering_host : Host :=
  {| getEnabledElement := fun el =>
       if decide (el = ElNode 1) then Some ee1
       else if decide (el = ElNode 2) then Some ee2 else None;
     drawImageSync := fun _ _ => quiet;
     callback_body := fun f _ =>
       if decide (f = 7)
       then {| actions := [ARemoveDrawCallback (ElNode 1) 8]; throws := false |}
       else quiet;
     document_hidden := true; document_msHidden := false;
     document_webkitHidden := false |}.

(** A page in which callback 7 registers callback 10 for node 1. *)
Definition registering_host : Host :=
  {| getEnabledElement := fun el =>
       if decide (el = ElNode 1) then Some ee1
       else if decide (el = ElNode 2) then Some ee2 else None;
     drawImageSync := fun _ _ => quiet;
     callback_body := fun f _ =>
       if decide (f = 7)
       then {| actions := [AAddDrawCallback (ElNode 1) 10]; throws := true |}
       else quiet;
     document_hidden := true; document_msHidden := false;
     document_webkitHidden := false |}.

(** A page in which every callback asks for a redraw of node 2. *)
Definition forwarding_host : Host :=
  {| getEnabledElement := fun el =>
       if decide (el = ElNode 1) then Some ee1
       else if decide (el = ElNode 2) then Some ee2 else None;
     drawImageSync := fun _ _ => quiet;
     callback_body := fun _ _ =>
       {| actions := [ADrawImage (Some ee2) false]; throws := false |};
     document_hidden := true; document_msHidden := false;
     document_webkitHidden := false |}.

(** A page in which rendering node 2 takes 150 ms and every callback asks
    for another redraw of node 1. *)
Definition slow_host : Host :=
  {| getEnabledElement := fun el =>
       if decide (el = ElNode 1) then Some ee1
       else if decide (el = ElNode 2) then Some ee2 else None;
     drawImageSync := fun ee _ =>
       {| actions := if decide (oid ee = 1) then [AElapse 150] else [];
          throws := false |};
     callback_body := fun _ _ =>
       {| actions := [ADrawImage (Some ee1) false]; throws := false |};
     document_hidden := true; document_msHidden := false;
     document_webkitHidden := false |}.

(** * Properties *)

(** ** Sets and maps *)

Lemma set_has_add f s : set_has f (set_add f s) = true.
Proof.
  unfold set_add. destruct (set_has f s) eqn:Hf; [done|].
  clear Hf. induction s as [|e s IH]; simpl.
  - by rewrite decide_True.
  - by destruct (decide (e = Some f)).
Qed.

Lemma set_add_idemp f s : set_add f (set_add f s) = set_add f s.
Proof. unfold set_add at 1. by rewrite set_has_add. Qed.

Lemma set_delete_absent f s : set_has f s = false -> set_delete f s = s.
Proof.
  induction s as [|e s IH]; simpl; [done|].
  destruct (decide (e = Some f)); [done|]. intros H. by rewrite IH.
Qed.

Lemma map_get_update k k' f m :
  map_get k' (map_update k f m) =
  if decide (k = k') then f <$> map_get k m else map_get k' m.
Proof.
  induction m as [|[k0 e] m IH]; simpl.
  - by destruct (decide (k = k')).
  - destruct (decide (k0 = k)) as [->|Hk]; simpl.
    + repeat case_decide; simplify_eq/=; done.
    + rewrite IH. repeat case_decide; simplify_eq/=; done.
Qed.

Lemma map_has_update k k' f m : map_has k' (map_update k f m) = map_has k' m.
Proof.
  unfold map_has. rewrite map_get_update.
  destruct (decide (k = k')) as [->|]; [|done]. by destruct (map_get k' m).
Qed.

Lemma map_update_update k f g m :
  map_update k f (map_update k g m) = map_update k (fun e => f (g e)) m.
Proof.
  induction m as [|[k0 e] m IH]; simpl; [done|].
  destruct (decide (k0 = k)) as [->|Hk]; simpl.
  - by rewrite decide_True.
  - rewrite decide_False by done. by rewrite IH.
Qed.

Lemma map_update_ext k f g m :
  (forall e, map_get k m = Some e -> f e = g e) ->
  map_update k f m = map_update k g m.
Proof.
  induction m as [|[k0 e] m IH]; simpl; [done|].
  destruct (decide (k0 = k)) as [->|Hk]; intros H.
  - by rewrite H.
  - by rewrite IH.
Qed.

Lemma map_update_id k f m :
  (forall e, map_get k m = Some e -> f e = e) -> map_update k f m = m.
Proof.
  induction m as [|[k0 e] m IH]; simpl; [done|].
  destruct (decide (k0 = k)) as [->|Hk]; intros H.
  - by rewrite H.
  - by rewrite IH.
Qed.

Lemma map_get_app_fresh k k' v m :
  map_get k' (m ++ [(k, v)]) =
  match map_get k' m with
  | Some e => Some e
  | None => if decide (k = k') then Some v else None
  end.
Proof.
  induction m as [|[k0 e] m IH]; simpl; [done|].
  by destruct (decide (k0 = k')).
Qed.

Lemma map_has_set k v m : map_has k (map_set k v m) = true.
Proof.
  unfold map_set. destruct (map_has k m) eqn:Hk.
  - by rewrite map_has_update.
  - unfold map_has in *. rewrite map_get_app_fresh.
    destruct (map_get k m); [done|]. by rewrite decide_True.
Qed.

Lemma with_callbacks_same e : with_callbacks (callbacks e) e = e.
Proof. by destruct e. Qed.

Lemma with_elementsDrawMap_same w : with_elementsDrawMap (elementsDrawMap w) w = w.
Proof. by destruct w. Qed.

(** ** Rejected calls of [drawImage] *)

Section Rejection.
Context (host : Host).

Lemma registerVisibilityChange_registered w :
  registered (registerVisibilityChange host w) = true.
Proof.
  unfold registerVisibilityChange. destruct (registered w) eqn:Hr; [done|].
  by destruct (hidden_property host).
Qed.

Lemma drawImage_registers a inv w :
  registered (drawImage host a inv w).1 = true.
Proof.
  unfold drawImage.
  pose proof (registerVisibilityChange_registered w) as Hr.
  destruct a as [ee|], (drawImage_rejects _) as [[]|]; simpl; try done.
  destruct inv; simpl; destruct (map_has _ _); simpl;
    destruct (truthy _); simpl; done.
Qed.

Lemma drawImage_rejected a inv w :
  drawImage_rejects a <> Some false ->
  drawImage host a inv w =
  (registerVisibilityChange host w,
   match drawImage_rejects a with Some _ => Normal | None => Throw end).
Proof.
  unfold drawImage. intros H.
  destruct a as [ee|], (drawImage_rejects _) as [[]|]; simpl; done.
Qed.

(** [drawImage] raises exactly on an object that has a canvas, no image and
    no [layers] property. *)
Lemma drawImage_throws_iff a inv w :
  (drawImage host a inv w).2 = Throw <->
  exists ee, a = Some ee /\ canvas ee = true /\ image ee = false /\ layers ee = None.
Proof.
  unfold drawImage. split.
  - destruct a as [ee|]; simpl; [|done].
    destruct (canvas ee) eqn:Hc, (image ee) eqn:Hi, (layers ee) as [n|] eqn:Hl;
      simpl; try done.
    + by destruct (truthy _).
    + by destruct (truthy _).
    + destruct (n <? 1); [done|]. by destruct (truthy _).
    + intros _. by exists ee.
  - intros (ee & -> & Hc & Hi & Hl). simpl. by rewrite Hc, Hi, Hl.
Qed.

Lemma registerVisibilityChange_listeners w :
  listeners (registerVisibilityChange host w) =
  if registered w then listeners w
  else match hidden_property host with
       | Some p => listeners w ++ [p]
       | None => listeners w
       end.
Proof.
  unfold registerVisibilityChange. destruct (registered w); [done|].
  by destruct (hidden_property host).
Qed.

Lemma registerVisibilityChange_frame w :
  let w' := registerVisibilityChange host w in
  elementsDrawMap w' = elementsDrawMap w /\ rafId w' = rafId w /\
  rafStopTime w' = rafStopTime w /\ invalid w' = invalid w /\
  pending w' = pending w /\ raf_calls w' = raf_calls w /\
  now w' = now w /\ trace w' = trace w.
Proof.
  unfold registerVisibilityChange. destruct (registered w); [done|].
  by destruct (hidden_property host).
Qed.

End Rejection.

(** C9.  [drawImage] does raise to its caller: on an enabled element that
    has a canvas but neither an image nor a [layers] property, the test of
    line 26 reads [layers.length] of [undefined], whatever the host, the
    flag and the state; the visibility registration has already run and
    nothing else has changed.  These are the only arguments on which it
    raises. *)
Theorem drawImage_raises_without_layers (host : Host) (inv : bool) (w : World) :
  drawImage host (Some bare_canvas) inv w = (registerVisibilityChange host w, Throw) /\
  forall a,
    (drawImage host a inv w).2 = Throw <->
    exists ee, a = Some ee /\ canvas ee = true /\ image ee = false /\
               layers ee = None.
Proof.
  split.
  - apply (drawImage_rejected host (Some bare_canvas) inv w). simpl. congruence.
  - intros a. apply drawImage_throws_iff.
Qed.

(** C10, as stated, fails: in a document without any page-visibility
    property the first call, made with [null], sets the [registered] flag
    and installs no listener. *)
Lemma drawImage_null_installs_nothing :
  let w' := (drawImage legacy_host None false (initial (fun _ => false))).1 in
  registered w' = true /\ listeners w' = [].
Proof. split; reflexivity. Qed.

(** C10, amended.  Every call of [drawImage] runs [registerVisibilityChange]
    before it looks at its arguments, so that [registered] holds afterwards.
    A call whose argument fails the test of line 26 (or makes it throw)
    does nothing but that registration: the listener is added when no
    earlier call registered and the document has one of the three
    properties, and the table, [rafId], [rafStopTime], the [invalid] flags,
    the outstanding requests, the clock and the trace are unchanged. *)
Theorem drawImage_rejected_frame (host : Host) :
  (forall a inv w, registered (drawImage host a inv w).1 = true) /\
  (forall a inv w,
     drawImage_rejects a <> Some false ->
     let w' := (drawImage host a inv w).1 in
     w' = registerVisibilityChange host w /\
     listeners w' =
       (if registered w then listeners w
        else match hidden_property host with
             | Some p => listeners w ++ [p]
             | None => listeners w
             end) /\
     elementsDrawMap w' = elementsDrawMap w /\ rafId w' = rafId w /\
     rafStopTime w' = rafStopTime w /\ invalid w' = invalid w /\
     pending w' = pending w /\ raf_calls w' = raf_calls w /\
     now w' = now w /\ trace w' = trace w).
Proof.
  split; [apply drawImage_registers|].
  intros a inv w Hrej w'. subst w'.
  rewrite (drawImage_rejected host a inv w Hrej). simpl.
  split; [done|]. split; [apply registerVisibilityChange_listeners|].
  apply registerVisibilityChange_frame.
Qed.

Lemma drawImage_rejected_frame_witness :
  drawImage_rejects None <> Some false /\
  registered (drawImage legacy_host None true (initial (fun _ => false))).1 = true /\
  rafId (drawImage legacy_host None true (initial (fun _ => false))).1 = None.
Proof.
  assert (H : drawImage_rejects None <> Some false) by (simpl; congruence).
  split; [exact H|].
  pose proof (drawImage_rejected_frame legacy_host) as [Hreg Hfr].
  split; [apply Hreg|].
  destruct (Hfr None true (initial (fun _ => false)) H) as (_ & _ & _ & Hraf & _).
  exact Hraf.
Defined.

(** ** Registration of callbacks *)

Section Registration.
Context (host : Host).

Lemma addDrawCallback_idemp el f w :
  addDrawCallback el f (addDrawCallback el f w) = addDrawCallback el f w.
Proof.
  unfold addDrawCallback. destruct (element_truthy el); simpl; [|done].
  set (m1 := elementsDrawMap
               (if map_has el (elementsDrawMap w) then w
                else with_elementsDrawMap (map_set el fresh_entry (elementsDrawMap w)) w)).
  assert (Hhas : map_has el m1 = true).
  { subst m1. destruct (map_has el (elementsDrawMap w)) eqn:Hk; simpl; [done|].
    apply map_has_set. }
  destruct (map_has el (elementsDrawMap w)) eqn:Hk; simpl in *;
    rewrite map_has_update, Hhas; simpl; rewrite map_update_update;
    unfold with_elementsDrawMap; simpl; f_equal;
    apply map_update_ext; intros e _; unfold with_callbacks; simpl;
    by rewrite set_add_idemp.
Qed.

Lemma addDrawCallback_falsy el f w :
  element_truthy el = false -> addDrawCallback el f w = w.
Proof. unfold addDrawCallback. by intros ->. Qed.

Lemma removeDrawCallback_falsy el f w :
  element_truthy el = false -> removeDrawCallback el f w = w.
Proof. unfold removeDrawCallback. by intros ->. Qed.

Lemma removeDrawCallback_unknown_element el f w :
  map_get el (elementsDrawMap w) = None -> removeDrawCallback el f w = w.
Proof.
  unfold removeDrawCallback. intros ->. by destruct (element_truthy el).
Qed.

Lemma removeDrawCallback_unknown_callback el f e w :
  map_get el (elementsDrawMap w) = Some e -> set_has f (callbacks e) = false ->
  removeDrawCallback el f w = w.
Proof.
  unfold removeDrawCallback. intros He Hf.
  destruct (element_truthy el); simpl; [|done]. rewrite He.
  rewrite map_update_id; [apply with_elementsDrawMap_same|].
  intros e' He'. rewrite He in He'. injection He' as <-.
  rewrite set_delete_absent by done. apply with_callbacks_same.
Qed.

End Registration.

(** ** What foreign code can and cannot change *)

Lemma keys_map_update k f m : (map_update k f m).*1 = m.*1.
Proof.
  induction m as [|[k0 e] m IH]; csimpl; [done|].
  destruct (decide (k0 = k)); csimpl; [done|]. by rewrite IH.
Qed.

Lemma keys_map_update_at i f m : (map_update_at i f m).*1 = m.*1.
Proof.
  unfold map_update_at. revert i.
  induction m as [|[k0 e] m IH]; intros [|i]; csimpl; try done.
  f_equal. apply IH.
Qed.

Lemma keys_map_set k v m : exists l, (map_set k v m).*1 = m.*1 ++ l.
Proof.
  unfold map_set. destruct (map_has k m).
  - exists []. by rewrite keys_map_update, app_nil_r.
  - exists [k]. by rewrite fmap_app.
Qed.

Section Foreign.
Context (host : Host).

Lemma registerVisibilityChange_map w :
  elementsDrawMap (registerVisibilityChange host w) = elementsDrawMap w.
Proof. apply registerVisibilityChange_frame. Qed.

Lemma drawImage_keys a inv w :
  exists l, keys (drawImage host a inv w).1 = keys w ++ l.
Proof.
  unfold drawImage, keys.
  pose proof (registerVisibilityChange_map w) as Hm.
  set (w1 := registerVisibilityChange host w) in *.
  assert (Hnil : exists l, (elementsDrawMap w1).*1 = (elementsDrawMap w).*1 ++ l).
  { exists []. by rewrite Hm, app_nil_r. }
  destruct a as [ee|]; [|done].
  destruct (drawImage_rejects (Some ee)) as [[]|]; simpl; try done.
  rewrite <- Hm.
  assert (Hinv : elementsDrawMap (if inv then set_invalid (oid ee) true w1 else w1)
                 = elementsDrawMap w1) by (by destruct inv).
  set (w2 := if inv then set_invalid (oid ee) true w1 else w1) in *.
  destruct (keys_map_set (element ee) fresh_entry (elementsDrawMap w2)) as [l Hl].
  destruct (map_has (element ee) (elementsDrawMap w2)); simpl;
    destruct (truthy (rafId w2)); simpl; rewrite keys_map_update.
  - exists []. by rewrite Hinv, app_nil_r.
  - exists []. by rewrite Hinv, app_nil_r.
  - exists l. by rewrite Hl, Hinv.
  - exists l. by rewrite Hl, Hinv.
Qed.

Lemma addDrawCallback_keys el f w :
  exists l, keys (addDrawCallback el f w) = keys w ++ l.
Proof.
  unfold addDrawCallback, keys.
  destruct (element_truthy el); simpl; [|exists []; by rewrite app_nil_r].
  destruct (keys_map_set el fresh_entry (elementsDrawMap w)) as [l Hl].
  destruct (map_has el (elementsDrawMap w)); simpl; rewrite keys_map_update.
  - exists []. by rewrite app_nil_r.
  - by exists l.
Qed.

Lemma removeDrawCallback_keys el f w :
  keys (removeDrawCallback el f w) = keys w.
Proof.
  unfold removeDrawCallback, keys.
  destruct (element_truthy el); simpl; [|done].
  destruct (map_get el (elementsDrawMap w)); simpl; [|done].
  apply keys_map_update.
Qed.

Lemma run_action_keys a w : exists l, keys (run_action host a w).1 = keys w ++ l.
Proof.
  destruct a as [ee inv|el f|el f|dt|o b]; simpl.
  - apply drawImage_keys.
  - apply addDrawCallback_keys.
  - exists []. by rewrite removeDrawCallback_keys, app_nil_r.
  - exists []. by rewrite app_nil_r.
  - exists []. by rewrite app_nil_r.
Qed.

(** A property kept by every action is kept by a script. *)
Section ScriptInvariant.
Context (P : World -> Prop).
Hypothesis P_action : forall a w, P w -> P (run_action host a w).1.

Lemma run_actions_inv l w : P w -> P (run_actions host l w).1.
Proof.
  revert w. induction l as [|a l IH]; simpl; intros w Hw; [done|].
  specialize (P_action a w Hw).
  destruct (run_action host a w) as [w' []]; simpl in *; [by apply IH|done].
Qed.

Lemma run_script_inv s w : P w -> P (run_script host s w).1.
Proof.
  intros Hw. unfold run_script.
  pose proof (run_actions_inv (actions s) w Hw) as H.
  by destruct (run_actions host (actions s) w) as [w' []].
Qed.

End ScriptInvariant.

(** Foreign code only ever appends keys to the table. *)
Lemma run_script_keys s w : exists l, keys (run_script host s w).1 = keys w ++ l.
Proof.
  apply (run_script_inv (fun w' => exists l, keys w' = keys w ++ l)).
  - intros a w' [l Hl]. destruct (run_action_keys a w') as [l' Hl'].
    exists (l ++ l'). by rewrite Hl', Hl, app_assoc.
  - exists []. by rewrite app_nil_r.
Qed.

Lemma run_script_key s w i k :
  keys w !! i = Some k -> keys (run_script host s w).1 !! i = Some k.
Proof.
  intros H. destruct (run_script_keys s w) as [l ->].
  by apply lookup_app_l_Some.
Qed.

Lemma key_of_lookup (w : World) i k e :
  elementsDrawMap w !! i = Some (k, e) -> keys w !! i = Some k.
Proof. intros H. unfold keys. by rewrite list_lookup_fmap, H. Qed.

Lemma lookup_of_key (w : World) i k :
  keys w !! i = Some k -> exists e, elementsDrawMap w !! i = Some (k, e).
Proof.
  unfold keys. rewrite list_lookup_fmap.
  destruct (elementsDrawMap w !! i) as [[k' e]|]; simpl; [|done].
  intros [= ->]. by exists e.
Qed.

Lemma callbacks_forEach_keys fuel i ee index w w' :
  callbacks_forEach host fuel i ee index w = Some w' ->
  exists l, keys w' = keys w ++ l.
Proof.
  revert index w. induction fuel as [|fuel IH]; intros index w; simpl; [done|].
  destruct (elementsDrawMap w !! i) as [[el entry]|];
    [|intros [= <-]; exists []; by rewrite app_nil_r].
  destruct (callbacks entry !! index) as [[rafcb|]|];
    [| |intros [= <-]; exists []; by rewrite app_nil_r].
  - destruct (run_script host (callback_body host rafcb ee)
                (log (EvCallback el rafcb ee) w)) as [w2 o2] eqn:Hrs.
    intros Hcb. destruct (IH _ _ Hcb) as [l Hl].
    destruct (run_script_keys (callback_body host rafcb ee)
                (log (EvCallback el rafcb ee) w)) as [l' Hl'].
    rewrite Hrs in Hl'. simpl in Hl'. exists (l' ++ l).
    rewrite Hl, Hl'. by rewrite app_assoc.
  - apply IH.
Qed.

End Foreign.

(** ** Invariants of the drain

    A property of the world that every action of foreign code keeps, that
    recording a collaborator call keeps, that clearing the flag of a
    resolvable entry keeps and that moving the deadline keeps, is kept by
    the whole drain, however the callbacks and the render routine call back
    into the module. *)

Section DrainInvariant.
Context (host : Host) (P : World -> Prop).
Hypothesis P_action : forall a w, P w -> P (run_action host a w).1.
Hypothesis P_log : forall ev w, P w -> event_ok host ev -> P (log ev w).
Hypothesis P_clear : forall i k ee w,
  P w -> keys w !! i = Some k -> element_truthy k = true ->
  getEnabledElement host k = Some ee ->
  P (with_elementsDrawMap
       (map_update_at i (with_needsRedraw false) (elementsDrawMap w)) w).
Hypothesis P_deadline : forall t w, P w -> P (with_rafStopTime (Some t) w).

Lemma callbacks_forEach_inv fuel i k ee index w w' :
  getEnabledElement host k = Some ee -> keys w !! i = Some k -> P w ->
  callbacks_forEach host fuel i ee index w = Some w' ->
  P w' /\ keys w' !! i = Some k.
Proof.
  intros Hres. revert index w.
  induction fuel as [|fuel IH]; intros index w Hk Hw; simpl; [done|].
  destruct (lookup_of_key w i k Hk) as [entry Hi]. rewrite Hi.
  destruct (callbacks entry !! index) as [[rafcb|]|]; [| |by intros [= <-]].
  - destruct (run_script host (callback_body host rafcb ee)
                (log (EvCallback k rafcb ee) w)) as [w2 o2] eqn:Hrs.
    assert (Hw1 : P (log (EvCallback k rafcb ee) w)) by (by apply P_log).
    pose proof (run_script_inv host P P_action (callback_body host rafcb ee)
                  _ Hw1) as Hw2.
    pose proof (run_script_key host (callback_body host rafcb ee)
                  (log (EvCallback k rafcb ee) w) i k Hk) as Hk2.
    rewrite Hrs in Hw2, Hk2. simpl in Hw2, Hk2. by apply IH.
  - by apply IH.
Qed.

Lemma visit_inv fuel i w w' o :
  P w -> visit host fuel i w = Some (w', o) -> P w' /\ exists l, keys w' = keys w ++ l.
Proof.
  intros Hw. unfold visit.
  assert (Hsame : forall w0 o0, Some (w, Normal) = Some (w0, o0) ->
            P w0 /\ exists l, keys w0 = keys w ++ l).
  { intros w0 o0 [= <- <-]. split; [done|]. exists []. by rewrite app_nil_r. }
  destruct (elementsDrawMap w !! i) as [[k entry]|] eqn:Hi; [|apply Hsame].
  destruct (negb (element_truthy k) || negb (needsRedraw entry)) eqn:Hg;
    [apply Hsame|].
  apply orb_false_elim in Hg as [Hk%negb_false_iff _].
  destruct (getEnabledElement host k) as [ee|] eqn:Hres; [|apply Hsame].
  clear Hsame.
  set (w1 := log (EvPreRender k ee) w).
  set (w2 := log (EvRender k ee (invalid w1 (oid ee))) w1).
  assert (Hw2 : P w2) by (subst w2 w1; apply P_log; [apply P_log|]; done).
  assert (Hk2 : keys w2 !! i = Some k) by (by apply (key_of_lookup w i k entry)).
  destruct (run_script host (drawImageSync host ee (invalid w1 (oid ee))) w2)
    as [w3 o3] eqn:Hrs.
  pose proof (run_script_inv host P P_action
                (drawImageSync host ee (invalid w1 (oid ee))) _ Hw2) as Hw3.
  pose proof (run_script_key host (drawImageSync host ee (invalid w1 (oid ee)))
                _ i k Hk2) as Hk3.
  destruct (run_script_keys host (drawImageSync host ee (invalid w1 (oid ee))) w2)
    as [l3 Hl3].
  rewrite Hrs in Hw3, Hk3, Hl3. simpl in Hw3, Hk3, Hl3.
  change (keys w2) with (keys w) in Hl3.
  destruct o3; [|intros [= <- <-]; split; [done|by exists l3]].
  set (w4 := with_elementsDrawMap
               (map_update_at i (with_needsRedraw false) (elementsDrawMap w3)) w3).
  assert (Hw4 : P w4) by (by apply (P_clear i k ee)).
  assert (Hkeys4 : keys w4 = keys w3) by apply keys_map_update_at.
  destruct (elementsDrawMap w4 !! i) as [[k4 entry4]|];
    [|intros [= <- <-]; split; [done|exists l3; congruence]].
  destruct (0 <? set_size (callbacks entry4));
    [|intros [= <- <-]; split; [done|exists l3; congruence]].
  destruct (callbacks_forEach host fuel i ee 0 w4) as [w5|] eqn:Hcb; [|done].
  intros [= <- <-].
  assert (Hk4 : keys w4 !! i = Some k) by (by rewrite Hkeys4).
  destruct (callbacks_forEach_inv fuel i k ee 0 w4 w5 Hres Hk4 Hw4 Hcb) as [Hw5 _].
  split; [by apply P_deadline|].
  change (keys (with_rafStopTime (Some (now w5 + rafStopMaxTime)) w5)) with (keys w5).
  destruct (callbacks_forEach_keys host fuel i ee 0 w4 w5 Hcb) as [l5 Hl5].
  exists (l3 ++ l5). by rewrite Hl5, Hkeys4, Hl3, app_assoc.
Qed.

Lemma map_forEach_inv fuel_cb fuel index w w' o :
  P w -> map_forEach host fuel_cb fuel index w = Some (w', o) ->
  P w' /\ exists l, keys w' = keys w ++ l.
Proof.
  revert index w. induction fuel as [|fuel IH]; intros index w Hw; simpl; [done|].
  destruct (elementsDrawMap w !! index);
    [|intros [= <- <-]; split; [done|exists []; by rewrite app_nil_r]].
  destruct (visit host fuel_cb index w) as [[w1 []]|] eqn:Hv; [| |done].
  - destruct (visit_inv _ _ _ _ _ Hw Hv) as [Hw1 [l1 Hl1]].
    intros H. destruct (IH _ _ Hw1 H) as [Hw' [l Hl]].
    split; [done|]. exists (l1 ++ l). by rewrite Hl, Hl1, app_assoc.
  - intros [= <- <-]. by apply (visit_inv _ _ _ _ _ Hw Hv).
Qed.

Lemma drain_inv fuel w w' o :
  P w -> drain host fuel w = Some (w', o) -> P w' /\ exists l, keys w' = keys w ++ l.
Proof. apply map_forEach_inv. Qed.

End DrainInvariant.

(** ** The request handle during a tick *)

Section Request.
Context (host : Host).

(** What an accepted call of [drawImage] does to the schedule. *)
Lemma drawImage_accepted_request ee inv w :
  drawImage_rejects (Some ee) = Some false ->
  let w' := (drawImage host (Some ee) inv w).1 in
  rafStopTime w' = Some (now w + rafStopMaxTime) /\
  if truthy (rafId w)
  then rafId w' = rafId w /\ raf_calls w' = raf_calls w /\ pending w' = pending w
  else rafId w' = Some (S (raf_calls w)) /\ raf_calls w' = S (raf_calls w) /\
       pending w' = pending w ++ [S (raf_calls w)].
Proof.
  intros Hacc. unfold drawImage. rewrite Hacc.
  destruct (registerVisibilityChange_frame host w)
    as (_ & Hraf & _ & _ & Hpend & Hcalls & Hnow & _).
  revert Hraf Hpend Hcalls Hnow.
  generalize (registerVisibilityChange host w) as w1.
  intros w1 Hraf Hpend Hcalls Hnow.
  destruct inv, (map_has _ _); simpl; rewrite Hraf, Hnow;
    destruct (truthy (rafId w)); simpl; rewrite ?Hraf, ?Hpend, ?Hcalls; done.
Qed.

Lemma run_action_keeps_request a w :
  truthy (rafId w) = true ->
  let w' := (run_action host a w).1 in
  rafId w' = rafId w /\ raf_calls w' = raf_calls w /\ pending w' = pending w.
Proof.
  intros Ht. destruct a as [a inv|el f|el f|dt|o b]; simpl; try done.
  - destruct (drawImage_rejects a) as [[]|] eqn:Hrej.
    + rewrite drawImage_rejected by congruence. simpl.
      destruct (registerVisibilityChange_frame host w) as (_&?&_&_&?&?&_). done.
    + destruct a as [ee|]; [|done].
      destruct (drawImage_accepted_request ee inv w Hrej) as [_ H].
      by rewrite Ht in H.
    + rewrite drawImage_rejected by congruence. simpl.
      destruct (registerVisibilityChange_frame host w) as (_&?&_&_&?&?&_). done.
  - unfold addDrawCallback. destruct (element_truthy el); simpl; [|done].
    by destruct (map_has _ _).
  - unfold removeDrawCallback. destruct (element_truthy el); simpl; [|done].
    by destruct (map_get _ _).
Qed.

Lemma drain_keeps_request fuel w w' o :
  truthy (rafId w) = true -> drain host fuel w = Some (w', o) ->
  rafId w' = rafId w /\ raf_calls w' = raf_calls w /\ pending w' = pending w.
Proof.
  intros Ht Hd.
  apply (drain_inv host
           (fun w0 => rafId w0 = rafId w /\ raf_calls w0 = raf_calls w /\
                      pending w0 = pending w)) in Hd; [by destruct Hd| | | | |done].
  - intros a w0 (Hr & Hc & Hp).
    destruct (run_action_keeps_request a w0) as (Hr' & Hc' & Hp');
      [by rewrite Hr|]. by rewrite Hr', Hc', Hp'.
  - by intros ev w0 H _.
  - by intros i k ee w0 H _ _ _.
  - by intros t w0 H.
Qed.

End Request.

(** ** Entries that do not resolve *)

Lemma map_update_lookup k0 f (m : DrawMap) i k e :
  m !! i = Some (k, e) ->
  exists e', map_update k0 f m !! i = Some (k, e') /\ (e' = e \/ e' = f e).
Proof.
  revert i. induction m as [|[k1 e1] m IH]; intros i Hi; [done|]. simpl.
  destruct (decide (k1 = k0)) as [->|Hne].
  - destruct i as [|i]; simpl in *.
    + injection Hi as -> ->. eauto.
    + eauto.
  - destruct i as [|i]; simpl in *.
    + injection Hi as -> ->. eauto.
    + by apply IH.
Qed.

Lemma map_set_lookup k0 v (m : DrawMap) i k e :
  map_has k0 m = false -> m !! i = Some (k, e) ->
  map_set k0 v m !! i = Some (k, e).
Proof.
  intros Hhas Hi. unfold map_set. rewrite Hhas. by apply lookup_app_l_Some.
Qed.

Section Unresolved.
Context (host : Host).

Lemma drawImage_accepted_map ee inv w :
  drawImage_rejects (Some ee) = Some false ->
  elementsDrawMap (drawImage host (Some ee) inv w).1 =
  map_update (element ee) (with_needsRedraw true)
    (if map_has (element ee) (elementsDrawMap w) then elementsDrawMap w
     else map_set (element ee) fresh_entry (elementsDrawMap w)).
Proof.
  intros Hacc. unfold drawImage. rewrite Hacc.
  pose proof (registerVisibilityChange_map host w) as Hm. revert Hm.
  generalize (registerVisibilityChange host w) as w1. intros w1 Hm.
  destruct inv; simpl; rewrite Hm;
    destruct (map_has _ _); simpl; destruct (truthy (rafId w1)); simpl;
    by rewrite ?Hm.
Qed.

Lemma run_action_trace a w : trace (run_action host a w).1 = trace w.
Proof.
  destruct a as [a inv|el f|el f|dt|o b]; simpl; try done.
  - unfold drawImage.
    destruct (registerVisibilityChange_frame host w) as (_&_&_&_&_&_&_&Ht).
    revert Ht. generalize (registerVisibilityChange host w) as w1. intros w1 Ht.
    destruct a as [ee|]; [|done].
    destruct (drawImage_rejects (Some ee)) as [[]|]; simpl; try done.
    destruct inv; simpl; destruct (map_has _ _); simpl;
      destruct (truthy (rafId w1)); simpl; done.
  - unfold addDrawCallback. destruct (element_truthy el); simpl; [|done].
    by destruct (map_has _ _).
  - unfold removeDrawCallback. destruct (element_truthy el); simpl; [|done].
    by destruct (map_get _ _).
Qed.

(** A property of entries that setting the dirty flag and changing the
    callbacks keep is kept, entry by entry, by every action. *)
Lemma run_action_entry (Q : Entry -> Prop) a w i k e :
  (forall e0, Q e0 -> Q (with_needsRedraw true e0)) ->
  (forall s e0, Q e0 -> Q (with_callbacks s e0)) ->
  elementsDrawMap w !! i = Some (k, e) -> Q e ->
  exists e', elementsDrawMap (run_action host a w).1 !! i = Some (k, e') /\ Q e'.
Proof.
  intros Qd Qc Hi He.
  assert (Hupd : forall k0 f (m : DrawMap), (forall e0, Q e0 -> Q (f e0)) ->
            m !! i = Some (k, e) ->
            exists e', map_update k0 f m !! i = Some (k, e') /\ Q e').
  { intros k0 f m Hf Hm.
    destruct (map_update_lookup k0 f m i k e Hm) as (e' & Hl & [->| ->]); eauto. }
  assert (Hset : forall k0 (m : DrawMap), m !! i = Some (k, e) ->
            (if map_has k0 m then m else map_set k0 fresh_entry m) !! i
            = Some (k, e)).
  { intros k0 m Hm. destruct (map_has k0 m) eqn:Hh; [done|].
    by apply map_set_lookup. }
  destruct a as [a inv|el f|el f|dt|o b]; simpl; eauto.
  - destruct (drawImage_rejects a) as [[]|] eqn:Hrej.
    + rewrite drawImage_rejected by congruence. simpl.
      rewrite registerVisibilityChange_map. eauto.
    + destruct a as [ee|]; [|done]. rewrite drawImage_accepted_map by done.
      apply Hupd; [done|]. by apply Hset.
    + rewrite drawImage_rejected by congruence. simpl.
      rewrite registerVisibilityChange_map. eauto.
  - unfold addDrawCallback. destruct (element_truthy el); simpl; [|eauto].
    apply Hupd; [intros; by apply Qc|].
    specialize (Hset el (elementsDrawMap w) Hi).
    by destruct (map_has el (elementsDrawMap w)).
  - unfold removeDrawCallback. destruct (element_truthy el); simpl; [|eauto].
    destruct (map_get el (elementsDrawMap w)); simpl; [|eauto].
    apply Hupd; [intros; by apply Qc|done].
Qed.

Lemma visit_unresolved fuel i k e w :
  elementsDrawMap w !! i = Some (k, e) -> getEnabledElement host k = None ->
  visit host fuel i w = Some (w, Normal).
Proof.
  intros Hi Hres. unfold visit. rewrite Hi, Hres.
  by destruct (negb (element_truthy k) || negb (needsRedraw e)).
Qed.

Lemma drain_unresolved fuel i k e w w' o :
  elementsDrawMap w !! i = Some (k, e) -> needsRedraw e = true ->
  getEnabledElement host k = None ->
  drain host fuel w = Some (w', o) ->
  (exists e', elementsDrawMap w' !! i = Some (k, e') /\ needsRedraw e' = true) /\
  exists t, trace w' = trace w ++ t /\ Forall (event_ok host) t.
Proof.
  intros Hi He Hres Hd.
  apply (drain_inv host (fun w0 =>
           (exists e', elementsDrawMap w0 !! i = Some (k, e') /\ needsRedraw e' = true) /\
           exists t, trace w0 = trace w ++ t /\ Forall (event_ok host) t)) in Hd;
    [by destruct Hd| | | | |].
  - intros a w0 [(e0 & Hi0 & He0) Ht]. split.
    + by apply (run_action_entry (fun e1 => needsRedraw e1 = true) a w0 i k e0).
    + by rewrite run_action_trace.
  - intros ev w0 [Hd0 (t & Ht & Hok)] Hev. split; [done|].
    exists (t ++ [ev]). simpl. rewrite Ht, app_assoc. split; [done|].
    apply Forall_app. split; [done|]. by constructor.
  - intros j kj ee w0 [(e0 & Hi0 & He0) Ht] Hkj _ Hresj. split; [|done]. simpl.
    destruct (decide (j = i)) as [->|Hne].
    + apply key_of_lookup in Hi0. congruence.
    + exists e0. split; [|done]. unfold map_update_at.
      by rewrite list_lookup_alter_ne.
  - by intros t w0 H.
  - split; [eauto|]. exists []. by rewrite app_nil_r.
Qed.

End Unresolved.

Lemma step_drain host fuel w w' o :
  step host fuel w = Some (w', o) ->
  exists wd, drain host fuel w = Some (wd, o) /\
    elementsDrawMap w' = elementsDrawMap wd /\ trace w' = trace wd /\
    invalid w' = invalid wd /\ now w' = now wd /\
    rafStopTime w' = rafStopTime wd /\ registered w' = registered wd /\
    listeners w' = listeners wd.
Proof.
  unfold step. destruct (drain host fuel w) as [[wd []]|]; [| |done].
  - destruct (keep_running wd); intros [= <- <-]; exists wd; [done|].
    unfold stopRaf. by destruct (rafId wd) as [[|n]|].
  - intros [= <- <-]. by exists wd.
Qed.

(** C3, as stated, fails.  Node 1 is marked dirty in a page where no element
    resolves; after the tick nothing has been rendered and the entry still
    has [needsRedraw] set. *)
Lemma unresolved_entry_left_dirty :
  (fun w => (map_get (ElNode 1) (elementsDrawMap w), trace w)) <$>
    run legacy_host [InDrawImage (Some ee1) false; InFrame 2] (initial all_clear)
  = Some (Some {| needsRedraw := true; callbacks := [] |}, []).
Proof. vm_compute. reflexivity. Qed.

(** C3, amended.  When the lookup fails for a dirty entry, the visit of that
    entry changes nothing and ends normally, so that the drain goes on with
    the next entry; nothing is asked of a collaborator for that element
    during the tick, and when the tick is over the entry still has
    [needsRedraw] set: it is looked up again at every later tick, until the
    lookup succeeds. *)
Theorem unresolved_entry_skipped (host : Host) (fuel i : nat) (k : Element)
    (e : Entry) (w : World) :
  elementsDrawMap w !! i = Some (k, e) -> needsRedraw e = true ->
  getEnabledElement host k = None ->
  visit host fuel i w = Some (w, Normal) /\
  (forall n, map_forEach host fuel (S n) i w = map_forEach host fuel n (S i) w) /\
  (forall w' o,
     step host fuel w = Some (w', o) ->
     (exists e', elementsDrawMap w' !! i = Some (k, e') /\ needsRedraw e' = true) /\
     exists t, trace w' = trace w ++ t /\ forall ev, ev ∈ t -> event_key ev <> k).
Proof.
  intros Hi He Hres.
  pose proof (visit_unresolved host fuel i k e w Hi Hres) as Hv.
  split; [done|]. split.
  - intros n. simpl. by rewrite Hi, Hv.
  - intros w' o Hs.
    destruct (step_drain host fuel w w' o Hs) as (wd & Hd & Hm & Ht & _).
    destruct (drain_unresolved host fuel i k e w wd o Hi He Hres Hd)
      as [Hdirty (t & Htr & Hok)].
    rewrite Hm, Ht. split; [done|]. exists t. split; [done|].
    intros ev Hev Hk. rewrite Forall_forall in Hok. specialize (Hok ev Hev).
    destruct ev; simpl in *; congruence.
Qed.

Lemma unresolved_entry_skipped_witness :
  let w := (drawImage legacy_host (Some ee1) false (initial all_clear)).1 in
  elementsDrawMap w !! 0 = Some (ElNode 1, {| needsRedraw := true; callbacks := [] |}) /\
  visit legacy_host 2 0 w = Some (w, Normal).
Proof.
  intros w.
  assert (Hi : elementsDrawMap w !! 0 =
               Some (ElNode 1, {| needsRedraw := true; callbacks := [] |}))
    by (vm_compute; reflexivity).
  split; [exact Hi|].
  exact (proj1 (unresolved_entry_skipped legacy_host 2 0 (ElNode 1) _ w
                  Hi eq_refl eq_refl)).
Defined.

(** ** A render routine that throws *)

Lemma step_throw_no_cleanup host fuel w wd :
  drain host fuel w = Some (wd, Throw) -> step host fuel w = Some (wd, Throw).
Proof. unfold step. by intros ->. Qed.

(** C4.  The code at the failing input: node 1 is dirty, request 1 is
    outstanding and the render routine throws.  The tick ends with the
    exception; afterwards [rafId] is still 1 although no request is
    outstanding, the entry is still dirty, and a further [drawImage] for
    node 1 arms nothing. *)
Theorem render_throw_leaves_stale_handle :
  exists w1 w2 w3,
    run throwing_host [InDrawImage (Some ee1) false] (initial all_clear) = Some w1 /\
    (rafId w1, pending w1) = (Some 1, [1]) /\
    frame throwing_host 2 w1 = Some (w2, Throw) /\
    (rafId w2, pending w2, raf_calls w2) = (Some 1, [], 1) /\
    map_get (ElNode 1) (elementsDrawMap w2) =
      Some {| needsRedraw := true; callbacks := [] |} /\
    drawImage throwing_host (Some ee1) false w2 = (w3, Normal) /\
    (rafId w3, pending w3, raf_calls w3) = (Some 1, [], 1) /\
    frame throwing_host 2 w3 = Some (w3, Normal).
Proof.
  eexists. eexists. eexists.
  split; [vm_compute; reflexivity|]. split; [vm_compute; reflexivity|].
  split; [vm_compute; reflexivity|]. split; [vm_compute; reflexivity|].
  split; [vm_compute; reflexivity|]. split; [vm_compute; reflexivity|].
  split; vm_compute; reflexivity.
Qed.

(** ** Dirty entries and the request handle *)

Lemma has_dirty_update k f m :
  (forall e, needsRedraw (f e) = needsRedraw e) ->
  has_dirty (map_update k f m) = has_dirty m.
Proof.
  intros Hf. induction m as [|[k0 e] m IH]; simpl; [done|].
  destruct (decide (k0 = k)); simpl; [by rewrite Hf|by rewrite IH].
Qed.

Lemma has_dirty_set_fresh k m :
  has_dirty (if map_has k m then m else map_set k fresh_entry m) = has_dirty m.
Proof.
  unfold map_set. destruct (map_has k m); [done|].
  unfold has_dirty. rewrite existsb_app. simpl. by rewrite !orb_false_r.
Qed.

Lemma has_dirty_lookup (m : DrawMap) i k e :
  has_dirty m = false -> m !! i = Some (k, e) -> needsRedraw e = false.
Proof.
  revert i. induction m as [|[k0 e0] m IH]; intros i; simpl; [done|].
  intros [H0 Hm]%orb_false_elim. destruct i as [|i]; simpl.
  - by intros [= <- <-].
  - by apply IH.
Qed.

Section Schedule.
Context (host : Host).

Lemma addDrawCallback_schedule el f w :
  let w' := addDrawCallback el f w in
  has_dirty (elementsDrawMap w') = has_dirty (elementsDrawMap w) /\
  rafId w' = rafId w /\ rafStopTime w' = rafStopTime w /\
  pending w' = pending w /\ raf_calls w' = raf_calls w.
Proof.
  unfold addDrawCallback. destruct (element_truthy el); simpl; [|done].
  pose proof (has_dirty_set_fresh el (elementsDrawMap w)) as Hd.
  destruct (map_has el (elementsDrawMap w)); simpl in *;
    rewrite has_dirty_update by done; done.
Qed.

Lemma removeDrawCallback_schedule el f w :
  let w' := removeDrawCallback el f w in
  has_dirty (elementsDrawMap w') = has_dirty (elementsDrawMap w) /\
  rafId w' = rafId w /\ rafStopTime w' = rafStopTime w /\
  pending w' = pending w /\ raf_calls w' = raf_calls w.
Proof.
  unfold removeDrawCallback. destruct (element_truthy el); simpl; [|done].
  destruct (map_get el (elementsDrawMap w)); simpl; [|done].
  by rewrite has_dirty_update.
Qed.

Lemma visibility_listener_visible w :
  let w' := visibility_listener false w in
  elementsDrawMap w' = elementsDrawMap w /\ truthy (rafId w') = true.
Proof. unfold visibility_listener, stopRaf. by destruct (rafId w) as [[|n]|]. Qed.

Lemma visible_listeners l w :
  truthy (rafId w) = true ->
  let w' := foldl (fun w0 (_ : HiddenProperty) => visibility_listener false w0) w l in
  elementsDrawMap w' = elementsDrawMap w /\ truthy (rafId w') = true.
Proof.
  revert w. induction l as [|q l IH]; intros w Ht; cbn [foldl]; [done|].
  destruct (visibility_listener_visible w) as [Hm1 Ht1].
  destruct (IH _ Ht1) as [Hm2 Ht2]. split; [congruence|done].
Qed.

Lemma visibilitychange_visible w :
  let w' := visibilitychange false w in
  elementsDrawMap w' = elementsDrawMap w /\
  (listeners w = [] /\ w' = w \/ truthy (rafId w') = true).
Proof.
  unfold visibilitychange. destruct (listeners w) as [|p l]; cbn [foldl].
  - split; [done|by left].
  - destruct (visibility_listener_visible w) as [Hm1 Ht1].
    destruct (visible_listeners l _ Ht1) as [Hm2 Ht2].
    split; [congruence|by right].
Qed.

Lemma react_keeps_schedule i w w' :
  schedule_keeping i = true -> react host i w = Some w' ->
  dirty_scheduled w -> dirty_scheduled w'.
Proof.
  unfold dirty_scheduled, dirty.
  destruct i as [a inv|el f|el f|hidden|fuel|dt]; simpl; try done.
  - intros _ [= <-] Hw.
    destruct (drawImage_rejects a) as [[]|] eqn:Hrej.
    + rewrite drawImage_rejected by congruence. simpl.
      destruct (registerVisibilityChange_frame host w) as (-> & -> & _). done.
    + destruct a as [ee|]; [|done]. intros _.
      destruct (drawImage_accepted_request host ee inv w Hrej) as [_ H].
      destruct (truthy (rafId w)) eqn:Ht.
      * destruct H as [-> _]. done.
      * destruct H as [-> _]. done.
    + rewrite drawImage_rejected by congruence. simpl.
      destruct (registerVisibilityChange_frame host w) as (-> & -> & _). done.
  - intros _ [= <-] Hw.
    destruct (addDrawCallback_schedule el f w) as (-> & -> & _). done.
  - intros _ [= <-] Hw.
    destruct (removeDrawCallback_schedule el f w) as (-> & -> & _). done.
  - destruct hidden; [done|]. intros _ [= <-] Hw.
    destruct (visibilitychange_visible w) as [-> [[_ ->]|Ht]]; done.
  - by intros _ [= <-] Hw.
Qed.

Lemma run_keeps_schedule l w w' :
  forallb schedule_keeping l = true -> run host l w = Some w' ->
  dirty_scheduled w -> dirty_scheduled w'.
Proof.
  revert w. induction l as [|i l IH]; intros w; simpl.
  - by intros _ [= <-].
  - intros [Hi Hl]%andb_prop. destruct (react host i w) as [w1|] eqn:Hr; [|done].
    intros Hrun Hw. apply (IH w1); [done|done|].
    by apply (react_keeps_schedule i w).
Qed.

End Schedule.

(** ** The idle deadline *)

Lemma keep_running_ahead w : keep_running w = true <-> deadline_ahead w.
Proof.
  unfold keep_running, deadline_ahead.
  destruct (rafStopTime w) as [[|t]|]; simpl.
  - split; [done|]. intros (t & [= <-] & Ht). lia.
  - rewrite Nat.ltb_lt. split; [eauto|]. by intros (t' & [= <-] & Ht).
  - split; [done|]. by intros (t & ? & _).
Qed.

Section Idle.
Context (host : Host).

Lemma visit_clean fuel i w :
  has_dirty (elementsDrawMap w) = false -> visit host fuel i w = Some (w, Normal).
Proof.
  intros Hd. unfold visit.
  destruct (elementsDrawMap w !! i) as [[k e]|] eqn:Hi; [|done].
  rewrite (has_dirty_lookup _ i k e Hd Hi). simpl. by rewrite orb_true_r.
Qed.

(** With nothing dirty the drain does nothing. *)
Lemma map_forEach_clean fuel_cb fuel index w :
  has_dirty (elementsDrawMap w) = false ->
  length (elementsDrawMap w) <= index + fuel ->
  map_forEach host fuel_cb (S fuel) index w = Some (w, Normal).
Proof.
  intros Hd. revert index. induction fuel as [|fuel IH]; intros index Hlen.
  - simpl. rewrite lookup_ge_None_2; [done|lia].
  - cbn [map_forEach].
    destruct (elementsDrawMap w !! index) eqn:Hi; [|done].
    rewrite visit_clean by done. apply IH. lia.
Qed.

(** Once [rafId] is null and nothing is outstanding, only an accepted
    [drawImage] or a change to visible arms a request. *)
Lemma react_dormant i w w' :
  rafId w = None -> pending w = [] -> react host i w = Some w' ->
  if wakes i
  then forall ee inv,
         i = InDrawImage (Some ee) inv ->
         rafId w' = Some (S (raf_calls w)) /\ pending w' = [S (raf_calls w)] /\
         raf_calls w' = S (raf_calls w)
  else rafId w' = None /\ pending w' = [] /\ raf_calls w' = raf_calls w.
Proof.
  intros Hr Hp.
  destruct i as [a inv|el f|el f|hidden|fuel|dt]; simpl.
  - intros [= <-]. destruct (drawImage_rejects a) as [[]|] eqn:Hrej.
    + rewrite drawImage_rejected by congruence. simpl.
      destruct (registerVisibilityChange_frame host w) as (_&->&_&_&->&->&_). done.
    + intros ee inv' [= -> ->].
      destruct (drawImage_accepted_request host ee inv' w Hrej) as [_ H].
      rewrite Hr in H. cbn [truthy] in H. rewrite Hp in H.
      destruct H as (H1 & H2 & H3). done.
    + rewrite drawImage_rejected by congruence. simpl.
      destruct (registerVisibilityChange_frame host w) as (_&->&_&_&->&->&_). done.
  - intros [= <-].
    destruct (addDrawCallback_schedule el f w) as (_ & -> & _ & -> & ->). done.
  - intros [= <-].
    destruct (removeDrawCallback_schedule el f w) as (_ & -> & _ & -> & ->). done.
  - intros [= <-]. destruct hidden; simpl; [|done].
    unfold visibilitychange. generalize (listeners w) as l. intros l.
    revert w Hr Hp. induction l as [|p l IH]; intros w Hr Hp; cbn [foldl]; [done|].
    assert (Hs : visibility_listener true w = w).
    { unfold visibility_listener, stopRaf. rewrite Hr. by destruct w; simplify_eq/=. }
    rewrite Hs. by apply IH.
  - unfold frame. rewrite Hp. simpl. by intros [= <-].
  - by intros [= <-].
Qed.

End Idle.

(** ** Ticks with passive collaborators *)

Lemma with_now_same w : with_now (now w + 0) w = w.
Proof. destruct w. unfold with_now. simpl. by rewrite Nat.add_0_r. Qed.

Lemma with_now_twice a b w :
  with_now (now (with_now (now w + a) w) + b) (with_now (now w + a) w)
  = with_now (now w + (a + b)) w.
Proof. unfold with_now. simpl. by rewrite Nat.add_assoc. Qed.

Section Passive.
Context (host : Host).

Lemma run_actions_passive l w :
  forallb is_elapse l = true ->
  run_actions host l w = (with_now (now w + elapse_total l) w, Normal).
Proof.
  revert w. induction l as [|a l IH]; intros w; simpl.
  - by rewrite with_now_same.
  - destruct a; simpl; try done. intros Hl. rewrite IH by done.
    by rewrite with_now_twice.
Qed.

Lemma run_script_passive s w :
  passive s ->
  run_script host s w =
  (with_now (now w + elapsed s) w, if throws s then Throw else Normal).
Proof. intros Hs. unfold run_script. by rewrite run_actions_passive. Qed.

Lemma callbacks_run_frame el ee fs w :
  let w' := callbacks_run host el ee fs w in
  elementsDrawMap w' = elementsDrawMap w /\
  trace w' = trace w ++ ((fun f => EvCallback el f ee) <$> fs) /\
  rafStopTime w' = rafStopTime w /\ now w <= now w' /\ same_schedule w w'.
Proof.
  unfold callbacks_run, same_schedule. revert w.
  induction fs as [|f fs IH]; intros w; cbn [foldl].
  - rewrite app_nil_r. done.
  - destruct (IH (with_now (now w + elapsed (callback_body host f ee))
                    (log (EvCallback el f ee) w)))
      as (-> & -> & -> & Hnow & -> & -> & -> & -> & -> & ->).
    simpl in *. rewrite <- app_assoc. repeat split; try done. lia.
Qed.

Lemma callbacks_forEach_S fuel i ee index w :
  callbacks_forEach host (S fuel) i ee index w =
  match elementsDrawMap w !! i with
  | None => Some w
  | Some (el, entry) =>
      match callbacks entry !! index with
      | None => Some w
      | Some None => callbacks_forEach host fuel i ee (S index) w
      | Some (Some rafcb) =>
          callbacks_forEach host fuel i ee (S index)
            (run_script host (callback_body host rafcb ee)
               (log (EvCallback el rafcb ee) w)).1
      end
  end.
Proof.
  simpl. destruct (elementsDrawMap w !! i) as [[el entry]|]; [|done].
  destruct (callbacks entry !! index) as [[f|]|]; try done.
  by destruct (run_script _ _ _).
Qed.

Lemma map_forEach_S fuel_cb fuel index w :
  map_forEach host fuel_cb (S fuel) index w =
  match elementsDrawMap w !! index with
  | None => Some (w, Normal)
  | Some _ =>
      match visit host fuel_cb index w with
      | None => None
      | Some (w', Throw) => Some (w', Throw)
      | Some (w', Normal) => map_forEach host fuel_cb fuel (S index) w'
      end
  end.
Proof. done. Qed.

Lemma callbacks_forEach_passive fuel i el entry ee index w :
  (forall f, passive (callback_body host f ee)) ->
  elementsDrawMap w !! i = Some (el, entry) ->
  length (callbacks entry) <= index + fuel ->
  callbacks_forEach host (S fuel) i ee index w =
  Some (callbacks_run host el ee (set_members (drop index (callbacks entry))) w).
Proof.
  intros Hp. revert index w.
  induction fuel as [|fuel IH]; intros index w Hi Hlen.
  - simpl. rewrite Hi. rewrite lookup_ge_None_2 by lia.
    rewrite drop_ge by lia. done.
  - rewrite callbacks_forEach_S, Hi.
    destruct (callbacks entry !! index) as [[f|]|] eqn:Hix.
    + rewrite run_script_passive by apply Hp. cbn [fst].
      rewrite IH; [|done|lia].
      rewrite (drop_S _ _ _ Hix). done.
    + rewrite IH; [|done|lia]. rewrite (drop_S _ _ _ Hix). done.
    + apply lookup_ge_None_1 in Hix. rewrite drop_ge by lia. done.
Qed.

End Passive.

Lemma map_update_at_insert i f (m : DrawMap) k e :
  m !! i = Some (k, e) -> map_update_at i f m = <[i := (k, f e)]> m.
Proof.
  unfold map_update_at. revert i.
  induction m as [|[k0 e0] m IH]; intros [|i] Hi; simpl in *; try done.
  - by injection Hi as -> ->.
  - f_equal. by apply IH.
Qed.

Section PassiveTick.
Context (host : Host).
Hypothesis host_passive : passive_host host.
Hypothesis host_returns : render_returns host.

Lemma visit_passive fuel i ke w :
  elementsDrawMap w !! i = Some ke -> length (callbacks ke.2) < fuel ->
  exists w', visit host fuel i w = Some (w', Normal) /\
    elementsDrawMap w' = <[i := drained_entry host ke]> (elementsDrawMap w) /\
    trace w' = trace w ++ entry_trace host (invalid w) ke /\
    same_schedule w w' /\ now w <= now w' /\
    (if invokes host ke then rafStopTime w' = Some (now w' + rafStopMaxTime)
     else rafStopTime w' = rafStopTime w).
Proof.
  destruct host_passive as [Hrender Hcb].
  destruct ke as [k e]. intros Hi Hlen. unfold visit. rewrite Hi.
  unfold drained_entry, entry_trace, invokes, resolved. cbn [fst snd].
  assert (Hskip : exists w', Some (w, Normal) = Some (w', Normal) /\
            elementsDrawMap w' = <[i := (k, e)]> (elementsDrawMap w) /\
            trace w' = trace w ++ [] /\ same_schedule w w' /\ now w <= now w' /\
            rafStopTime w' = rafStopTime w).
  { exists w. rewrite list_insert_id by done. rewrite app_nil_r.
    unfold same_schedule. done. }
  destruct (element_truthy k); [|exact Hskip].
  destruct (needsRedraw e); [|exact Hskip]. cbn [negb orb andb].
  destruct (getEnabledElement host k) as [ee|]; [|exact Hskip]. clear Hskip.
  set (flag := invalid (log (EvPreRender k ee) w) (oid ee)).
  rewrite run_script_passive by apply Hrender. rewrite host_returns.
  set (w3 := with_now _ _).
  assert (Hi3 : elementsDrawMap w3 !! i = Some (k, e)) by done.
  rewrite (map_update_at_insert i _ _ k e Hi3).
  set (w4 := with_elementsDrawMap _ w3).
  assert (Hi4 : elementsDrawMap w4 !! i = Some (k, with_needsRedraw false e)).
  { subst w4. cbn [elementsDrawMap with_elementsDrawMap].
    apply list_lookup_insert_eq. by apply lookup_lt_Some in Hi3. }
  rewrite Hi4. cbn [callbacks with_needsRedraw].
  destruct (0 <? set_size (callbacks e)) eqn:Hsz.
  - destruct fuel as [|fuel]; [lia|].
    rewrite (callbacks_forEach_passive host fuel i k (with_needsRedraw false e));
      [|intros f; apply Hcb|done|simpl in *; lia].
    cbn [callbacks with_needsRedraw]. rewrite drop_0.
    eexists. split; [done|].
    destruct (callbacks_run_frame host k ee (set_members (callbacks e)) w4)
      as (Hm & Ht & Hs & Hnow & Hr & Hp & Hc & Hreg & Hl & Hinv).
    unfold same_schedule. cbn [elementsDrawMap trace rafId pending raf_calls
      registered listeners invalid now rafStopTime with_rafStopTime].
    rewrite Hm, Ht, Hr, Hp, Hc, Hreg, Hl, Hinv.
    subst w4 w3. simpl. rewrite <- !app_assoc. simpl in *.
    repeat split; try done. lia.
  - eexists. split; [done|]. unfold same_schedule. subst w4 w3. simpl.
    assert (Hnil : set_members (callbacks e) = []).
    { apply Nat.ltb_ge in Hsz. unfold set_size in Hsz.
      destruct (set_members (callbacks e)); [done|simpl in Hsz; lia]. }
    rewrite Hnil. simpl. rewrite <- !app_assoc. simpl.
    repeat split; try done. lia.
Qed.

Lemma drained_entry_callbacks ke :
  callbacks (drained_entry host ke).2 = callbacks ke.2.
Proof. unfold drained_entry. by destruct (resolved host ke). Qed.

Lemma map_forEach_passive fuel_cb n index w :
  length (elementsDrawMap w) <= index + n ->
  Forall (fun ke => length (callbacks ke.2) < fuel_cb) (elementsDrawMap w) ->
  exists w', map_forEach host fuel_cb (S n) index w = Some (w', Normal) /\
    elementsDrawMap w' =
      take index (elementsDrawMap w) ++
      (drained_entry host <$> drop index (elementsDrawMap w)) /\
    trace w' =
      trace w ++ drain_trace host (invalid w) (drop index (elementsDrawMap w)) /\
    same_schedule w w' /\ now w <= now w' /\
    (if existsb (invokes host) (drop index (elementsDrawMap w))
     then exists t, now w <= t /\ t <= now w' /\
                    rafStopTime w' = Some (t + rafStopMaxTime)
     else rafStopTime w' = rafStopTime w).
Proof.
  assert (Hend : forall index w, length (elementsDrawMap w) <= index ->
    exists w', Some (w, Normal) = Some (w', Normal) /\
      elementsDrawMap w' =
        take index (elementsDrawMap w) ++
        (drained_entry host <$> drop index (elementsDrawMap w)) /\
      trace w' =
        trace w ++ drain_trace host (invalid w) (drop index (elementsDrawMap w)) /\
      same_schedule w w' /\ now w <= now w' /\
      (if existsb (invokes host) (drop index (elementsDrawMap w))
       then exists t, now w <= t /\ t <= now w' /\
                      rafStopTime w' = Some (t + rafStopMaxTime)
       else rafStopTime w' = rafStopTime w)).
  { intros index0 w0 Hge. exists w0.
    rewrite drop_ge, take_ge by done. unfold same_schedule, drain_trace.
    simpl. rewrite !app_nil_r. done. }
  revert index w. induction n as [|n IH]; intros index w Hlen Hcbs;
    rewrite map_forEach_S;
    destruct (elementsDrawMap w !! index) as [ke|] eqn:Hi;
    try (apply Hend; by apply lookup_ge_None_1).
  { apply lookup_lt_Some in Hi. lia. }
  destruct (visit_passive fuel_cb index ke w Hi)
    as (w1 & -> & Hm1 & Ht1 & Hs1 & Hn1 & Hd1).
  { by apply (Forall_lookup_1 _ _ _ _ Hcbs Hi). }
  destruct (IH (S index) w1) as (w' & -> & Hm & Ht & Hs & Hn & Hd).
  { rewrite Hm1, length_insert. lia. }
  { rewrite Hm1. apply Forall_insert; [done|].
    rewrite drained_entry_callbacks. by apply (Forall_lookup_1 _ _ _ _ Hcbs Hi). }
  assert (Hdrop : drop (S index) (elementsDrawMap w1)
                  = drop (S index) (elementsDrawMap w)).
  { rewrite Hm1. apply drop_insert_lt. lia. }
  assert (Htake : take (S index) (elementsDrawMap w1)
                  = take index (elementsDrawMap w) ++ [drained_entry host ke]).
  { rewrite Hm1. erewrite take_S_r.
    - by rewrite take_insert_ge.
    - apply list_lookup_insert_eq. by apply lookup_lt_Some in Hi. }
  rewrite Hdrop in Hm, Ht, Hd. rewrite Htake in Hm.
  destruct Hs1 as (Hr1 & Hp1 & Hc1 & Hreg1 & Hl1 & Hinv1).
  destruct Hs as (Hr & Hp & Hc & Hreg & Hl & Hinv).
  rewrite (drop_S _ _ _ Hi). exists w'. split; [done|].
  split; [by rewrite Hm, <- app_assoc|].
  split.
  { rewrite Ht, Ht1, Hinv1, <- app_assoc. unfold drain_trace.
    by rewrite bind_cons. }
  split; [unfold same_schedule; repeat split; congruence|].
  split; [lia|].
  cbn [existsb].
  destruct (existsb (invokes host) (drop (S index) (elementsDrawMap w))).
  - rewrite orb_true_r. destruct Hd as (t & Ht1' & Ht2' & Hst).
    exists t. repeat split; [lia|done|done].
  - rewrite orb_false_r. destruct (invokes host ke).
    + exists (now w1). rewrite Hd. done.
    + congruence.
Qed.

Lemma drain_fuel_enough (m : DrawMap) fuel :
  drain_fuel m <= fuel ->
  length m < fuel /\ Forall (fun ke => length (callbacks ke.2) < fuel) m.
Proof.
  unfold drain_fuel. generalize (length m) as n. intros n.
  revert fuel. induction m as [|ke m IH]; intros fuel; simpl.
  - intros H. split; [lia|constructor].
  - intros H. destruct (IH fuel) as [Hn Hall]; [lia|].
    split; [done|]. constructor; [lia|done].
Qed.

(** With passive collaborators and a render routine that returns, the tick
    runs to its end and does what the specification lists. *)
Lemma drain_passive fuel w :
  drain_fuel (elementsDrawMap w) <= fuel ->
  exists wd, drain host fuel w = Some (wd, Normal) /\
    elementsDrawMap wd = drained_entry host <$> elementsDrawMap w /\
    trace wd = trace w ++ drain_trace host (invalid w) (elementsDrawMap w) /\
    same_schedule w wd /\ now w <= now wd /\
    (if existsb (invokes host) (elementsDrawMap w)
     then exists t, now w <= t /\ t <= now wd /\
                    rafStopTime wd = Some (t + rafStopMaxTime)
     else rafStopTime wd = rafStopTime w).
Proof.
  intros Hfuel. destruct (drain_fuel_enough _ _ Hfuel) as [Hlen Hall].
  unfold drain. destruct fuel as [|n]; [lia|].
  destruct (map_forEach_passive (S n) n 0 w) as (wd & Hd & Hm & Ht & Hrest);
    [lia|done|].
  rewrite drop_0 in *. exists wd. done.
Qed.

Lemma step_passive fuel w :
  drain_fuel (elementsDrawMap w) <= fuel ->
  exists wd w', drain host fuel w = Some (wd, Normal) /\
    step host fuel w = Some (w', Normal) /\
    elementsDrawMap w' = drained_entry host <$> elementsDrawMap w /\
    trace w' = trace w ++ drain_trace host (invalid w) (elementsDrawMap w) /\
    invalid w' = invalid w /\ rafStopTime w' = rafStopTime wd.
Proof.
  intros Hfuel.
  destruct (drain_passive fuel w Hfuel) as (wd & Hd & Hm & Ht & Hs & _).
  destruct Hs as (_ & _ & _ & _ & _ & Hinv).
  exists wd. unfold step. rewrite Hd.
  destruct (keep_running wd); eexists; (split; [done|]); (split; [done|]).
  - done.
  - unfold stopRaf. by destruct (rafId wd) as [[|k]|].
Qed.

End PassiveTick.

(** ** Reading the trace of a tick *)

Lemma filter_none {A} (p : A -> bool) (l : list A) :
  (forall x, x ∈ l -> p x = false) -> List.filter p l = [].
Proof.
  induction l as [|x l IH]; intros H; simpl; [done|].
  rewrite H by left. apply IH. intros y Hy. apply H. by right.
Qed.

Lemma map_get_notin k (m : DrawMap) : k ∉ m.*1 -> map_get k m = None.
Proof.
  induction m as [|[k0 e] m IH]; csimpl; [done|].
  intros H. apply not_elem_of_cons in H as [Hne Hm].
  rewrite decide_False by done. by apply IH.
Qed.

Lemma map_get_elem_of k e (m : DrawMap) : map_get k m = Some e -> (k, e) ∈ m.
Proof.
  induction m as [|[k0 e0] m IH]; simpl; [done|].
  destruct (decide (k0 = k)) as [->|].
  - intros [= ->]. by left.
  - intros H. right. by apply IH.
Qed.

Lemma map_has_false_notin k (m : DrawMap) : map_has k m = false -> k ∉ m.*1.
Proof.
  unfold map_has. induction m as [|[k0 e] m IH]; csimpl.
  - intros _. apply not_elem_of_nil.
  - destruct (decide (k0 = k)); [done|]. intros H.
    apply not_elem_of_cons. split; [done|by apply IH].
Qed.

Lemma set_members_app s1 s2 : set_members (s1 ++ s2) = set_members s1 ++ set_members s2.
Proof. unfold set_members. apply omap_app. Qed.

Lemma set_has_members f s : set_has f s = true <-> f ∈ set_members s.
Proof.
  unfold set_members. induction s as [|e s IH]; csimpl.
  - split; [done|]. by intros ?%elem_of_nil.
  - destruct (decide (e = Some f)) as [->|Hne]; csimpl.
    + split; [|done]. intros _. by left.
    + rewrite IH. destruct e as [g|]; csimpl; [|done].
      rewrite elem_of_cons. split; [by right|].
      intros [->|H]; [done|done].
Qed.

Lemma set_add_members f s :
  set_members (set_add f s) =
  if set_has f s then set_members s else set_members s ++ [f].
Proof.
  unfold set_add. destruct (set_has f s); [done|]. by rewrite set_members_app.
Qed.

Lemma set_add_member f s : f ∈ set_members (set_add f s).
Proof. apply set_has_members, set_has_add. Qed.

Lemma set_add_NoDup f s :
  NoDup (set_members s) -> NoDup (set_members (set_add f s)).
Proof.
  intros Hs. rewrite set_add_members. destruct (set_has f s) eqn:Hf; [done|].
  apply NoDup_app. split; [done|]. split; [|apply NoDup_singleton].
  intros g Hg ->%list_elem_of_singleton.
  apply set_has_members in Hg. congruence.
Qed.

Lemma filter_eq_once (f : nat) (fs : list nat) :
  NoDup fs -> f ∈ fs -> List.filter (fun g => bool_decide (g = f)) fs = [f].
Proof.
  induction fs as [|g fs IH]; intros Hnd Hin; [by apply elem_of_nil in Hin|].
  apply NoDup_cons in Hnd as [Hg Hnd]. simpl.
  destruct (bool_decide_reflect (g = f)) as [->|Hne].
  - f_equal. apply filter_none. intros x Hx.
    apply bool_decide_eq_false. by intros ->.
  - apply elem_of_cons in Hin as [->|Hin]; [done|]. by apply IH.
Qed.

Lemma is_render_of_key el ev : is_render_of el ev = true -> event_key ev = el.
Proof. destruct ev; simpl; try done. by intros ?%bool_decide_eq_true. Qed.

Lemma is_call_of_key el f ev : is_call_of el f ev = true -> event_key ev = el.
Proof.
  destruct ev; simpl; try done.
  by intros [?%bool_decide_eq_true _]%andb_prop.
Qed.

Section TraceOfTick.
Context (host : Host) (inv : nat -> bool).

Lemma entry_trace_key ke ev : ev ∈ entry_trace host inv ke -> event_key ev = ke.1.
Proof.
  unfold entry_trace. destruct (resolved host ke) as [ee|];
    [|by intros ?%elem_of_nil].
  rewrite !elem_of_cons, list_elem_of_fmap.
  intros [->|[->|(f & -> & _)]]; done.
Qed.

(** What a test on the events of one element sees of a tick is what it sees
    of the visit of that element's entry. *)
Lemma filter_drain_trace (p : Event -> bool) el (m : DrawMap) :
  (forall ev, p ev = true -> event_key ev = el) -> NoDup m.*1 ->
  List.filter p (drain_trace host inv m) =
  match map_get el m with
  | Some e => List.filter p (entry_trace host inv (el, e))
  | None => []
  end.
Proof.
  intros Hp. unfold drain_trace.
  induction m as [|[k e] m IH]; csimpl; [done|].
  intros [Hk Hnd]%NoDup_cons. rewrite List.filter_app, IH by done.
  destruct (decide (k = el)) as [->|Hne].
  - rewrite map_get_notin by done. by rewrite app_nil_r.
  - rewrite (filter_none p (entry_trace host inv (k, e))); [done|].
    intros ev Hev. apply entry_trace_key in Hev.
    destruct (p ev) eqn:Hpe; [|done]. apply Hp in Hpe. simpl in Hev. congruence.
Qed.

Lemma renders_of_entry el e ee :
  resolved host (el, e) = Some ee ->
  List.filter (is_render_of el) (entry_trace host inv (el, e))
  = [EvRender el ee (inv (oid ee))].
Proof.
  intros Hres. unfold entry_trace. rewrite Hres. simpl.
  rewrite bool_decide_eq_true_2 by done. f_equal.
  apply filter_none. by intros ev (f & -> & _)%list_elem_of_fmap.
Qed.

Lemma calls_of_entry el e ee f :
  resolved host (el, e) = Some ee ->
  NoDup (set_members (callbacks e)) -> f ∈ set_members (callbacks e) ->
  List.filter (is_call_of el f) (entry_trace host inv (el, e))
  = [EvCallback el f ee].
Proof.
  intros Hres Hnd Hin. unfold entry_trace. rewrite Hres. simpl.
  generalize dependent (set_members (callbacks e)). intros fs Hnd Hin.
  transitivity ((fun g => EvCallback el g ee) <$>
                List.filter (fun g => bool_decide (g = f)) fs).
  - clear. induction fs as [|g fs IH]; csimpl; [done|].
    rewrite bool_decide_eq_true_2 by done. simpl.
    destruct (bool_decide (g = f)); csimpl; by rewrite IH.
  - by rewrite filter_eq_once.
Qed.

End TraceOfTick.

(** ** The table stays a map of sets *)

Lemma keys_ensure_NoDup k (m : DrawMap) :
  NoDup m.*1 -> NoDup (if map_has k m then m else map_set k fresh_entry m).*1.
Proof.
  intros Hnd. unfold map_set. destruct (map_has k m) eqn:Hk; [done|].
  rewrite fmap_app. apply NoDup_app. split; [done|].
  split; [|apply NoDup_singleton].
  intros x Hx ->%list_elem_of_singleton. by apply map_has_false_notin in Hk.
Qed.

Lemma Forall_map_update (P : Element * Entry -> Prop) k g (m : DrawMap) :
  (forall k' e, P (k', e) -> P (k', g e)) ->
  Forall P m -> Forall P (map_update k g m).
Proof.
  intros Hg. induction 1 as [|[k0 e] m Hx Hm IH]; simpl; [constructor|].
  destruct (decide (k0 = k)); constructor; auto.
Qed.

Lemma map_get_ensure k (m : DrawMap) :
  exists e, map_get k (if map_has k m then m else map_set k fresh_entry m) = Some e /\
            (map_get k m = Some e \/ map_get k m = None /\ e = fresh_entry).
Proof.
  unfold map_set, map_has. destruct (map_get k m) as [e|] eqn:Hk; [eauto|].
  exists fresh_entry. rewrite map_get_app_fresh, Hk, decide_True by done. eauto.
Qed.

Section WellFormed.
Context (host : Host).

Lemma addDrawCallback_map el f w :
  element_truthy el = true ->
  elementsDrawMap (addDrawCallback el f w) =
  map_update el (fun e => with_callbacks (set_add f (callbacks e)) e)
    (if map_has el (elementsDrawMap w) then elementsDrawMap w
     else map_set el fresh_entry (elementsDrawMap w)).
Proof.
  intros Hel. unfold addDrawCallback. rewrite Hel. simpl.
  by destruct (map_has el (elementsDrawMap w)).
Qed.

Lemma addDrawCallback_unique el f w :
  unique_keys w -> unique_members w ->
  unique_keys (addDrawCallback el f w) /\ unique_members (addDrawCallback el f w).
Proof.
  unfold unique_keys, unique_members, keys. intros Hk Hm.
  destruct (element_truthy el) eqn:Hel; [|by rewrite addDrawCallback_falsy].
  rewrite addDrawCallback_map by done. split.
  - rewrite keys_map_update. by apply keys_ensure_NoDup.
  - apply Forall_map_update.
    + intros k' e He. simpl in *. by apply set_add_NoDup.
    + unfold map_set. destruct (map_has el (elementsDrawMap w)); [done|].
      apply Forall_app. split; [done|]. repeat constructor.
Qed.

Lemma addDrawCallback_registered el f w :
  element_truthy el = true ->
  exists e, map_get el (elementsDrawMap (addDrawCallback el f w)) = Some e /\
            f ∈ set_members (callbacks e).
Proof.
  intros Hel. rewrite addDrawCallback_map by done.
  rewrite map_get_update, decide_True by done.
  destruct (map_get_ensure el (elementsDrawMap w)) as (e & -> & _).
  eexists. split; [done|]. simpl. apply set_add_member.
Qed.

Lemma drawImage_unique_keys a inv w :
  unique_keys w -> unique_keys (drawImage host a inv w).1.
Proof.
  unfold unique_keys, keys. intros Hk.
  destruct (drawImage_rejects a) as [[]|] eqn:Hrej.
  - rewrite drawImage_rejected by congruence. simpl.
    by rewrite registerVisibilityChange_map.
  - destruct a as [ee|]; [|done]. rewrite drawImage_accepted_map by done.
    rewrite keys_map_update. by apply keys_ensure_NoDup.
  - rewrite drawImage_rejected by congruence. simpl.
    by rewrite registerVisibilityChange_map.
Qed.

Lemma drawImage_accepted_dirty ee inv w :
  drawImage_rejects (Some ee) = Some false ->
  exists e, map_get (element ee) (elementsDrawMap (drawImage host (Some ee) inv w).1)
            = Some e /\ needsRedraw e = true.
Proof.
  intros Hacc. rewrite drawImage_accepted_map by done.
  rewrite map_get_update, decide_True by done.
  destruct (map_get_ensure (element ee) (elementsDrawMap w)) as (e & -> & _).
  by eexists.
Qed.

Lemma drawImage_accepted_invalid ee inv w o :
  drawImage_rejects (Some ee) = Some false ->
  invalid (drawImage host (Some ee) inv w).1 o =
  invalid w o || (inv && bool_decide (o = oid ee)).
Proof.
  intros Hacc. unfold drawImage. rewrite Hacc.
  destruct (registerVisibilityChange_frame host w) as (_&Hr&_&Hi&_).
  revert Hr Hi. generalize (registerVisibilityChange host w) as w1.
  intros w1 Hr Hi.
  destruct inv; simpl; destruct (map_has _ _); simpl;
    destruct (truthy (rafId w1)); simpl; rewrite ?Hi;
    try (by rewrite orb_false_r).
  all: case_decide; case_bool_decide; try done; by destruct (invalid w o).
Qed.

(** A window of calls for one enabled element. *)
Lemma drawImages_window ee invs w :
  drawImage_rejects (Some ee) = Some false -> unique_keys w -> invs <> [] ->
  let w1 := drawImages host ee invs w in
  unique_keys w1 /\
  invalid w1 (oid ee) = invalid w (oid ee) || existsb id invs /\
  exists e, map_get (element ee) (elementsDrawMap w1) = Some e /\
            needsRedraw e = true.
Proof.
  intros Hacc. unfold drawImages. revert w.
  induction invs as [|inv invs IH]; intros w Hk Hne; [done|]. cbn [foldl].
  pose proof (drawImage_unique_keys (Some ee) inv w Hk) as Hk1.
  pose proof (drawImage_accepted_invalid ee inv w (oid ee) Hacc) as Hi1.
  rewrite bool_decide_eq_true_2, andb_true_r in Hi1 by done.
  destruct invs as [|inv' invs].
  - cbn [foldl]. split; [done|]. split.
    + rewrite Hi1. simpl. by rewrite orb_false_r.
    + by apply drawImage_accepted_dirty.
  - destruct (IH (drawImage host (Some ee) inv w).1 Hk1) as (Hk2 & Hi2 & Hd2);
      [done|].
    split; [done|]. split; [|done].
    rewrite Hi2, Hi1. cbn [existsb]. unfold id at 2.
    by destruct (invalid w (oid ee)), inv, inv'.
Qed.

End WellFormed.

Lemma page_host_passive : passive_host page_host.
Proof.
  split; [done|]. intros f ee. unfold page_host. simpl.
  by destruct (decide (f = 7)).
Qed.

(** ** Callbacks *)

Section Isolation.
Context (host : Host).

Lemma run_actions_silenced l w :
  run_actions (without_callback_throws host) l w = run_actions host l w.
Proof.
  revert w. induction l as [|a l IH]; intros w; simpl; [done|].
  assert (Ha : run_action (without_callback_throws host) a w = run_action host a w)
    by (by destruct a).
  rewrite Ha. destruct (run_action host a w) as [w' []]; [apply IH|done].
Qed.

Lemma run_script_silenced s w :
  (run_script (without_callback_throws host) (silenced s) w).1
  = (run_script host s w).1.
Proof.
  unfold run_script. rewrite run_actions_silenced. simpl.
  by destruct (run_actions host (actions s) w) as [w' []].
Qed.

Lemma callbacks_forEach_silenced fuel i ee index w :
  callbacks_forEach (without_callback_throws host) fuel i ee index w
  = callbacks_forEach host fuel i ee index w.
Proof.
  revert index w. induction fuel as [|fuel IH]; intros index w; [done|].
  rewrite !callbacks_forEach_S.
  destruct (elementsDrawMap w !! i) as [[el entry]|]; [|done].
  destruct (callbacks entry !! index) as [[f|]|]; [|apply IH|done].
  change (callback_body (without_callback_throws host) f ee)
    with (silenced (callback_body host f ee)).
  rewrite run_script_silenced. apply IH.
Qed.

Lemma visit_silenced fuel i w :
  visit (without_callback_throws host) fuel i w = visit host fuel i w.
Proof.
  unfold visit. destruct (elementsDrawMap w !! i) as [[k e]|]; [|done].
  destruct (negb (element_truthy k) || negb (needsRedraw e)); [done|].
  change (getEnabledElement (without_callback_throws host) k)
    with (getEnabledElement host k).
  destruct (getEnabledElement host k) as [ee|]; [|done].
  set (s := drawImageSync (without_callback_throws host) ee _).
  assert (Hs : run_script (without_callback_throws host) s
                 (log (EvRender k ee (invalid (log (EvPreRender k ee) w) (oid ee)))
                    (log (EvPreRender k ee) w))
               = run_script host s
                   (log (EvRender k ee (invalid (log (EvPreRender k ee) w) (oid ee)))
                      (log (EvPreRender k ee) w))).
  { unfold run_script. by rewrite run_actions_silenced. }
  rewrite Hs. subst s.
  change (drawImageSync (without_callback_throws host)) with (drawImageSync host).
  destruct (run_script host _ _) as [w3 []]; [|done].
  destruct (_ !! i) as [[k4 e4]|]; [|done].
  destruct (0 <? set_size (callbacks e4)); [|done].
  by rewrite callbacks_forEach_silenced.
Qed.

(** An exception thrown by a callback changes nothing in the tick: the
    drain is the one of the host whose callbacks return instead. *)
Lemma drain_silenced fuel w :
  drain (without_callback_throws host) fuel w = drain host fuel w.
Proof.
  unfold drain. generalize fuel at 1 3 as fuel_cb. generalize 0 as index.
  revert w. induction fuel as [|fuel IH]; intros w index fuel_cb; [done|].
  rewrite !map_forEach_S. destruct (elementsDrawMap w !! index); [|done].
  rewrite visit_silenced.
  destruct (visit host fuel_cb index w) as [[w' []]|]; [apply IH|done|done].
Qed.

End Isolation.



(** ** Every reachable table is a map of sets *)

Lemma set_delete_members f s x :
  x ∈ set_members (set_delete f s) -> x ∈ set_members s.
Proof.
  unfold set_members. induction s as [|e s IH]; csimpl; [done|].
  destruct (decide (e = Some f)) as [->|Hne]; csimpl.
  - intros H. by right.
  - destruct e as [g|]; csimpl; [|done].
    rewrite !elem_of_cons. intros [->|H]; [by left|right; by apply IH].
Qed.

Lemma set_delete_NoDup f s :
  NoDup (set_members s) -> NoDup (set_members (set_delete f s)).
Proof.
  unfold set_members. induction s as [|e s IH]; csimpl; [done|].
  destruct (decide (e = Some f)) as [->|Hne]; csimpl.
  - by intros [_ H]%NoDup_cons.
  - destruct e as [g|]; csimpl; [|done].
    intros [Hg H]%NoDup_cons. apply NoDup_cons. split; [|by apply IH].
    intros Hin. by apply set_delete_members in Hin.
Qed.

Section Reachable.
Context (host : Host).

Lemma drawImage_unique_members a inv w :
  unique_members w -> unique_members (drawImage host a inv w).1.
Proof.
  unfold unique_members. intros Hm.
  destruct (drawImage_rejects a) as [[]|] eqn:Hrej.
  - rewrite drawImage_rejected by congruence. simpl.
    by rewrite registerVisibilityChange_map.
  - destruct a as [ee|]; [|done]. rewrite drawImage_accepted_map by done.
    apply Forall_map_update; [done|].
    unfold map_set. destruct (map_has _ _); [done|].
    apply Forall_app. split; [done|]. repeat constructor.
  - rewrite drawImage_rejected by congruence. simpl.
    by rewrite registerVisibilityChange_map.
Qed.

Lemma removeDrawCallback_unique_members el f w :
  unique_members w -> unique_members (removeDrawCallback el f w).
Proof.
  unfold unique_members, removeDrawCallback. intros Hm.
  destruct (element_truthy el); simpl; [|done].
  destruct (map_get el (elementsDrawMap w)); simpl; [|done].
  apply Forall_map_update; [|done].
  intros k' e' He. simpl in *. by apply set_delete_NoDup.
Qed.

Lemma run_action_map_of_sets a w :
  map_of_sets w -> map_of_sets (run_action host a w).1.
Proof.
  intros [Hk Hm]. destruct a as [a inv|el f|el f|dt|o b]; simpl; try done.
  - split; [by apply drawImage_unique_keys|by apply drawImage_unique_members].
  - by apply addDrawCallback_unique.
  - split; [|by apply removeDrawCallback_unique_members].
    unfold unique_keys. by rewrite removeDrawCallback_keys.
Qed.

Lemma drain_map_of_sets fuel w w' o :
  map_of_sets w -> drain host fuel w = Some (w', o) -> map_of_sets w'.
Proof.
  intros Hw Hd.
  apply (drain_inv host map_of_sets) in Hd; [by destruct Hd| | | | |done].
  - apply run_action_map_of_sets.
  - by intros ev w0 H _.
  - intros i k ee w0 [Hk Hm] _ _ _. split.
    + unfold unique_keys, keys in *. simpl. by rewrite keys_map_update_at.
    + unfold unique_members in *. simpl. unfold map_update_at.
      apply Forall_alter; [done|]. by intros [k0 e0] _ H.
  - by intros t w0 H.
Qed.

Lemma visibilitychange_map hidden w :
  elementsDrawMap (visibilitychange hidden w) = elementsDrawMap w.
Proof.
  unfold visibilitychange. generalize (listeners w) as l. intros l. revert w.
  induction l as [|p l IH]; intros w; cbn [foldl]; [done|]. rewrite IH.
  unfold visibility_listener, stopRaf.
  by destruct hidden, (rafId w) as [[|n]|].
Qed.

Lemma react_map_of_sets i w w' :
  map_of_sets w -> react host i w = Some w' -> map_of_sets w'.
Proof.
  intros Hw. destruct i as [a inv|el f|el f|hidden|fuel|dt]; simpl.
  - intros [= <-]. apply (run_action_map_of_sets (ADrawImage a inv) w Hw).
  - intros [= <-]. apply (run_action_map_of_sets (AAddDrawCallback el f) w Hw).
  - intros [= <-]. apply (run_action_map_of_sets (ARemoveDrawCallback el f) w Hw).
  - intros [= <-]. unfold map_of_sets, unique_keys, unique_members, keys in *.
    by rewrite visibilitychange_map.
  - unfold frame. destruct (pending w) as [|id rest]; simpl; [by intros [= <-]|].
    destruct (step host fuel (with_pending rest w)) as [[w1 o]|] eqn:Hs; [|done].
    simpl. intros [= <-].
    destruct (step_drain host fuel _ w1 o Hs) as (wd & Hd & Hm & _).
    apply (drain_map_of_sets fuel _ wd o) in Hd; [|done].
    unfold map_of_sets, unique_keys, unique_members, keys in *. by rewrite Hm.
  - by intros [= <-].
Qed.

(** Whatever the page and the browser do, the table never holds a key or a
    callback twice. *)
Lemma run_map_of_sets flags l w :
  run host l (initial flags) = Some w -> map_of_sets w.
Proof.
  assert (H0 : map_of_sets (initial flags)).
  { split; [apply NoDup_nil_2|constructor]. }
  revert H0. generalize (initial flags) as w0. intros w0. revert w0.
  induction l as [|i l IH]; intros w0 H0; simpl; [by intros [= <-]|].
  destruct (react host i w0) as [w1|] eqn:Hr; [|done].
  apply IH. by apply (react_map_of_sets i w0).
Qed.

End Reachable.

(** ** Dirty entries after a tick *)

Section TickClears.
Context (host : Host).

Lemma drained_clean (m : DrawMap) :
  Forall (fun ke : Element * Entry =>
            element_truthy ke.1 = true /\ is_Some (getEnabledElement host ke.1)) m ->
  has_dirty (drained_entry host <$> m) = false.
Proof.
  induction 1 as [|[k e] m [Hk [ee Hres]] Hm IH]; csimpl; [done|].
  rewrite IH, orb_false_r. unfold drained_entry, resolved. simpl in *.
  rewrite Hk, Hres. by destruct (needsRedraw e) eqn:He.
Qed.

Lemma step_clears fuel w :
  passive_host host -> render_returns host -> all_resolve host w ->
  drain_fuel (elementsDrawMap w) <= fuel ->
  exists w', step host fuel w = Some (w', Normal) /\ ~ dirty w'.
Proof.
  intros Hp Hr Hall Hfuel.
  destruct (step_passive host Hp Hr fuel w Hfuel) as (wd & w' & _ & Hs & Hm & _).
  exists w'. split; [done|]. unfold dirty. rewrite Hm, drained_clean by done.
  discriminate.
Qed.

End TickClears.

(** ** Coalescing *)

Section AtMostOnce.
Context (host : Host).

Lemma run_script_trace s w : trace (run_script host s w).1 = trace w.
Proof.
  apply (run_script_inv host (fun w' => trace w' = trace w)); [|done].
  intros a w' Hw'. by rewrite run_action_trace.
Qed.

Lemma callbacks_forEach_trace fuel i ee index w w' :
  callbacks_forEach host fuel i ee index w = Some w' ->
  exists t, trace w' = trace w ++ t /\
            forall k, List.filter (is_render_of k) t = [].
Proof.
  revert index w. induction fuel as [|fuel IH]; intros index w; [done|].
  rewrite callbacks_forEach_S.
  assert (Hnil : Some w = Some w' ->
            exists t, trace w' = trace w ++ t /\
                      forall k, List.filter (is_render_of k) t = []).
  { intros [= <-]. exists []. by rewrite app_nil_r. }
  destruct (elementsDrawMap w !! i) as [[el entry]|]; [|done].
  destruct (callbacks entry !! index) as [[f|]|]; [|apply IH|done].
  intros Hcb. destruct (IH _ _ Hcb) as (t & Ht & Hnone).
  rewrite run_script_trace in Ht. simpl in Ht.
  exists (EvCallback el f ee :: t). split.
  - by rewrite Ht, <- app_assoc.
  - intros k. simpl. apply Hnone.
Qed.

Lemma visit_map_of_sets fuel i w w' o :
  map_of_sets w -> visit host fuel i w = Some (w', o) ->
  map_of_sets w' /\ exists l, keys w' = keys w ++ l.
Proof.
  apply (visit_inv host map_of_sets).
  - apply run_action_map_of_sets.
  - by intros ev w0 H _.
  - intros j k ee w0 [Hk Hm] _ _ _. split.
    + unfold unique_keys, keys in *. simpl. by rewrite keys_map_update_at.
    + unfold unique_members in *. simpl. unfold map_update_at.
      apply Forall_alter; [done|]. by intros [k0 e0] _ H.
  - by intros t w0 H.
Qed.

(** One visit makes at most one render call, and only for the element of
    the entry it visits. *)
Lemma visit_renders fuel i w w' o :
  visit host fuel i w = Some (w', o) ->
  exists t, trace w' = trace w ++ t /\
    forall k, length (List.filter (is_render_of k) t) <= 1 /\
              (keys w !! i <> Some k -> List.filter (is_render_of k) t = []).
Proof.
  unfold visit.
  assert (Hnil : Some (w, Normal) = Some (w', o) ->
            exists t, trace w' = trace w ++ t /\
              forall k, length (List.filter (is_render_of k) t) <= 1 /\
                        (keys w !! i <> Some k ->
                         List.filter (is_render_of k) t = [])).
  { intros [= <- <-]. exists []. rewrite app_nil_r. split; [done|].
    intros k. simpl. split; [lia|done]. }
  destruct (elementsDrawMap w !! i) as [[el entry]|] eqn:Hi; [|done].
  destruct (negb (element_truthy el) || negb (needsRedraw entry)); [done|].
  destruct (getEnabledElement host el) as [ee|]; [|done]. clear Hnil.
  apply key_of_lookup in Hi.
  set (flag := invalid (log (EvPreRender el ee) w) (oid ee)).
  set (w2 := log (EvRender el ee flag) (log (EvPreRender el ee) w)).
  pose proof (run_script_trace (drawImageSync host ee flag) w2) as Ht3.
  destruct (run_script host (drawImageSync host ee flag) w2) as [w3 o3].
  simpl in Ht3.
  assert (Hone : forall t, (forall k, List.filter (is_render_of k) t = []) ->
            forall k,
              length (List.filter (is_render_of k)
                        (EvPreRender el ee :: EvRender el ee flag :: t)) <= 1 /\
              (keys w !! i <> Some k ->
               List.filter (is_render_of k)
                 (EvPreRender el ee :: EvRender el ee flag :: t) = [])).
  { intros t Hnone k. simpl. rewrite Hnone.
    destruct (bool_decide_reflect (el = k)) as [->|Hne]; simpl.
    - split; [lia|]. by rewrite Hi.
    - split; [lia|done]. }
  assert (Hno_cb : exists t, trace w3 = trace w ++ t /\
            forall k, length (List.filter (is_render_of k) t) <= 1 /\
                      (keys w !! i <> Some k -> List.filter (is_render_of k) t = [])).
  { exists [EvPreRender el ee; EvRender el ee flag]. split.
    - rewrite Ht3. subst w2. simpl. by rewrite <- app_assoc.
    - by apply Hone. }
  destruct o3; [|by intros [= <- <-]].
  set (w4 := with_elementsDrawMap _ w3).
  destruct (elementsDrawMap w4 !! i) as [[k4 e4]|]; [|by intros [= <- <-]].
  destruct (0 <? set_size (callbacks e4)); [|by intros [= <- <-]].
  destruct (callbacks_forEach host fuel i ee 0 w4) as [w5|] eqn:Hcb; [|done].
  intros [= <- <-].
  destruct (callbacks_forEach_trace _ _ _ _ _ _ Hcb) as (t & Ht & Hnone).
  exists (EvPreRender el ee :: EvRender el ee flag :: t). split.
  - simpl. rewrite Ht. subst w4. simpl. rewrite Ht3. subst w2. simpl.
    by rewrite <- !app_assoc.
  - by apply Hone.
Qed.

Lemma map_forEach_renders fuel_cb fuel index w w' o :
  map_of_sets w -> map_forEach host fuel_cb fuel index w = Some (w', o) ->
  exists t, trace w' = trace w ++ t /\
    forall k, length (List.filter (is_render_of k) t) <= 1 /\
              (forall j, j < index -> keys w !! j = Some k ->
                         List.filter (is_render_of k) t = []).
Proof.
  revert index w. induction fuel as [|fuel IH]; intros index w Hw; [done|].
  rewrite map_forEach_S.
  assert (Hnil : forall w0, trace w0 = trace w ->
            exists t, trace w0 = trace w ++ t /\
              forall k, length (List.filter (is_render_of k) t) <= 1 /\
                        (forall j, j < index -> keys w !! j = Some k ->
                                   List.filter (is_render_of k) t = [])).
  { intros w0 H0. exists []. rewrite app_nil_r. split; [done|].
    intros k. simpl. split; [lia|done]. }
  destruct (elementsDrawMap w !! index) as [ke|] eqn:Hi;
    [|intros [= <- <-]; by apply Hnil].
  destruct (visit host fuel_cb index w) as [[w1 o1]|] eqn:Hv; [|done].
  destruct (visit_renders _ _ _ _ _ Hv) as (tv & Htv & Hv1).
  destruct (visit_map_of_sets _ _ _ _ _ Hw Hv) as [Hw1 [l1 Hl1]].
  assert (Hkeys : forall j k, j < index -> keys w !! j = Some k ->
            List.filter (is_render_of k) tv = []).
  { intros j k Hj Hjk. apply Hv1. intros Hik.
    destruct Hw as [Hnd _]. unfold unique_keys in Hnd.
    pose proof (NoDup_lookup _ _ _ _ Hnd Hjk Hik). lia. }
  destruct o1.
  - intros Hrest. destruct (IH _ _ Hw1 Hrest) as (t2 & Ht2 & H2).
    exists (tv ++ t2). split; [by rewrite Ht2, Htv, app_assoc|].
    intros k. rewrite List.filter_app, length_app.
    destruct (decide (keys w !! index = Some k)) as [Hik|Hik].
    + assert (Hk2 : List.filter (is_render_of k) t2 = []).
      { apply (proj2 (H2 k) index); [lia|].
        rewrite Hl1. by apply lookup_app_l_Some. }
      rewrite Hk2, app_nil_r. simpl. split.
      * pose proof (proj1 (Hv1 k)). lia.
      * intros j Hj Hjk. destruct Hw as [Hnd _]. unfold unique_keys in Hnd.
        pose proof (NoDup_lookup _ _ _ _ Hnd Hjk Hik). lia.
    + rewrite (proj2 (Hv1 k) Hik). simpl. split; [apply H2|].
      intros j Hj Hjk. apply (proj2 (H2 k) j); [lia|].
      rewrite Hl1. by apply lookup_app_l_Some.
  - intros [= <- <-]. exists tv. split; [done|]. intros k.
    split; [apply Hv1|]. intros j Hj Hjk. by apply (Hkeys j).
Qed.

Lemma step_renders_at_most_once fuel w w' o :
  map_of_sets w -> step host fuel w = Some (w', o) ->
  exists t, trace w' = trace w ++ t /\
            forall k, length (List.filter (is_render_of k) t) <= 1.
Proof.
  intros Hw Hs. destruct (step_drain host fuel w w' o Hs) as (wd & Hd & _ & Ht & _).
  destruct (map_forEach_renders _ _ _ _ _ _ Hw Hd) as (t & Htd & H).
  exists t. split; [congruence|]. intros k. apply H.
Qed.

End AtMostOnce.

(** C1, as stated, fails.  The flag handed to the render routine is the
    [invalid] property of the enabled element, which the module sets and
    never clears.  When that property is already set as the window opens, a
    window whose only call passes [false] is rendered with [true]; and with
    a render routine that leaves the property alone, so is a window that
    follows one in which [true] was passed. *)
Lemma stale_invalid_flag_is_passed :
  trace <$> run page_host [InDrawImage (Some ee1) false; InFrame 2]
              (initial (fun o => bool_decide (o = 0)))
  = Some [EvPreRender (ElNode 1) ee1; EvRender (ElNode 1) ee1 true] /\
  trace <$> run page_host
              [InDrawImage (Some ee1) true; InFrame 2;
               InDrawImage (Some ee1) false; InFrame 2]
              (initial all_clear)
  = Some [EvPreRender (ElNode 1) ee1; EvRender (ElNode 1) ee1 true;
          EvPreRender (ElNode 1) ee1; EvRender (ElNode 1) ee1 true].
Proof. split; vm_compute; reflexivity. Qed.

(** C1, amended.  Whatever the collaborators do, a tick calls the render
    routine at most once for each element of the table.  After any
    non-empty sequence of accepted [drawImage] calls for one enabled
    element, whose element is a node that resolves to it, the next [step]
    (with collaborators that do not call back and a render routine that
    returns) runs to its end and calls the render routine for that element
    exactly once; the flag it passes is the element's [invalid] property:
    true iff the property was already set when the window opened or one of
    the calls passed [true]. *)
Theorem coalesced_redraw (host : Host) :
  (forall fuel w w' o,
     map_of_sets w -> step host fuel w = Some (w', o) ->
     exists t, trace w' = trace w ++ t /\
               forall k, length (List.filter (is_render_of k) t) <= 1) /\
  (forall ee invs w fuel,
     passive_host host -> render_returns host -> unique_keys w ->
     drawImage_rejects (Some ee) = Some false ->
     element_truthy (element ee) = true ->
     getEnabledElement host (element ee) = Some ee ->
     invs <> [] ->
     let w1 := drawImages host ee invs w in
     drain_fuel (elementsDrawMap w1) <= fuel ->
     exists w2 t,
       step host fuel w1 = Some (w2, Normal) /\ trace w2 = trace w1 ++ t /\
       List.filter (is_render_of (element ee)) t =
         [EvRender (element ee) ee (invalid w (oid ee) || existsb id invs)]).
Proof.
  split; [apply step_renders_at_most_once|].
  intros ee invs w fuel Hp Hr Hk Hacc Hel Hres Hne w1 Hfuel.
  destruct (drawImages_window host ee invs w Hacc Hk Hne)
    as (Hk1 & Hi1 & e & He & Hd).
  fold w1 in Hk1, Hi1, He.
  destruct (step_passive host Hp Hr fuel w1 Hfuel)
    as (wd & w2 & _ & Hs & _ & Ht & _).
  exists w2, (drain_trace host (invalid w1) (elementsDrawMap w1)).
  split; [done|]. split; [done|].
  rewrite (filter_drain_trace host (invalid w1) (is_render_of (element ee))
             (element ee)); [|apply is_render_of_key|done].
  rewrite He. rewrite (renders_of_entry host (invalid w1) (element ee) e ee).
  - by rewrite Hi1.
  - unfold resolved. simpl. by rewrite Hel, Hd.
Qed.

Lemma coalesced_redraw_witness :
  exists w2 t,
    step page_host 2 (drawImages page_host ee1 [false; true] (initial all_clear))
    = Some (w2, Normal) /\
    trace w2 =
      trace (drawImages page_host ee1 [false; true] (initial all_clear)) ++ t /\
    List.filter (is_render_of (ElNode 1)) t = [EvRender (ElNode 1) ee1 true].
Proof.
  apply (proj2 (coalesced_redraw page_host) ee1 [false; true] (initial all_clear) 2).
  - exact page_host_passive.
  - intros ee b. reflexivity.
  - apply NoDup_nil_2.
  - reflexivity.
  - reflexivity.
  - reflexivity.
  - discriminate.
  - vm_compute. lia.
Defined.

(** * Further properties of the module *)

(** ** One request at a time *)

Section SingleRequest.
Context (host : Host).

Lemma stopRaf_single w :
  single_request w -> pending (stopRaf w) = [] /\ rafId (stopRaf w) = None.
Proof.
  unfold stopRaf. intros [Hp|(n & Hr & Hp)].
  - destruct (rafId w) as [[|m]|]; simpl; rewrite ?Hp; done.
  - rewrite Hr. cbn [pending rafId with_rafId cancelAnimationFrame with_pending].
    rewrite Hp, filter_cons_False by (intros H; by apply H). done.
Qed.

Lemma visibility_listener_single hidden w :
  single_request w -> single_request (visibility_listener hidden w).
Proof.
  intros Hw. destruct (stopRaf_single w Hw) as [Hp Hr].
  unfold visibility_listener. revert Hp Hr. generalize (stopRaf w) as w1.
  intros w1 Hp Hr. destruct hidden; [by left|].
  right. exists (raf_calls w1). simpl. by rewrite Hp.
Qed.

Lemma step_single fuel w w' o :
  truthy (rafId w) = true -> pending w = [] ->
  step host fuel w = Some (w', o) -> single_request w'.
Proof.
  intros Ht Hp. unfold step.
  destruct (drain host fuel w) as [[wd od]|] eqn:Hd; [|done].
  destruct (drain_keeps_request host fuel w wd od Ht Hd) as (Hr & Hc & Hpd).
  rewrite Hp in Hpd. destruct od.
  - destruct (keep_running wd); intros [= <- <-].
    + right. exists (raf_calls wd). simpl. by rewrite Hpd.
    + left. unfold stopRaf. destruct (rafId wd) as [[|m]|]; simpl; by rewrite Hpd.
  - intros [= <- <-]. by left.
Qed.

Lemma react_single i w w' :
  single_request w -> react host i w = Some w' -> single_request w'.
Proof.
  intros Hw. destruct i as [a inv|el f|el f|hidden|fuel|dt]; simpl.
  - intros [= <-]. destruct (drawImage_rejects a) as [[]|] eqn:Hrej.
    + rewrite drawImage_rejected by congruence. simpl. unfold single_request.
      destruct (registerVisibilityChange_frame host w) as (_&->&_&_&->&_). done.
    + destruct a as [ee|]; [|done].
      destruct (drawImage_accepted_request host ee inv w Hrej) as [_ H].
      unfold single_request. destruct (truthy (rafId w)) eqn:Ht.
      * destruct H as (-> & _ & ->). done.
      * destruct H as (-> & _ & ->). right. exists (raf_calls w).
        destruct Hw as [->|(n & Hr & _)]; [done|]. by rewrite Hr in Ht.
    + rewrite drawImage_rejected by congruence. simpl. unfold single_request.
      destruct (registerVisibilityChange_frame host w) as (_&->&_&_&->&_). done.
  - intros [= <-]. unfold single_request.
    destruct (addDrawCallback_schedule el f w) as (_ & -> & _ & -> & _). done.
  - intros [= <-]. unfold single_request.
    destruct (removeDrawCallback_schedule el f w) as (_ & -> & _ & -> & _). done.
  - intros [= <-]. unfold visibilitychange. generalize (listeners w) as l.
    intros l. revert w Hw. induction l as [|p l IH]; intros w Hw; cbn [foldl];
      [done|]. apply IH. by apply visibility_listener_single.
  - unfold frame. destruct (pending w) as [|id rest] eqn:Hp; simpl.
    + intros [= <-]. by left.
    + destruct Hw as [Hnil|(n & Hr & Hone)]; [congruence|].
      rewrite Hp in Hone. injection Hone as -> ->.
      destruct (step host fuel (with_pending [] w)) as [[w1 o]|] eqn:Hs; [|done].
      simpl. intros [= <-]. apply (step_single fuel (with_pending [] w) w1 o);
        [by simpl; rewrite Hr|done|done].
  - intros [= <-]. done.
Qed.

Lemma run_single l w w' :
  single_request w -> run host l w = Some w' -> single_request w'.
Proof.
  revert w. induction l as [|i l IH]; intros w Hw; simpl; [by intros [= <-]|].
  destruct (react host i w) as [w1|] eqn:Hr; [|done].
  apply IH. by apply (react_single i w).
Qed.

End SingleRequest.

(** X1.  Whatever the page, the callbacks and the browser do, in every
    state reached from the initial one at most one animation-frame request
    is outstanding, and when there is one [rafId] holds its handle. *)
Theorem one_request_at_a_time (host : Host) (flags : nat -> bool)
    (l : list Input) (w : World) :
  run host l (initial flags) = Some w -> single_request w.
Proof. apply run_single. by left. Qed.

Lemma one_request_at_a_time_witness :
  exists w,
    run redrawing_host
      [InAddDrawCallback (ElNode 1) 7; InDrawImage (Some ee1) false; InFrame 3;
       InDrawImage (Some ee1) true; InVisibility true; InVisibility false]
      (initial all_clear) = Some w /\ single_request w.
Proof.
  eexists. split; [vm_compute; reflexivity|].
  apply (one_request_at_a_time redrawing_host all_clear
           [InAddDrawCallback (ElNode 1) 7; InDrawImage (Some ee1) false; InFrame 3;
            InDrawImage (Some ee1) true; InVisibility true; InVisibility false]).
  vm_compute. reflexivity.
Defined.

(** ** The visibility listener is installed once *)

Section ListenerOnce.
Context (host : Host).

Lemma registerVisibilityChange_once w :
  listener_once w -> listener_once (registerVisibilityChange host w).
Proof.
  unfold listener_once, registerVisibilityChange. intros [Hlen Hreg].
  destruct (registered w) eqn:Hr.
  - split; [done|]. by rewrite Hr.
  - destruct (hidden_property host); simpl; rewrite (Hreg eq_refl); simpl;
      (split; [lia|done]).
Qed.

Lemma drawImage_registration a inv w :
  listeners (drawImage host a inv w).1 = listeners (registerVisibilityChange host w) /\
  registered (drawImage host a inv w).1 = registered (registerVisibilityChange host w).
Proof.
  unfold drawImage. generalize (registerVisibilityChange host w) as w1. intros w1.
  destruct a as [ee|]; [|done].
  destruct (drawImage_rejects (Some ee)) as [[]|]; simpl; try done.
  destruct inv; simpl; destruct (map_has _ _); simpl;
    destruct (truthy (rafId w1)); simpl; done.
Qed.

Lemma run_action_once a w : listener_once w -> listener_once (run_action host a w).1.
Proof.
  intros Hw. destruct a as [a inv|el f|el f|dt|o b]; simpl; try done.
  - unfold listener_once.
    destruct (drawImage_registration a inv w) as [-> ->].
    by apply registerVisibilityChange_once.
  - unfold addDrawCallback. destruct (element_truthy el); simpl; [|done].
    by destruct (map_has _ _).
  - unfold removeDrawCallback. destruct (element_truthy el); simpl; [|done].
    by destruct (map_get _ _).
Qed.

Lemma visibilitychange_registration hidden w :
  listeners (visibilitychange hidden w) = listeners w /\
  registered (visibilitychange hidden w) = registered w.
Proof.
  unfold visibilitychange. generalize (listeners w) at 1 3 as l. intros l.
  revert w. induction l as [|p l IH]; intros w; cbn [foldl]; [done|].
  destruct (IH (visibility_listener hidden w)) as [-> ->].
  unfold visibility_listener, stopRaf.
  by destruct hidden, (rafId w) as [[|n]|].
Qed.

Lemma react_once i w w' :
  listener_once w -> react host i w = Some w' -> listener_once w'.
Proof.
  intros Hw. destruct i as [a inv|el f|el f|hidden|fuel|dt]; simpl.
  - intros [= <-]. apply (run_action_once (ADrawImage a inv) w Hw).
  - intros [= <-]. apply (run_action_once (AAddDrawCallback el f) w Hw).
  - intros [= <-]. apply (run_action_once (ARemoveDrawCallback el f) w Hw).
  - intros [= <-]. unfold listener_once.
    by destruct (visibilitychange_registration hidden w) as [-> ->].
  - unfold frame. destruct (pending w) as [|id rest]; simpl; [by intros [= <-]|].
    destruct (step host fuel (with_pending rest w)) as [[w1 o]|] eqn:Hs; [|done].
    simpl. intros [= <-].
    destruct (step_drain host fuel _ w1 o Hs) as (wd & Hd & _ & _ & _ & _ & _ & Hr & Hl).
    apply (drain_inv host listener_once) in Hd.
    + destruct Hd as [Hd _]. unfold listener_once in *. by rewrite Hr, Hl.
    + apply run_action_once.
    + by intros ev w0 H _.
    + by intros j k ee w0 H _ _ _.
    + by intros t w0 H.
    + done.
  - by intros [= <-].
Qed.

Lemma run_once l w w' :
  listener_once w -> run host l w = Some w' -> listener_once w'.
Proof.
  revert w. induction l as [|i l IH]; intros w Hw; simpl; [by intros [= <-]|].
  destruct (react host i w) as [w1|] eqn:Hr; [|done].
  apply IH. by apply (react_once i w).
Qed.

End ListenerOnce.

(** X2.  In every state reached from the initial one the module has
    installed at most one visibility listener, and none as long as
    [registerVisibilityChange] has not run: calling [drawImage] again, also
    from inside a callback, never installs a second one. *)
Theorem visibility_listener_installed_once (host : Host) (flags : nat -> bool)
    (l : list Input) (w : World) :
  run host l (initial flags) = Some w ->
  length (listeners w) <= 1 /\ (registered w = false -> listeners w = []).
Proof. apply run_once. split; [simpl; lia|done]. Qed.

Lemma visibility_listener_installed_once_witness :
  exists w,
    run redrawing_host
      [InDrawImage None false; InAddDrawCallback (ElNode 1) 7;
       InDrawImage (Some ee1) false; InFrame 3; InDrawImage (Some ee1) true]
      (initial all_clear) = Some w /\
    length (listeners w) <= 1 /\ (registered w = false -> listeners w = []).
Proof.
  eexists. split; [vm_compute; reflexivity|].
  apply (visibility_listener_installed_once redrawing_host all_clear
           [InDrawImage None false; InAddDrawCallback (ElNode 1) 7;
            InDrawImage (Some ee1) false; InFrame 3; InDrawImage (Some ee1) true]).
  vm_compute. reflexivity.
Defined.

(** ** Hiding and showing the page *)

Lemma stopRaf_frame w :
  elementsDrawMap (stopRaf w) = elementsDrawMap w /\
  rafStopTime (stopRaf w) = rafStopTime w /\ raf_calls (stopRaf w) = raf_calls w /\
  now (stopRaf w) = now w /\ trace (stopRaf w) = trace w /\
  invalid (stopRaf w) = invalid w.
Proof. unfold stopRaf. by destruct (rafId w) as [[|n]|]. Qed.

Lemma visibility_listener_effect hidden w :
  single_request w ->
  let w' := visibility_listener hidden w in
  elementsDrawMap w' = elementsDrawMap w /\ trace w' = trace w /\
  invalid w' = invalid w /\
  if hidden
  then rafId w' = None /\ pending w' = [] /\ raf_calls w' = raf_calls w /\
       rafStopTime w' = rafStopTime w
  else rafId w' = Some (S (raf_calls w)) /\ pending w' = [S (raf_calls w)] /\
       raf_calls w' = S (raf_calls w) /\
       rafStopTime w' = Some (now w + rafStopMaxTime).
Proof.
  intros Hw. destruct (stopRaf_single w Hw) as [Hp Hr].
  destruct (stopRaf_frame w) as (Hm & Hs & Hc & Hn & Ht & Hi).
  unfold visibility_listener. revert Hp Hr Hm Hs Hc Hn Ht Hi.
  generalize (stopRaf w) as w1. intros w1 Hp Hr Hm Hs Hc Hn Ht Hi.
  destruct hidden; simpl; rewrite ?Hp, ?Hc, ?Hn; done.
Qed.

(** X3.  With the listener installed, a change to hidden cancels the
    outstanding request and clears [rafId] whatever is dirty, and leaves the
    table, the deadline and the [invalid] flags alone; a change to visible,
    after it or directly, arms exactly one request (cancelling the one that
    was outstanding) and puts the deadline 100 ms ahead of the clock, so
    that what was marked dirty meanwhile is drawn at the next tick.
    Without a listener a visibility change does nothing. *)
Theorem hide_and_show (p : HiddenProperty) (w : World) :
  single_request w -> listeners w = [p] ->
  let wh := visibilitychange true w in
  let ws := visibilitychange false wh in
  let wv := visibilitychange false w in
  (rafId wh = None /\ pending wh = [] /\ raf_calls wh = raf_calls w /\
   rafStopTime wh = rafStopTime w /\ elementsDrawMap wh = elementsDrawMap w /\
   invalid wh = invalid w) /\
  (rafId ws = Some (S (raf_calls w)) /\ pending ws = [S (raf_calls w)] /\
   rafStopTime ws = Some (now w + 100) /\ elementsDrawMap ws = elementsDrawMap w) /\
  (rafId wv = Some (S (raf_calls w)) /\ pending wv = [S (raf_calls w)] /\
   rafStopTime wv = Some (now w + 100) /\ elementsDrawMap wv = elementsDrawMap w) /\
  (forall hidden w0, listeners w0 = [] -> visibilitychange hidden w0 = w0).
Proof.
  intros Hw Hl wh ws wv.
  assert (Hone : forall hidden w0, listeners w0 = [p] ->
            visibilitychange hidden w0 = visibility_listener hidden w0).
  { intros hidden w0 H0. unfold visibilitychange. by rewrite H0. }
  assert (Hlh : listeners wh = [p]).
  { subst wh. by destruct (visibilitychange_registration true w) as [-> _]. }
  subst ws wv. rewrite (Hone false wh Hlh). subst wh. rewrite !(Hone _ w Hl).
  destruct (visibility_listener_effect true w Hw) as (Hm & _ & Hi & Hr & Hp & Hc & Hs).
  pose proof (visibility_listener_single true w Hw) as Hwh.
  destruct (visibility_listener_effect false _ Hwh) as (Hm2 & _ & _ & Hr2 & Hp2 & _ & Hs2).
  destruct (visibility_listener_effect false w Hw) as (Hm3 & _ & _ & Hr3 & Hp3 & _ & Hs3).
  assert (Hnow : now (visibility_listener true w) = now w).
  { unfold visibility_listener. apply stopRaf_frame. }
  rewrite Hc, Hnow in *. rewrite Hm in Hm2.
  repeat split; try done.
  intros hidden w0 H0. unfold visibilitychange. by rewrite H0.
Qed.

Lemma hide_and_show_witness :
  let w := (drawImage page_host (Some ee1) false (initial all_clear)).1 in
  single_request w /\ listeners w = [PropHidden] /\
  rafId (visibilitychange true w) = None /\
  pending (visibilitychange false (visibilitychange true w)) = [2].
Proof.
  intros w.
  assert (Hw : single_request w) by (right; exists 0; split; reflexivity).
  assert (Hl : listeners w = [PropHidden]) by reflexivity.
  destruct (hide_and_show PropHidden w Hw Hl) as ((Hr & _) & (_ & Hp & _) & _).
  split; [exact Hw|]. split; [exact Hl|]. split; [exact Hr|exact Hp].
Defined.

(** ** The table only grows *)

Section Growth.
Context (host : Host).

Lemma react_keys i w w' :
  react host i w = Some w' -> exists l, keys w' = keys w ++ l.
Proof.
  assert (Hsame : forall w0, keys w0 = keys w -> exists l, keys w0 = keys w ++ l).
  { intros w0 ->. exists []. by rewrite app_nil_r. }
  destruct i as [a inv|el f|el f|hidden|fuel|dt]; simpl.
  - intros [= <-]. apply drawImage_keys.
  - intros [= <-]. apply addDrawCallback_keys.
  - intros [= <-]. apply Hsame, removeDrawCallback_keys.
  - intros [= <-]. apply Hsame. unfold keys. by rewrite visibilitychange_map.
  - unfold frame. destruct (pending w) as [|id rest]; simpl;
      [intros [= <-]; by apply Hsame|].
    destruct (step host fuel (with_pending rest w)) as [[w1 o]|] eqn:Hs; [|done].
    simpl. intros [= <-].
    destruct (step_drain host fuel _ w1 o Hs) as (wd & Hd & Hm & _).
    apply (drain_inv host (fun _ => True)) in Hd; try done.
    destruct Hd as [_ [l Hl]]. exists l. unfold keys in *. by rewrite Hm, Hl.
  - intros [= <-]. by apply Hsame.
Qed.

Lemma run_keys l w w' :
  run host l w = Some w' -> exists l', keys w' = keys w ++ l'.
Proof.
  revert w. induction l as [|i l IH]; intros w; simpl.
  - intros [= <-]. exists []. by rewrite app_nil_r.
  - destruct (react host i w) as [w1|] eqn:Hr; [|done]. intros Hrun.
    destruct (react_keys i w w1 Hr) as [l1 Hl1].
    destruct (IH w1 Hrun) as [l2 Hl2].
    exists (l1 ++ l2). by rewrite Hl2, Hl1, app_assoc.
Qed.

End Growth.

(** X4.  The table never forgets an element: whatever happens between two
    states, calls, ticks, visibility changes, callbacks that call back, the
    elements of the earlier table are still there, in the same positions,
    and new ones are only appended. *)
Theorem table_only_grows (host : Host) (l : list Input) (w w' : World) :
  run host l w = Some w' ->
  exists l', keys w' = keys w ++ l'.
Proof. apply run_keys. Qed.

Lemma table_only_grows_witness :
  exists l',
    keys (removeDrawCallback (ElNode 2) 9 (visibilitychange true two_dirty))
    = keys two_dirty ++ l'.
Proof.
  apply (table_only_grows page_host
           [InVisibility true; InRemoveDrawCallback (ElNode 2) 9] two_dirty).
  reflexivity.
Defined.

(** ** Elements that are not nodes *)

Section Detached.
Context (host : Host).

Lemma visit_falsy fuel i k e w :
  elementsDrawMap w !! i = Some (k, e) -> element_truthy k = false ->
  visit host fuel i w = Some (w, Normal).
Proof. intros Hi Hk. unfold visit. by rewrite Hi, Hk. Qed.

Lemma drain_falsy fuel i k e w w' o :
  elementsDrawMap w !! i = Some (k, e) -> needsRedraw e = true ->
  element_truthy k = false -> drain host fuel w = Some (w', o) ->
  exists e', elementsDrawMap w' !! i = Some (k, e') /\ needsRedraw e' = true.
Proof.
  intros Hi He Hk Hd.
  apply (drain_inv host (fun w0 =>
           exists e', elementsDrawMap w0 !! i = Some (k, e') /\ needsRedraw e' = true))
    in Hd; [by destruct Hd| | | | |eauto].
  - intros a w0 (e0 & Hi0 & He0).
    by apply (run_action_entry host (fun e1 => needsRedraw e1 = true) a w0 i k e0).
  - by intros ev w0 H _.
  - intros j kj ee w0 (e0 & Hi0 & He0) Hkj Htj _. simpl.
    destruct (decide (j = i)) as [->|Hne].
    + apply key_of_lookup in Hi0. congruence.
    + exists e0. split; [|done]. unfold map_update_at.
      by rewrite list_lookup_alter_ne.
  - by intros t w0 H.
Qed.

End Detached.

(** X5.  [drawImage] does not look at [enabledElement.element]: an enabled
    element with a canvas and an image whose element is [null] or
    [undefined] is accepted, gets a dirty entry under that key and a live
    request.  No tick ever draws it: the visit of such an entry does nothing
    and the entry is still dirty when the tick is over; and
    [addDrawCallback] refuses the same key. *)
Theorem detached_element_never_drawn (host : Host) (ee : EnabledElement)
    (inv : bool) (w0 : World) :
  drawImage_rejects (Some ee) = Some false ->
  element_truthy (element ee) = false ->
  let w := (drawImage host (Some ee) inv w0).1 in
  (exists e, map_get (element ee) (elementsDrawMap w) = Some e /\
             needsRedraw e = true) /\
  truthy (rafId w) = true /\
  (forall f w1, addDrawCallback (element ee) f w1 = w1) /\
  (forall fuel i e w1,
     elementsDrawMap w1 !! i = Some (element ee, e) -> needsRedraw e = true ->
     visit host fuel i w1 = Some (w1, Normal) /\
     forall w' o,
       step host fuel w1 = Some (w', o) ->
       exists e', elementsDrawMap w' !! i = Some (element ee, e') /\
                  needsRedraw e' = true).
Proof.
  intros Hacc Hel w. split; [by apply drawImage_accepted_dirty|]. split.
  - destruct (drawImage_accepted_request host ee inv w0 Hacc) as [_ H].
    subst w. destruct (truthy (rafId w0)) eqn:Ht.
    + destruct H as [-> _]. done.
    + destruct H as [-> _]. done.
  - split; [intros f w1; by apply addDrawCallback_falsy|].
    intros fuel i e w1 Hi He. split; [by apply (visit_falsy host fuel i (element ee) e)|].
    intros w' o Hs.
    destruct (step_drain host fuel w1 w' o Hs) as (wd & Hd & Hm & _).
    rewrite Hm. by apply (drain_falsy host fuel i (element ee) e w1 wd o).
Qed.

Lemma detached_element_never_drawn_witness :
  let w := (drawImage page_host (Some detached) true (initial all_clear)).1 in
  truthy (rafId w) = true /\
  visit page_host 2 0 w = Some (w, Normal).
Proof.
  intros w.
  destruct (detached_element_never_drawn page_host detached true (initial all_clear)
              eq_refl eq_refl) as (_ & Ht & _ & Hv).
  split; [exact Ht|].
  exact (proj1 (Hv 2 0 {| needsRedraw := true; callbacks := [] |} w
                  eq_refl eq_refl)).
Defined.

(** ** What registration changes *)

Lemma map_get_ensure_other k k' (m : DrawMap) :
  k <> k' ->
  map_get k' (if map_has k m then m else map_set k fresh_entry m) = map_get k' m.
Proof.
  intros Hne. unfold map_set. destruct (map_has k m); [done|].
  rewrite map_get_app_fresh. destruct (map_get k' m); [done|].
  by rewrite decide_False.
Qed.

Lemma filter_all {A} (p : A -> bool) (l : list A) :
  (forall x, x ∈ l -> p x = true) -> List.filter p l = l.
Proof.
  induction l as [|x l IH]; intros H; simpl; [done|].
  rewrite H by left. f_equal. apply IH. intros y Hy. apply H. by right.
Qed.

Lemma set_delete_members_filter f s :
  NoDup (set_members s) ->
  set_members (set_delete f s)
  = List.filter (fun g => negb (bool_decide (g = f))) (set_members s).
Proof.
  unfold set_members. induction s as [|e s IH]; csimpl; [done|].
  destruct (decide (e = Some f)) as [->|Hne]; csimpl.
  - intros [Hf _]%NoDup_cons. rewrite bool_decide_eq_true_2 by done. simpl.
    symmetry. apply filter_all. intros g Hg.
    apply negb_true_iff, bool_decide_eq_false. by intros ->.
  - destruct e as [g|]; csimpl; [|done].
    intros [_ Hnd]%NoDup_cons.
    rewrite bool_decide_eq_false_2 by congruence. simpl. by rewrite IH.
Qed.

Lemma calls_of_entry_absent host inv el e f :
  f ∉ set_members (callbacks e) ->
  List.filter (is_call_of el f) (entry_trace host inv (el, e)) = [].
Proof.
  intros Hf. unfold entry_trace. destruct (resolved host (el, e)) as [ee|]; [|done].
  simpl. apply filter_none. intros ev (g & -> & Hg)%list_elem_of_fmap. simpl.
  apply andb_false_intro2, bool_decide_eq_false. by intros ->.
Qed.

(** X6.  [addDrawCallback] for a node creates the entry if there is none
    (not dirty, no other callback), appends the callback at the end of the
    element's invocation order unless it is already a member, in which case
    the order is unchanged; it leaves the dirty flag of the element, the
    entries of all other elements, the request, the deadline and the trace
    as they are: registering a callback never schedules a tick. *)
Theorem addDrawCallback_effect (el : Element) (f : nat) (w : World) :
  element_truthy el = true ->
  let w' := addDrawCallback el f w in
  (exists e',
     map_get el (elementsDrawMap w') = Some e' /\
     set_members (callbacks e') =
       match map_get el (elementsDrawMap w) with
       | Some e => if set_has f (callbacks e) then set_members (callbacks e)
                   else set_members (callbacks e) ++ [f]
       | None => [f]
       end /\
     needsRedraw e' =
       match map_get el (elementsDrawMap w) with
       | Some e => needsRedraw e
       | None => false
       end) /\
  (forall k, k <> el ->
     map_get k (elementsDrawMap w') = map_get k (elementsDrawMap w)) /\
  rafId w' = rafId w /\ rafStopTime w' = rafStopTime w /\
  pending w' = pending w /\ raf_calls w' = raf_calls w /\ trace w' = trace w.
Proof.
  intros Hel w'. subst w'. split; [|split].
  - rewrite addDrawCallback_map by done.
    rewrite map_get_update, decide_True by done.
    destruct (map_get_ensure el (elementsDrawMap w)) as (e & -> & [He|[He ->]]);
      rewrite He; eexists; (split; [done|]); simpl.
    + by rewrite set_add_members.
    + done.
  - intros k Hk. rewrite addDrawCallback_map by done.
    rewrite map_get_update, decide_False by done.
    by apply map_get_ensure_other.
  - unfold addDrawCallback. rewrite Hel. simpl.
    by destruct (map_has el (elementsDrawMap w)).
Qed.

Lemma addDrawCallback_effect_witness :
  exists e',
    map_get (ElNode 1) (elementsDrawMap (addDrawCallback (ElNode 1) 5 two_dirty))
    = Some e' /\
    set_members (callbacks e') = [7; 8; 5].
Proof.
  destruct (addDrawCallback_effect (ElNode 1) 5 two_dirty eq_refl)
    as ((e' & He & Hm & _) & _).
  exists e'. split; [exact He|]. rewrite Hm. vm_compute. reflexivity.
Defined.

Lemma removeDrawCallback_changes (el : Element) (f : nat) (w : World) :
  unique_members w ->
  let w' := removeDrawCallback el f w in
  (forall k e,
     map_get k (elementsDrawMap w) = Some e ->
     exists e',
       map_get k (elementsDrawMap w') = Some e' /\
       needsRedraw e' = needsRedraw e /\
       set_members (callbacks e') =
         if bool_decide (k = el) && element_truthy el
         then List.filter (fun g => negb (bool_decide (g = f)))
                (set_members (callbacks e))
         else set_members (callbacks e)) /\
  keys w' = keys w /\
  rafId w' = rafId w /\ rafStopTime w' = rafStopTime w /\
  pending w' = pending w /\ raf_calls w' = raf_calls w /\ trace w' = trace w.
Proof.
  intros Hu w'. subst w'. split; [|split; [apply removeDrawCallback_keys|]].
  - intros k e He. unfold removeDrawCallback.
    destruct (element_truthy el); simpl;
      [|exists e; by rewrite andb_false_r].
    destruct (map_get el (elementsDrawMap w)) as [e0|] eqn:He0; simpl.
    + rewrite map_get_update. destruct (decide (el = k)) as [->|Hne].
      * rewrite He. simpl. eexists. split; [done|]. split; [done|]. simpl.
        rewrite bool_decide_eq_true_2 by done. simpl.
        apply set_delete_members_filter.
        unfold unique_members in Hu. rewrite Forall_forall in Hu.
        apply (Hu (k, e)). by apply map_get_elem_of.
      * exists e. rewrite bool_decide_eq_false_2 by congruence. done.
    + exists e. destruct (bool_decide_reflect (k = el)) as [->|]; [congruence|done].
  - unfold removeDrawCallback. destruct (element_truthy el); simpl; [|done].
    by destruct (map_get el (elementsDrawMap w)).
Qed.


(** X7.  [removeDrawCallback] takes the callback out of the element's set
    and keeps the order of the others; it leaves the dirty flags, the sets
    of all other elements, the elements of the table, the request, the
    deadline and the trace as they are.  (The callback sets hold no member
    twice, as in every reachable state.) *)
Theorem removeDrawCallback_effect (el : Element) (f : nat) (w : World) :
  unique_members w ->
  let w' := removeDrawCallback el f w in
  (forall k e,
     map_get k (elementsDrawMap w) = Some e ->
     exists e',
       map_get k (elementsDrawMap w') = Some e' /\
       needsRedraw e' = needsRedraw e /\
       set_members (callbacks e') =
         if bool_decide (k = el) && element_truthy el
         then List.filter (fun g => negb (bool_decide (g = f)))
                (set_members (callbacks e))
         else set_members (callbacks e)) /\
  keys w' = keys w /\
  rafId w' = rafId w /\ rafStopTime w' = rafStopTime w /\
  pending w' = pending w /\ raf_calls w' = raf_calls w /\ trace w' = trace w.
Proof. apply removeDrawCallback_changes. Qed.

Lemma removeDrawCallback_effect_witness :
  exists e',
    map_get (ElNode 1) (elementsDrawMap (removeDrawCallback (ElNode 1) 7 two_dirty))
    = Some e' /\
    needsRedraw e' = true /\ set_members (callbacks e') = [8].
Proof.
  assert (Hu : unique_members two_dirty).
  { unfold unique_members. vm_compute. repeat constructor.
    - intros H. apply list_elem_of_singleton in H. discriminate.
    - intros H. by apply elem_of_nil in H.
    - intros H. by apply elem_of_nil in H. }
  destruct (proj1 (removeDrawCallback_effect (ElNode 1) 7 two_dirty Hu) (ElNode 1)
              {| needsRedraw := true; callbacks := [Some 7; Some 8] |} eq_refl)
    as (e' & He & Hn & Hm).
  exists e'. split; [exact He|]. split; [exact Hn|]. rewrite Hm. reflexivity.
Defined.

(** X8.  After [removeDrawCallback] the callback is not invoked for that
    element in the next tick, whatever was registered and whatever is dirty
    (collaborators that do not call back into the module, render routine
    that returns, a table that holds no key and no callback twice). *)
Theorem removed_callback_not_invoked (host : Host) (el : Element) (f : nat)
    (w : World) (fuel : nat) :
  passive_host host -> render_returns host ->
  unique_keys w -> unique_members w ->
  let w1 := removeDrawCallback el f w in
  drain_fuel (elementsDrawMap w1) <= fuel ->
  exists w2 t,
    step host fuel w1 = Some (w2, Normal) /\ trace w2 = trace w1 ++ t /\
    List.filter (is_call_of el f) t = [].
Proof.
  intros Hp Hr Hk Hu w1 Hfuel.
  destruct (step_passive host Hp Hr fuel w1 Hfuel)
    as (wd & w2 & _ & Hs & _ & Ht & _).
  exists w2, (drain_trace host (invalid w1) (elementsDrawMap w1)).
  split; [done|]. split; [done|].
  destruct (removeDrawCallback_changes el f w Hu) as (Heff & Hkeys & _).
  fold w1 in Heff, Hkeys.
  rewrite (filter_drain_trace host (invalid w1) (is_call_of el f) el);
    [|apply is_call_of_key|unfold unique_keys, keys in *; by rewrite Hkeys].
  destruct (map_get el (elementsDrawMap w1)) as [e1|] eqn:He1; [|done].
  destruct (element_truthy el) eqn:Hel.
  - destruct (map_get el (elementsDrawMap w)) as [e|] eqn:He.
    + destruct (Heff el e He) as (e' & He' & _ & Hm).
      rewrite He1 in He'. injection He' as <-.
      rewrite bool_decide_eq_true_2 in Hm by done. simpl in Hm.
      apply calls_of_entry_absent. rewrite Hm.
      intros Hin%list_elem_of_In%List.filter_In. destruct Hin as [_ Hin].
      by rewrite bool_decide_eq_true_2 in Hin.
    + subst w1. rewrite removeDrawCallback_unknown_element in He1 by done.
      congruence.
  - unfold entry_trace, resolved. simpl. by rewrite Hel.
Qed.

Lemma removed_callback_not_invoked_witness :
  exists w2 t,
    step page_host 3 (removeDrawCallback (ElNode 1) 8 two_dirty) = Some (w2, Normal) /\
    trace w2 = trace (removeDrawCallback (ElNode 1) 8 two_dirty) ++ t /\
    List.filter (is_call_of (ElNode 1) 8) t = [].
Proof.
  apply (removed_callback_not_invoked page_host (ElNode 1) 8 two_dirty 3).
  - exact page_host_passive.
  - intros ee b. reflexivity.
  - unfold unique_keys. vm_compute. apply NoDup_cons_2.
    + intros H. apply list_elem_of_singleton in H. discriminate.
    + apply NoDup_singleton.
  - unfold unique_members. vm_compute. repeat constructor.
    + intros H. apply list_elem_of_singleton in H. discriminate.
    + intros H. by apply elem_of_nil in H.
    + intros H. by apply elem_of_nil in H.
  - vm_compute. lia.
Defined.

(** ** Ticks that find nothing to draw *)

(** X9.  A tick that finds no entry dirty calls no collaborator and changes
    neither the table, the deadline nor the [invalid] flags, whatever the
    host: it only arms the next request when the deadline is still ahead
    (the loop keeps polling during the idle window) and clears [rafId]
    otherwise. *)
Theorem idle_tick_touches_nothing (host : Host) (fuel : nat) (w : World) :
  ~ dirty w -> length (elementsDrawMap w) < fuel ->
  exists w',
    step host fuel w = Some (w', Normal) /\
    w' = (if keep_running w then arm w else stopRaf w) /\
    trace w' = trace w /\ elementsDrawMap w' = elementsDrawMap w /\
    rafStopTime w' = rafStopTime w /\ invalid w' = invalid w /\
    (deadline_ahead w -> rafId w' = Some (S (raf_calls w)) /\
                         raf_calls w' = S (raf_calls w)) /\
    (~ deadline_ahead w -> rafId w' = None /\ raf_calls w' = raf_calls w).
Proof.
  intros Hd Hlen. unfold step, drain. destruct fuel as [|fuel]; [lia|].
  rewrite map_forEach_clean; [|by apply not_true_is_false|lia].
  pose proof (keep_running_ahead w) as Hka. unfold arm.
  destruct (keep_running w); eexists; (split; [reflexivity|]); simpl.
  - split; [done|]. split; [done|]. split; [done|]. split; [done|].
    split; [done|]. split; [done|]. intros Hn. destruct Hn. by apply Hka.
  - destruct (stopRaf_frame w) as (Hm & Hs & Hc & _ & Ht & Hi).
    split; [done|]. split; [done|]. split; [done|]. split; [done|].
    split; [done|]. split.
    + intros Ha. apply Hka in Ha. discriminate.
    + intros _. split; [|done]. unfold stopRaf. by destruct (rafId w) as [[|n]|].
Qed.

Lemma idle_tick_touches_nothing_witness :
  exists w',
    step page_host 2 idle_world = Some (w', Normal) /\
    w' = (if keep_running idle_world then arm idle_world else stopRaf idle_world).
Proof.
  assert (Hd : ~ dirty idle_world) by (intros H; vm_compute in H; discriminate).
  assert (Hlen : length (elementsDrawMap idle_world) < 2) by (simpl; lia).
  destruct (idle_tick_touches_nothing page_host 2 idle_world Hd Hlen)
    as (w' & Hs & Hw & _).
  exists w'. split; [exact Hs|exact Hw].
Defined.

(** ** What a tick draws and what it leaves *)

Lemma event_of_key k ev : event_of k ev = true -> event_key ev = k.
Proof. unfold event_of. by intros ?%bool_decide_eq_true. Qed.

Lemma map_get_drained host k (m : DrawMap) :
  map_get k (drained_entry host <$> m)
  = (fun e => (drained_entry host (k, e)).2) <$> map_get k m.
Proof.
  induction m as [|[k0 e] m IH]; csimpl; [done|].
  assert (Hk : (drained_entry host (k0, e)).1 = k0).
  { unfold drained_entry. by destruct (resolved host (k0, e)). }
  destruct (drained_entry host (k0, e)) as [k1 e1] eqn:Hd. simpl in Hk. subst k1.
  destruct (decide (k0 = k)) as [->|]; [|done]. simpl. by rewrite Hd.
Qed.

Lemma keys_drained host (m : DrawMap) : (drained_entry host <$> m).*1 = m.*1.
Proof.
  induction m as [|[k0 e] m IH]; csimpl; [done|]. rewrite IH. f_equal.
  unfold drained_entry. by destruct (resolved host (k0, e)).
Qed.

(** X10.  With collaborators that do not call back and a render routine
    that returns, a tick asks nothing of any collaborator for an element
    that is unknown, not dirty, not a node or does not resolve; afterwards
    the table has the same elements with the same callback sets, and the
    dirty flag is cleared exactly for the entries that were drawn. *)
Theorem tick_draws_only_dirty (host : Host) (fuel : nat) (w : World) :
  passive_host host -> render_returns host -> unique_keys w ->
  drain_fuel (elementsDrawMap w) <= fuel ->
  exists w' t,
    step host fuel w = Some (w', Normal) /\ trace w' = trace w ++ t /\
    (forall k,
       match map_get k (elementsDrawMap w) with
       | Some e => resolved host (k, e) = None
       | None => True
       end -> List.filter (event_of k) t = []) /\
    (forall k e,
       map_get k (elementsDrawMap w) = Some e ->
       exists e',
         map_get k (elementsDrawMap w') = Some e' /\
         callbacks e' = callbacks e /\
         needsRedraw e' =
           match resolved host (k, e) with
           | Some _ => false
           | None => needsRedraw e
           end) /\
    keys w' = keys w.
Proof.
  intros Hp Hr Hk Hfuel.
  destruct (step_passive host Hp Hr fuel w Hfuel)
    as (wd & w' & _ & Hs & Hm & Ht & _).
  exists w', (drain_trace host (invalid w) (elementsDrawMap w)).
  split; [done|]. split; [done|]. split; [|split].
  - intros k Hnone.
    rewrite (filter_drain_trace host (invalid w) (event_of k) k);
      [|apply event_of_key|done].
    destruct (map_get k (elementsDrawMap w)) as [e|]; [|done].
    unfold entry_trace. by rewrite Hnone.
  - intros k e He. rewrite Hm, map_get_drained, He. simpl.
    unfold drained_entry. destruct (resolved host (k, e)); eexists; done.
  - unfold keys. by rewrite Hm, keys_drained.
Qed.

Lemma tick_draws_only_dirty_witness :
  exists w' t,
    step page_host 3 (removeDrawCallback (ElNode 1) 7 idle_world) = Some (w', Normal) /\
    trace w' = trace (removeDrawCallback (ElNode 1) 7 idle_world) ++ t /\
    List.filter (event_of (ElNode 1)) t = [].
Proof.
  destruct (tick_draws_only_dirty page_host 3
              (removeDrawCallback (ElNode 1) 7 idle_world) page_host_passive)
    as (w' & t & Hs & Ht & Hnone & _).
  - intros ee b. reflexivity.
  - unfold unique_keys. vm_compute. apply NoDup_singleton.
  - vm_compute. lia.
  - exists w', t. split; [exact Hs|]. split; [exact Ht|].
    apply Hnone. vm_compute. reflexivity.
Defined.

(** ** The contexts handed to the collaborators *)

Section Contexts.
Context (host : Host).

Lemma visibilitychange_trace hidden w : trace (visibilitychange hidden w) = trace w.
Proof.
  unfold visibilitychange. generalize (listeners w) as l. intros l. revert w.
  induction l as [|p l IH]; intros w; cbn [foldl]; [done|]. rewrite IH.
  unfold visibility_listener, stopRaf.
  by destruct hidden, (rafId w) as [[|n]|].
Qed.

Lemma react_contexts i w w' :
  react host i w = Some w' ->
  exists t, trace w' = trace w ++ t /\ Forall (event_ok host) t.
Proof.
  assert (Hsame : forall w0, trace w0 = trace w ->
            exists t, trace w0 = trace w ++ t /\ Forall (event_ok host) t).
  { intros w0 ->. exists []. by rewrite app_nil_r. }
  destruct i as [a inv|el f|el f|hidden|fuel|dt]; simpl.
  - intros [= <-]. apply Hsame, (run_action_trace host (ADrawImage a inv)).
  - intros [= <-]. apply Hsame, (run_action_trace host (AAddDrawCallback el f)).
  - intros [= <-]. apply Hsame, (run_action_trace host (ARemoveDrawCallback el f)).
  - intros [= <-]. apply Hsame, visibilitychange_trace.
  - unfold frame. destruct (pending w) as [|id rest]; simpl;
      [intros [= <-]; by apply Hsame|].
    destruct (step host fuel (with_pending rest w)) as [[w1 o]|] eqn:Hs; [|done].
    simpl. intros [= <-].
    destruct (step_drain host fuel _ w1 o Hs) as (wd & Hd & _ & Ht & _).
    rewrite Ht.
    apply (drain_inv host (fun w0 =>
             exists t, trace w0 = trace w ++ t /\ Forall (event_ok host) t))
      in Hd; [by destruct Hd| | | | |by apply Hsame].
    + intros a w0 H. by rewrite run_action_trace.
    + intros ev w0 (t & Ht0 & Hok) Hev. exists (t ++ [ev]). simpl.
      rewrite Ht0, app_assoc. split; [done|].
      apply Forall_app. split; [done|]. by constructor.
    + by intros j k ee w0 H _ _ _.
    + by intros t w0 H.
  - intros [= <-]. by apply Hsame.
Qed.

Lemma run_contexts l w w' :
  run host l w = Some w' ->
  exists t, trace w' = trace w ++ t /\ Forall (event_ok host) t.
Proof.
  revert w. induction l as [|i l IH]; intros w; simpl.
  - intros [= <-]. exists []. by rewrite app_nil_r.
  - destruct (react host i w) as [w1|] eqn:Hr; [|done]. intros Hrun.
    destruct (react_contexts i w w1 Hr) as (t1 & Ht1 & Hok1).
    destruct (IH w1 Hrun) as (t2 & Ht2 & Hok2).
    exists (t1 ++ t2). rewrite Ht2, Ht1, app_assoc. split; [done|].
    by apply Forall_app.
Qed.

End Contexts.

(** X11.  Whatever the page does, every pre-render notification, render
    call and callback invocation of the module is made with the context
    that [getEnabledElement] returns for the element of the entry being
    processed: the object that was handed to [drawImage] only serves to
    find the element. *)
Theorem collaborators_get_resolved_context (host : Host) (l : list Input)
    (w w' : World) :
  run host l w = Some w' ->
  exists t, trace w' = trace w ++ t /\
    forall ev, ev ∈ t -> getEnabledElement host (event_key ev) =
      Some match ev with
           | EvPreRender _ ee | EvRender _ ee _ | EvCallback _ _ ee => ee
           end.
Proof.
  intros Hrun. destruct (run_contexts host l w w' Hrun) as (t & Ht & Hok).
  exists t. split; [done|]. intros ev Hev. rewrite Forall_forall in Hok.
  specialize (Hok ev Hev). by destruct ev.
Qed.

Lemma collaborators_get_resolved_context_witness :
  exists w' t,
    run page_host [InFrame 3] two_dirty = Some w' /\
    trace w' = trace two_dirty ++ t /\
    forall ev, ev ∈ t -> getEnabledElement page_host (event_key ev) =
      Some match ev with
           | EvPreRender _ ee | EvRender _ ee _ | EvCallback _ _ ee => ee
           end.
Proof.
  destruct (run page_host [InFrame 3] two_dirty) as [w'|] eqn:Hrun.
  - destruct (collaborators_get_resolved_context page_host [InFrame 3] two_dirty w'
                Hrun) as (t & Ht & Hok).
    exists w', t. split; [reflexivity|]. split; [exact Ht|exact Hok].
  - vm_compute in Hrun. discriminate.
Defined.

(** ** Asking again *)

Lemma with_needsRedraw_same e : needsRedraw e = true -> with_needsRedraw true e = e.
Proof. destruct e. simpl. by intros ->. Qed.

(** X12.  Once its element is dirty and a request is live, a further
    accepted [drawImage] for the same enabled element only moves the
    deadline to 100 ms after the clock and, when asked to invalidate, sets
    the [invalid] flag: the table, [rafId], the outstanding requests and
    the listener are exactly as before, however often it is called. *)
Theorem redraw_of_dirty_element (host : Host) (ee : EnabledElement) (inv : bool)
    (e : Entry) (w : World) :
  drawImage_rejects (Some ee) = Some false ->
  registered w = true ->
  map_get (element ee) (elementsDrawMap w) = Some e -> needsRedraw e = true ->
  truthy (rafId w) = true ->
  drawImage host (Some ee) inv w =
  (with_rafStopTime (Some (now w + 100))
     (if inv then set_invalid (oid ee) true w else w), Normal).
Proof.
  intros Hacc Hreg He Hd Ht. unfold drawImage. rewrite Hacc.
  unfold registerVisibilityChange. rewrite Hreg.
  assert (Hhas : map_has (element ee) (elementsDrawMap w) = true)
    by (unfold map_has; by rewrite He).
  assert (Hupd : map_update (element ee) (with_needsRedraw true) (elementsDrawMap w)
                 = elementsDrawMap w).
  { apply map_update_id. intros e0 He0. rewrite He in He0. injection He0 as <-.
    by apply with_needsRedraw_same. }
  destruct inv; simpl; rewrite Hhas; simpl; rewrite Hupd, Ht; reflexivity.
Qed.

Lemma redraw_of_dirty_element_witness :
  drawImage page_host (Some ee1) false two_dirty =
  (with_rafStopTime (Some (now two_dirty + 100)) two_dirty, Normal).
Proof.
  apply (redraw_of_dirty_element page_host ee1 false
           {| needsRedraw := true; callbacks := [Some 7; Some 8] |} two_dirty);
    reflexivity.
Defined.

(** ** The deadline and the clock *)

Section DeadlineBound.
Context (host : Host).

Lemma run_action_now a w : now w <= now (run_action host a w).1.
Proof.
  destruct a as [a inv|el f|el f|dt|o b]; simpl; try done.
  - unfold drawImage.
    destruct (registerVisibilityChange_frame host w) as (_&_&_&_&_&_&Hn&_).
    revert Hn. generalize (registerVisibilityChange host w) as w1. intros w1 Hn.
    destruct a as [ee|]; [|simpl; lia].
    destruct (drawImage_rejects (Some ee)) as [[]|]; simpl; try lia.
    destruct inv; simpl; destruct (map_has _ _); simpl;
      destruct (truthy (rafId w1)); simpl; lia.
  - unfold addDrawCallback. destruct (element_truthy el); simpl; [|done].
    by destruct (map_has _ _).
  - unfold removeDrawCallback. destruct (element_truthy el); simpl; [|done].
    by destruct (map_get _ _).
  - lia.
Qed.

Lemma drawImage_deadline a inv w :
  deadline_bounded w -> deadline_bounded (drawImage host a inv w).1.
Proof.
  unfold deadline_bounded. intros Hw.
  destruct (drawImage_rejects a) as [[]|] eqn:Hrej.
  - rewrite drawImage_rejected by congruence. simpl.
    destruct (registerVisibilityChange_frame host w) as (_&_&->&_&_&_&->&_). done.
  - destruct a as [ee|]; [|done].
    destruct (drawImage_accepted_request host ee inv w Hrej) as [-> _].
    intros t [= <-]. pose proof (run_action_now (ADrawImage (Some ee) inv) w) as Hn.
    cbn [run_action] in Hn. lia.
  - rewrite drawImage_rejected by congruence. simpl.
    destruct (registerVisibilityChange_frame host w) as (_&_&->&_&_&_&->&_). done.
Qed.

Lemma run_action_deadline a w :
  deadline_bounded w -> deadline_bounded (run_action host a w).1.
Proof.
  intros Hw. destruct a as [a inv|el f|el f|dt|o b]; simpl; try done.
  - by apply drawImage_deadline.
  - unfold deadline_bounded, addDrawCallback in *.
    destruct (element_truthy el); simpl; [|done]. by destruct (map_has _ _).
  - unfold deadline_bounded, removeDrawCallback in *.
    destruct (element_truthy el); simpl; [|done]. by destruct (map_get _ _).
  - unfold deadline_bounded in *. simpl. intros t Ht. specialize (Hw t Ht). lia.
Qed.

Lemma callbacks_forEach_deadline fuel i ee index w w' :
  deadline_bounded w -> callbacks_forEach host fuel i ee index w = Some w' ->
  deadline_bounded w'.
Proof.
  revert index w. induction fuel as [|fuel IH]; intros index w Hw; [done|].
  rewrite callbacks_forEach_S.
  destruct (elementsDrawMap w !! i) as [[el entry]|]; [|by intros [= <-]].
  destruct (callbacks entry !! index) as [[f|]|]; [|by apply IH|by intros [= <-]].
  apply IH. by apply (run_script_inv host deadline_bounded run_action_deadline).
Qed.

Lemma visit_deadline fuel i w w' o :
  deadline_bounded w -> visit host fuel i w = Some (w', o) -> deadline_bounded w'.
Proof.
  intros Hw. unfold visit.
  destruct (elementsDrawMap w !! i) as [[k e]|]; [|by intros [= <- <-]].
  destruct (negb (element_truthy k) || negb (needsRedraw e)); [by intros [= <- <-]|].
  destruct (getEnabledElement host k) as [ee|]; [|by intros [= <- <-]].
  set (w2 := log _ (log _ w)).
  assert (Hw2 : deadline_bounded w2) by done.
  pose proof (run_script_inv host deadline_bounded run_action_deadline
                (drawImageSync host ee (invalid (log (EvPreRender k ee) w) (oid ee)))
                w2 Hw2) as Hw3.
  destruct (run_script host _ w2) as [w3 []]; simpl in Hw3; [|by intros [= <- <-]].
  set (w4 := with_elementsDrawMap _ w3).
  assert (Hw4 : deadline_bounded w4) by done.
  destruct (elementsDrawMap w4 !! i) as [[k4 e4]|]; [|by intros [= <- <-]].
  destruct (0 <? set_size (callbacks e4)); [|by intros [= <- <-]].
  destruct (callbacks_forEach host fuel i ee 0 w4) as [w5|]; [|done].
  intros [= <- <-]. unfold deadline_bounded. simpl. intros t [= <-]. done.
Qed.

Lemma step_deadline fuel w w' o :
  deadline_bounded w -> step host fuel w = Some (w', o) -> deadline_bounded w'.
Proof.
  intros Hw Hs.
  destruct (step_drain host fuel w w' o Hs) as (wd & Hd & _ & _ & _ & Hn & Ht & _).
  assert (Hwd : deadline_bounded wd).
  { clear Hs Hn Ht. unfold drain in Hd. revert Hd. generalize fuel at 1 as fuel_cb.
    generalize 0 as index. revert w Hw.
    induction fuel as [|fuel IH]; intros w Hw index fuel_cb; [done|].
    rewrite map_forEach_S.
    destruct (elementsDrawMap w !! index); [|by intros [= <- <-]].
    destruct (visit host fuel_cb index w) as [[w1 o1]|] eqn:Hv; [|done].
    pose proof (visit_deadline _ _ _ _ _ Hw Hv) as Hw1.
    destruct o1; [by apply IH|by intros [= <- <-]]. }
  unfold deadline_bounded in *. by rewrite Hn, Ht.
Qed.

Lemma react_deadline i w w' :
  deadline_bounded w -> react host i w = Some w' -> deadline_bounded w'.
Proof.
  intros Hw. destruct i as [a inv|el f|el f|hidden|fuel|dt]; simpl.
  - intros [= <-]. by apply drawImage_deadline.
  - intros [= <-]. apply (run_action_deadline (AAddDrawCallback el f) w Hw).
  - intros [= <-]. apply (run_action_deadline (ARemoveDrawCallback el f) w Hw).
  - intros [= <-]. unfold visibilitychange. generalize (listeners w) as l.
    intros l. revert w Hw. induction l as [|p l IH]; intros w Hw; cbn [foldl];
      [done|]. apply IH. unfold visibility_listener.
    destruct (stopRaf_frame w) as (_ & Hs & _ & Hn & _).
    revert Hs Hn. generalize (stopRaf w) as w1. intros w1 Hs Hn.
    unfold deadline_bounded in *. destruct hidden; simpl.
    + by rewrite Hs, Hn.
    + by intros t [= <-].
  - unfold frame. destruct (pending w) as [|id rest]; simpl; [by intros [= <-]|].
    destruct (step host fuel (with_pending rest w)) as [[w1 o]|] eqn:Hs; [|done].
    simpl. intros [= <-]. by apply (step_deadline fuel (with_pending rest w) w1 o).
  - intros [= <-]. apply (run_action_deadline (AElapse dt) w Hw).
Qed.

Lemma run_deadline l w w' :
  deadline_bounded w -> run host l w = Some w' -> deadline_bounded w'.
Proof.
  revert w. induction l as [|i l IH]; intros w Hw; simpl; [by intros [= <-]|].
  destruct (react host i w) as [w1|] eqn:Hr; [|done].
  apply IH. by apply (react_deadline i w).
Qed.

End DeadlineBound.

(** X13.  In every state reached from the initial one, whatever the page
    and its callbacks do, the deadline [rafStopTime] is at most 100 ms
    ahead of the clock: once 100 ms pass without a [drawImage], a callback
    invocation or a change to visible, the next tick finds the deadline
    passed. *)
Theorem deadline_within_idle_window (host : Host) (flags : nat -> bool)
    (l : list Input) (w : World) :
  run host l (initial flags) = Some w ->
  (forall t, rafStopTime w = Some t -> t <= now w + 100) /\
  (forall dt, 100 <= dt -> keep_running (with_now (now w + dt) w) = false).
Proof.
  intros Hrun.
  assert (Hb : deadline_bounded w).
  { apply (run_deadline host l (initial flags) w); [|done]. by intros t. }
  split; [exact Hb|]. intros dt Hdt. unfold keep_running. simpl.
  destruct (rafStopTime w) as [t|] eqn:Ht; [|done].
  specialize (Hb t Ht). unfold rafStopMaxTime in Hb.
  apply andb_false_intro2, Nat.ltb_ge. lia.
Qed.

Lemma deadline_within_idle_window_witness :
  exists w,
    run redrawing_host
      [InAddDrawCallback (ElNode 1) 7; InDrawImage (Some ee1) false; InElapse 30;
       InFrame 3; InElapse 20]
      (initial all_clear) = Some w /\
    forall t, rafStopTime w = Some t -> t <= now w + 100.
Proof.
  eexists. split; [vm_compute; reflexivity|].
  apply (deadline_within_idle_window redrawing_host all_clear
           [InAddDrawCallback (ElNode 1) 7; InDrawImage (Some ee1) false; InElapse 30;
            InFrame 3; InElapse 20]).
  vm_compute. reflexivity.
Defined.

(** ** What an accepted call changes *)

(** X14.  An accepted [drawImage] leaves its element with a dirty entry
    that has the callbacks it had before (none if the entry is new), and
    leaves the entries of all other elements as they are; it sets the
    [invalid] flag of its enabled element when asked and touches no other
    flag; afterwards a request is live and the deadline is 100 ms after the
    clock; it calls no collaborator. *)
Theorem drawImage_effect (host : Host) (ee : EnabledElement) (inv : bool)
    (w : World) :
  drawImage_rejects (Some ee) = Some false ->
  let w' := (drawImage host (Some ee) inv w).1 in
  (exists e',
     map_get (element ee) (elementsDrawMap w') = Some e' /\
     needsRedraw e' = true /\
     callbacks e' =
       match map_get (element ee) (elementsDrawMap w) with
       | Some e => callbacks e
       | None => []
       end) /\
  (forall k, k <> element ee ->
     map_get k (elementsDrawMap w') = map_get k (elementsDrawMap w)) /\
  (forall o, invalid w' o = invalid w o || (inv && bool_decide (o = oid ee))) /\
  truthy (rafId w') = true /\ rafStopTime w' = Some (now w + 100) /\
  trace w' = trace w.
Proof.
  intros Hacc w'. subst w'. split; [|split; [|split; [|split; [|split]]]].
  - rewrite drawImage_accepted_map by done.
    rewrite map_get_update, decide_True by done.
    destruct (map_get_ensure (element ee) (elementsDrawMap w))
      as (e & -> & [He|[He ->]]); rewrite He; eexists; done.
  - intros k Hk. rewrite drawImage_accepted_map by done.
    rewrite map_get_update, decide_False by done.
    by apply map_get_ensure_other.
  - intros o. by apply drawImage_accepted_invalid.
  - destruct (drawImage_accepted_request host ee inv w Hacc) as [_ H].
    destruct (truthy (rafId w)) eqn:Ht.
    + destruct H as [-> _]. done.
    + destruct H as [-> _]. done.
  - by destruct (drawImage_accepted_request host ee inv w Hacc) as [-> _].
  - apply (run_action_trace host (ADrawImage (Some ee) inv)).
Qed.

Lemma drawImage_effect_witness :
  exists e',
    map_get (ElNode 2)
      (elementsDrawMap (drawImage page_host (Some ee2) true two_dirty).1) = Some e' /\
    needsRedraw e' = true /\ callbacks e' = [Some 9].
Proof.
  destruct (drawImage_effect page_host ee2 true two_dirty eq_refl)
    as ((e' & He & Hd & Hc) & _).
  exists e'. split; [exact He|]. split; [exact Hd|]. rewrite Hc. reflexivity.
Defined.

(** * The tick, whatever the collaborators do *)

(** ** What one visit does *)

Lemma visit_rendered host fuel i k e ee w :
  elementsDrawMap w !! i = Some (k, e) -> element_truthy k = true ->
  needsRedraw e = true -> getEnabledElement host k = Some ee ->
  visit host fuel i w =
  match run_script host (drawImageSync host ee (invalid w (oid ee)))
          (log (EvRender k ee (invalid w (oid ee))) (log (EvPreRender k ee) w)) with
  | (w3, Throw) => Some (w3, Throw)
  | (w3, Normal) =>
      match elementsDrawMap (clear_at i w3) !! i with
      | None => Some (clear_at i w3, Normal)
      | Some (_, entry4) =>
          if 0 <? set_size (callbacks entry4) then
            match callbacks_forEach host fuel i ee 0 (clear_at i w3) with
            | None => None
            | Some w5 =>
                Some (with_rafStopTime (Some (now w5 + rafStopMaxTime)) w5, Normal)
            end
          else Some (clear_at i w3, Normal)
      end
  end.
Proof. intros Hi Hk Hd Hres. unfold visit. by rewrite Hi, Hk, Hd, Hres. Qed.

Lemma visit_skipped host fuel i w :
  match elementsDrawMap w !! i with
  | Some (k, e) => resolved host (k, e) = None
  | None => True
  end -> visit host fuel i w = Some (w, Normal).
Proof.
  unfold visit, resolved. destruct (elementsDrawMap w !! i) as [[k e]|]; [|done].
  simpl. destruct (element_truthy k), (needsRedraw e); simpl; try done.
  by intros ->.
Qed.

Lemma resolved_Some host k e ee :
  resolved host (k, e) = Some ee <->
  element_truthy k = true /\ needsRedraw e = true /\ getEnabledElement host k = Some ee.
Proof.
  unfold resolved. simpl. destruct (element_truthy k), (needsRedraw e); simpl;
    split; try done; try (by intros (? & ? & ?)).
Qed.

Lemma clear_at_lookup i j w :
  elementsDrawMap (clear_at i w) !! j =
  (fun ke => if decide (j = i) then (ke.1, with_needsRedraw false ke.2) else ke)
    <$> elementsDrawMap w !! j.
Proof.
  unfold clear_at, map_update_at. simpl.
  destruct (decide (j = i)) as [->|Hne].
  - by rewrite list_lookup_alter_eq.
  - rewrite list_lookup_alter_ne by done. by destruct (_ !! j).
Qed.

Lemma clear_at_keys i w : keys (clear_at i w) = keys w.
Proof. apply keys_map_update_at. Qed.

(** ** Invariants under the actions a host performs

    A property of the world that is kept by the actions of a kind [A], by
    the record of a render call and of a callback invocation, and by the
    deadline that follows the callbacks, is kept by the callbacks of an
    entry, by a visit that may clear the flag of its entry, and by the loop
    over the table, for every host whose foreign code is made of actions of
    that kind. *)

Section HostInvariant.
Context (host : Host) (A : Action -> bool) (P : World -> Prop).
Hypothesis host_render :
  forall ee b, forallb A (actions (drawImageSync host ee b)) = true.
Hypothesis host_callback :
  forall f ee, forallb A (actions (callback_body host f ee)) = true.
Hypothesis P_action : forall a w, A a = true -> P w -> P (run_action host a w).1.
Hypothesis P_render : forall i k e ee w,
  P w -> elementsDrawMap w !! i = Some (k, e) -> needsRedraw e = true ->
  element_truthy k = true -> getEnabledElement host k = Some ee ->
  P (log (EvRender k ee (invalid w (oid ee))) (log (EvPreRender k ee) w)).
Hypothesis P_call : forall i k e f ee w,
  P w -> elementsDrawMap w !! i = Some (k, e) -> f ∈ set_members (callbacks e) ->
  getEnabledElement host k = Some ee -> P (log (EvCallback k f ee) w).
Hypothesis P_deadline :
  forall w, P w -> P (with_rafStopTime (Some (now w + rafStopMaxTime)) w).

Lemma run_actions_hinv l w :
  forallb A l = true -> P w -> P (run_actions host l w).1.
Proof.
  revert w. induction l as [|a l IH]; simpl; intros w Hl Hw; [done|].
  apply andb_prop in Hl as [Ha Hl].
  pose proof (P_action a w Ha Hw) as H.
  destruct (run_action host a w) as [w' []]; simpl in *; [by apply IH|done].
Qed.

Lemma run_script_hinv s w :
  forallb A (actions s) = true -> P w -> P (run_script host s w).1.
Proof.
  intros Hs Hw. unfold run_script.
  pose proof (run_actions_hinv (actions s) w Hs Hw) as H.
  by destruct (run_actions host (actions s) w) as [w' []].
Qed.

Lemma callbacks_forEach_hinv fuel i k ee index w w' :
  getEnabledElement host k = Some ee -> keys w !! i = Some k -> P w ->
  callbacks_forEach host fuel i ee index w = Some w' ->
  P w' /\ keys w' !! i = Some k.
Proof.
  intros Hres. revert index w.
  induction fuel as [|fuel IH]; intros index w Hk Hw; [done|].
  rewrite callbacks_forEach_S.
  destruct (lookup_of_key w i k Hk) as [entry Hi]. rewrite Hi.
  destruct (callbacks entry !! index) as [[rafcb|]|] eqn:Hix; [| |by intros [= <-]].
  - apply IH.
    + by apply run_script_key.
    + apply run_script_hinv; [apply host_callback|].
      apply (P_call i k entry); [done|done| |done].
      unfold set_members. apply list_elem_of_omap. exists (Some rafcb).
      split; [|done]. by apply list_elem_of_lookup_2 in Hix.
  - by apply IH.
Qed.

Lemma visit_hinv fuel i w w' o :
  (forall k e ee w1,
     P w1 -> elementsDrawMap w1 !! i = Some (k, e) -> element_truthy k = true ->
     getEnabledElement host k = Some ee -> P (clear_at i w1)) ->
  P w -> visit host fuel i w = Some (w', o) -> P w'.
Proof.
  intros P_clear Hw.
  destruct (elementsDrawMap w !! i) as [[k e]|] eqn:Hi;
    [|unfold visit; rewrite Hi; by intros [= <- <-]].
  destruct (resolved host (k, e)) as [ee|] eqn:Hres.
  - apply resolved_Some in Hres as (Hk & Hd & Hres).
    rewrite (visit_rendered host fuel i k e ee w Hi Hk Hd Hres).
    pose proof (P_render i k e ee w Hw Hi Hd Hk Hres) as Hw2.
    set (w2 := log _ (log _ w)) in *.
    assert (Hk2 : keys w2 !! i = Some k) by (by apply (key_of_lookup w i k e)).
    pose proof (run_script_hinv (drawImageSync host ee (invalid w (oid ee))) w2
                  (host_render _ _) Hw2) as Hw3.
    pose proof (run_script_key host (drawImageSync host ee (invalid w (oid ee)))
                  w2 i k Hk2) as Hk3.
    destruct (run_script host _ w2) as [w3 o3]. simpl in Hw3, Hk3.
    destruct o3; [|by intros [= <- <-]].
    destruct (lookup_of_key w3 i k Hk3) as [e3 Hi3].
    pose proof (P_clear k e3 ee w3 Hw3 Hi3 Hk Hres) as Hw4.
    assert (Hk4 : keys (clear_at i w3) !! i = Some k) by (by rewrite clear_at_keys).
    destruct (elementsDrawMap (clear_at i w3) !! i) as [[k4 entry4]|];
      [|by intros [= <- <-]].
    destruct (0 <? set_size (callbacks entry4)); [|by intros [= <- <-]].
    destruct (callbacks_forEach host fuel i ee 0 (clear_at i w3)) as [w5|] eqn:Hcb;
      [|done].
    intros [= <- <-]. apply P_deadline.
    by apply (callbacks_forEach_hinv fuel i k ee 0 (clear_at i w3) w5).
  - rewrite visit_skipped by (by rewrite Hi). by intros [= <- <-].
Qed.

Lemma map_forEach_hinv fuel_cb fuel index w w' o :
  (forall i k e ee w1,
     index <= i -> P w1 -> elementsDrawMap w1 !! i = Some (k, e) ->
     element_truthy k = true -> getEnabledElement host k = Some ee ->
     P (clear_at i w1)) ->
  P w -> map_forEach host fuel_cb fuel index w = Some (w', o) -> P w'.
Proof.
  revert index w. induction fuel as [|fuel IH]; intros index w P_clear Hw; [done|].
  rewrite map_forEach_S.
  destruct (elementsDrawMap w !! index); [|by intros [= <- <-]].
  destruct (visit host fuel_cb index w) as [[w1 o1]|] eqn:Hv; [|done].
  assert (Hw1 : P w1).
  { apply (visit_hinv fuel_cb index w w1 o1); [|done|done].
    intros k e ee w2. by apply P_clear. }
  destruct o1; [|by intros [= <- <-]].
  apply IH; [|done]. intros i k e ee w2 Hle. apply P_clear. lia.
Qed.

End HostInvariant.

(** ** Ticks that run to their end

    With settled collaborators the table keeps its elements and every
    callback set its number of slots, so that the two loops of a tick end:
    the fuel that suffices for passive collaborators suffices. *)

Lemma shape_keys (m : DrawMap) : (shape m).*1 = m.*1.
Proof. unfold shape. induction m as [|[k e] m IH]; csimpl; [done|]. by rewrite IH. Qed.

Lemma shape_length (m : DrawMap) : length (shape m) = length m.
Proof. unfold shape. by rewrite length_fmap. Qed.

Lemma shape_lookup (m m' : DrawMap) i k e :
  shape m' = shape m -> m !! i = Some (k, e) ->
  exists e', m' !! i = Some (k, e') /\ length (callbacks e') = length (callbacks e).
Proof.
  unfold shape. intros Hs Hi.
  assert (H : ((fun ke : Element * Entry => (ke.1, length (callbacks ke.2))) <$> m') !! i
              = Some (k, length (callbacks e))).
  { rewrite Hs, list_lookup_fmap, Hi. done. }
  rewrite list_lookup_fmap in H.
  destruct (m' !! i) as [[k' e']|]; simpl in H; [|done].
  injection H as -> Hl. by exists e'.
Qed.

Lemma shape_map_update k f (m : DrawMap) :
  (forall e, length (callbacks (f e)) = length (callbacks e)) ->
  shape (map_update k f m) = shape m.
Proof.
  intros Hf. unfold shape. induction m as [|[k0 e] m IH]; csimpl; [done|].
  destruct (decide (k0 = k)); csimpl; [by rewrite Hf|by rewrite IH].
Qed.

Lemma shape_clear_at i w :
  shape (elementsDrawMap (clear_at i w)) = shape (elementsDrawMap w).
Proof.
  unfold clear_at, map_update_at, shape. simpl.
  apply list_eq. intros j. rewrite !list_lookup_fmap.
  destruct (decide (j = i)) as [->|Hne].
  - rewrite list_lookup_alter_eq. by destruct (_ !! i) as [[k e]|].
  - by rewrite list_lookup_alter_ne.
Qed.

Lemma map_has_elem k (m : DrawMap) : k ∈ m.*1 -> map_has k m = true.
Proof.
  intros Hin. destruct (map_has k m) eqn:Hh; [done|].
  by apply map_has_false_notin in Hh.
Qed.

Lemma set_delete_length f s : length (set_delete f s) = length s.
Proof.
  induction s as [|e s IH]; simpl; [done|].
  destruct (decide (e = Some f)); simpl; [done|]. by rewrite IH.
Qed.

Section Settled.
Context (host : Host) (ks : list Element).
Hypothesis host_settled : settled_host ks host.

Lemma drawImage_accepted_normal ee inv w :
  drawImage_rejects (Some ee) = Some false -> (drawImage host (Some ee) inv w).2 = Normal.
Proof.
  intros Hacc. destruct (drawImage host (Some ee) inv w).2 eqn:Ho; [done|].
  apply drawImage_throws_iff in Ho as (ee' & [= <-] & Hc & Hi & Hl).
  simpl in Hacc. by rewrite Hc, Hi, Hl in Hacc.
Qed.

Lemma run_action_settled a w :
  keys w = ks -> settled_action ks a = true ->
  (run_action host a w).2 = Normal /\
  shape (elementsDrawMap (run_action host a w).1) = shape (elementsDrawMap w).
Proof.
  intros Hks Ha.
  destruct a as [a inv|el f|el f|dt|o b]; cbn [settled_action run_action] in *;
    try done.
  - destruct a as [ee|].
    + destruct (drawImage_rejects (Some ee)) as [[]|] eqn:Hrej; [| |done].
      * rewrite drawImage_rejected by congruence. rewrite Hrej. simpl.
        by rewrite registerVisibilityChange_map.
      * split; [by apply drawImage_accepted_normal|].
        rewrite drawImage_accepted_map by done.
        apply bool_decide_eq_true in Ha. rewrite <- Hks in Ha.
        rewrite map_has_elem by done. by apply shape_map_update.
    + rewrite drawImage_rejected by done. simpl.
      by rewrite registerVisibilityChange_map.
  - split; [done|]. unfold removeDrawCallback.
    destruct (element_truthy el); simpl; [|done].
    destruct (map_get el (elementsDrawMap w)); simpl; [|done].
    apply shape_map_update. intros e0. simpl. apply set_delete_length.
Qed.

Lemma run_actions_settled l w :
  keys w = ks -> forallb (settled_action ks) l = true ->
  (run_actions host l w).2 = Normal /\
  shape (elementsDrawMap (run_actions host l w).1) = shape (elementsDrawMap w).
Proof.
  revert w. induction l as [|a l IH]; intros w Hks Hl; simpl; [done|].
  apply andb_prop in Hl as [Ha Hl].
  destruct (run_action_settled a w Hks Ha) as [Ho Hs].
  destruct (run_action host a w) as [w1 o1]. simpl in Ho, Hs. subst o1.
  destruct (IH w1) as [Ho2 Hs2]; [|done|].
  - unfold keys. by rewrite <- shape_keys, Hs, shape_keys.
  - split; [done|]. by rewrite Hs2.
Qed.

Lemma run_script_settled s w :
  keys w = ks -> forallb (settled_action ks) (actions s) = true ->
  (run_script host s w).2 = (if throws s then Throw else Normal) /\
  shape (elementsDrawMap (run_script host s w).1) = shape (elementsDrawMap w).
Proof.
  intros Hks Hs. destruct (run_actions_settled (actions s) w Hks Hs) as [Ho Hsh].
  unfold run_script. destruct (run_actions host (actions s) w) as [w1 o1].
  simpl in *. by subst o1.
Qed.

Lemma keys_of_shape (w w' : World) :
  shape (elementsDrawMap w') = shape (elementsDrawMap w) -> keys w' = keys w.
Proof. intros H. unfold keys. by rewrite <- !shape_keys, H. Qed.

Lemma callbacks_forEach_settled n i k e ee index w :
  keys w = ks -> elementsDrawMap w !! i = Some (k, e) ->
  length (callbacks e) <= index + n ->
  exists w', callbacks_forEach host (S n) i ee index w = Some w' /\
    shape (elementsDrawMap w') = shape (elementsDrawMap w).
Proof.
  destruct host_settled as [_ Hcb].
  revert index w e. induction n as [|n IH]; intros index w e Hks Hi Hlen;
    rewrite callbacks_forEach_S, Hi.
  - rewrite lookup_ge_None_2 by lia. by exists w.
  - destruct (callbacks e !! index) as [[f|]|] eqn:Hix; [| |by exists w].
    + set (w1 := log (EvCallback k f ee) w).
      destruct (run_script_settled (callback_body host f ee) w1 Hks (Hcb f ee))
        as [_ Hsh].
      destruct (shape_lookup _ _ i k e Hsh Hi) as (e2 & Hi2 & Hl2).
      destruct (IH (S index) (run_script host (callback_body host f ee) w1).1 e2)
        as (w' & Hw' & Hs'); [|done|lia|].
      * rewrite (keys_of_shape w1) by done. done.
      * exists w'. split; [done|]. by rewrite Hs', Hsh.
    + destruct (IH (S index) w e) as (w' & Hw' & Hs'); [done|done|lia|].
      by exists w'.
Qed.

Lemma visit_settled fuel i w :
  render_returns host -> keys w = ks ->
  Forall (fun kn : Element * nat => kn.2 < fuel) (shape (elementsDrawMap w)) ->
  exists w', visit host fuel i w = Some (w', Normal) /\
    shape (elementsDrawMap w') = shape (elementsDrawMap w).
Proof.
  destruct host_settled as [Hrender _]. intros Hret Hks Hfuel.
  destruct (elementsDrawMap w !! i) as [[k e]|] eqn:Hi;
    [|exists w; unfold visit; by rewrite Hi].
  destruct (resolved host (k, e)) as [ee|] eqn:Hres;
    [|exists w; rewrite visit_skipped by (by rewrite Hi); done].
  apply resolved_Some in Hres as (Hk & Hd & Hres).
  rewrite (visit_rendered host fuel i k e ee w Hi Hk Hd Hres).
  set (w2 := log _ (log _ w)).
  destruct (run_script_settled (drawImageSync host ee (invalid w (oid ee))) w2 Hks
              (Hrender _ _)) as [Ho Hsh].
  rewrite Hret in Ho.
  destruct (run_script host _ w2) as [w3 o3]. simpl in Ho, Hsh. subst o3.
  change (shape (elementsDrawMap w2)) with (shape (elementsDrawMap w)) in Hsh.
  assert (Hsh4 : shape (elementsDrawMap (clear_at i w3)) = shape (elementsDrawMap w))
    by (by rewrite shape_clear_at).
  destruct (shape_lookup _ _ i k e Hsh4 Hi) as (e4 & Hi4 & Hl4). rewrite Hi4.
  destruct (0 <? set_size (callbacks e4)); [|by exists (clear_at i w3)].
  destruct fuel as [|n].
  { rewrite Forall_forall in Hfuel.
    assert (Hin : (k, length (callbacks e)) ∈ shape (elementsDrawMap w)).
    { unfold shape. apply list_elem_of_fmap. exists (k, e).
      split; [done|]. by apply list_elem_of_lookup_2 in Hi. }
    specialize (Hfuel _ Hin). simpl in Hfuel. lia. }
  destruct (callbacks_forEach_settled n i k e4 ee 0 (clear_at i w3))
    as (w5 & -> & Hs5).
  - rewrite <- Hks. by apply keys_of_shape.
  - done.
  - rewrite Hl4. rewrite Forall_forall in Hfuel.
    assert (Hin : (k, length (callbacks e)) ∈ shape (elementsDrawMap w)).
    { unfold shape. apply list_elem_of_fmap. exists (k, e).
      split; [done|]. by apply list_elem_of_lookup_2 in Hi. }
    specialize (Hfuel _ Hin). simpl in Hfuel. lia.
  - eexists. split; [done|]. simpl. by rewrite Hs5.
Qed.

Lemma map_forEach_settled fuel_cb n index w :
  render_returns host -> keys w = ks ->
  Forall (fun kn : Element * nat => kn.2 < fuel_cb) (shape (elementsDrawMap w)) ->
  length (elementsDrawMap w) <= index + n ->
  exists w', map_forEach host fuel_cb (S n) index w = Some (w', Normal) /\
    shape (elementsDrawMap w') = shape (elementsDrawMap w).
Proof.
  intros Hret. revert index w.
  induction n as [|n IH]; intros index w Hks Hfuel Hlen; rewrite map_forEach_S.
  - rewrite lookup_ge_None_2 by lia. by exists w.
  - destruct (elementsDrawMap w !! index) eqn:Hi; [|by exists w].
    destruct (visit_settled fuel_cb index w Hret Hks Hfuel) as (w1 & -> & Hs1).
    destruct (IH (S index) w1) as (w' & Hw' & Hs').
    + rewrite <- Hks. by apply keys_of_shape.
    + by rewrite Hs1.
    + rewrite <- shape_length, Hs1, shape_length. lia.
    + exists w'. split; [done|]. by rewrite Hs', Hs1.
Qed.

End Settled.

Lemma drain_settled host fuel w :
  settled_host (keys w) host -> render_returns host ->
  drain_fuel (elementsDrawMap w) <= fuel ->
  exists wd, drain host fuel w = Some (wd, Normal) /\
    shape (elementsDrawMap wd) = shape (elementsDrawMap w).
Proof.
  intros Hs Hret Hfuel. destruct (drain_fuel_enough _ _ Hfuel) as [Hlen Hall].
  unfold drain. destruct fuel as [|n]; [lia|].
  apply (map_forEach_settled host (keys w)); try done; [|lia].
  unfold shape. apply Forall_fmap. by apply (Forall_impl _ _ _ Hall).
Qed.

(** When the drain is over [step] arms the next request or stops the loop,
    and does nothing else. *)
Lemma step_of_drain host fuel w wd :
  drain host fuel w = Some (wd, Normal) ->
  step host fuel w = Some (if keep_running wd then arm wd else stopRaf wd, Normal).
Proof. unfold step, arm. intros ->. by destruct (keep_running wd). Qed.

Lemma stopRaf_effect w :
  rafId (stopRaf w) = None /\ raf_calls (stopRaf w) = raf_calls w /\
  forall id, id ∈ pending (stopRaf w) -> id ∈ pending w.
Proof.
  unfold stopRaf. destruct (rafId w) as [[|n]|]; simpl;
    (split; [done|]; split; [done|]); intros id; rewrite ?list_elem_of_filter; tauto.
Qed.


(** ** Redraws asked for during a tick

    Foreign code can set the dirty flag of an entry and cannot clear it;
    the only thing that clears it is the visit of the entry itself. *)

Lemma forallb_any l : forallb any_action l = true.
Proof. by induction l. Qed.

Section DirtyDuringTick.
Context (host : Host).

Lemma run_action_dirty_at a j k w :
  dirty_at j k w -> dirty_at j k (run_action host a w).1.
Proof.
  intros (e & Hj & He).
  by apply (run_action_entry host (fun e0 => needsRedraw e0 = true) a w j k e).
Qed.

Lemma clear_at_dirty_at i j k w : j <> i -> dirty_at j k w -> dirty_at j k (clear_at i w).
Proof.
  intros Hne (e & Hj & He). exists e. split; [|done].
  rewrite clear_at_lookup, Hj. simpl. by rewrite decide_False.
Qed.

Lemma callbacks_forEach_keeps_dirty fuel i ee index j k w w' :
  dirty_at j k w -> callbacks_forEach host fuel i ee index w = Some w' ->
  dirty_at j k w'.
Proof.
  revert index w. induction fuel as [|fuel IH]; intros index w Hw; [done|].
  rewrite callbacks_forEach_S.
  destruct (elementsDrawMap w !! i) as [[el entry]|]; [|by intros [= <-]].
  destruct (callbacks entry !! index) as [[f|]|]; [|by apply IH|by intros [= <-]].
  apply IH. apply (run_script_inv host (dirty_at j k)); [|done].
  intros a w0. apply run_action_dirty_at.
Qed.

Lemma visit_keeps_dirty fuel i j k w w' o :
  j <> i -> dirty_at j k w -> visit host fuel i w = Some (w', o) -> dirty_at j k w'.
Proof.
  intros Hne Hw.
  apply (visit_hinv host any_action (dirty_at j k));
    [intros; apply forallb_any|intros; apply forallb_any| | | | | |done].
  - intros a w0 _. apply run_action_dirty_at.
  - by intros.
  - by intros.
  - by intros.
  - intros _ _ _ w1 Hw1 _ _ _. by apply clear_at_dirty_at.
Qed.

(** An entry that the loop has passed stays as dirty as it is. *)
Lemma map_forEach_keeps_dirty fuel_cb fuel index j k w w' o :
  j < index -> dirty_at j k w ->
  map_forEach host fuel_cb fuel index w = Some (w', o) -> dirty_at j k w'.
Proof.
  intros Hlt Hw.
  apply (map_forEach_hinv host any_action (dirty_at j k));
    [intros; apply forallb_any|intros; apply forallb_any| | | | | |done].
  - intros a w0 _. apply run_action_dirty_at.
  - by intros.
  - by intros.
  - by intros.
  - intros i _ _ _ w1 Hle Hw1 _ _ _. apply clear_at_dirty_at; [lia|done].
Qed.

Lemma visit_trace fuel i w w' o :
  visit host fuel i w = Some (w', o) -> exists t, trace w' = trace w ++ t.
Proof.
  apply (visit_hinv host any_action (fun w0 => exists t, trace w0 = trace w ++ t));
    [intros; apply forallb_any|intros; apply forallb_any| | | | | |].
  - intros a w0 _ Hw0. by rewrite run_action_trace.
  - intros _ k _ ee w0 [t Ht] _ _ _ _. simpl. rewrite Ht, <- !app_assoc. eauto.
  - intros _ k _ f ee w0 [t Ht] _ _ _. simpl. rewrite Ht, <- !app_assoc. eauto.
  - by intros.
  - by intros.
  - exists []. by rewrite app_nil_r.
Qed.

Lemma map_forEach_trace fuel_cb fuel index w w' o :
  map_forEach host fuel_cb fuel index w = Some (w', o) ->
  exists t, trace w' = trace w ++ t.
Proof.
  apply (map_forEach_hinv host any_action (fun w0 => exists t, trace w0 = trace w ++ t));
    [intros; apply forallb_any|intros; apply forallb_any| | | | | |].
  - intros a w0 _ Hw0. by rewrite run_action_trace.
  - intros _ k _ ee w0 [t Ht] _ _ _ _. simpl. rewrite Ht, <- !app_assoc. eauto.
  - intros _ k _ f ee w0 [t Ht] _ _ _. simpl. rewrite Ht, <- !app_assoc. eauto.
  - by intros.
  - by intros.
  - exists []. by rewrite app_nil_r.
Qed.

(** The visit of a dirty entry whose element resolves makes the render
    call, whatever else happens in it. *)
Lemma visit_renders_dirty fuel i k ee w w' o :
  dirty_at i k w -> element_truthy k = true -> getEnabledElement host k = Some ee ->
  visit host fuel i w = Some (w', o) ->
  exists t, trace w' = trace w ++ t /\ EvRender k ee (invalid w (oid ee)) ∈ t.
Proof.
  intros (e & Hi & Hd) Hk Hres.
  rewrite (visit_rendered host fuel i k e ee w Hi Hk Hd Hres).
  set (w2 := log _ (log _ w)).
  pose proof (run_script_trace host (drawImageSync host ee (invalid w (oid ee))) w2)
    as Ht3.
  destruct (run_script host _ w2) as [w3 o3]. simpl in Ht3.
  assert (Hin : forall t,
            EvRender k ee (invalid w (oid ee)) ∈
            EvPreRender k ee :: EvRender k ee (invalid w (oid ee)) :: t).
  { intros t. rewrite !elem_of_cons. auto. }
  assert (H3 : exists t, trace w3 = trace w ++ t /\
                         EvRender k ee (invalid w (oid ee)) ∈ t).
  { eexists. split; [|apply (Hin [])]. rewrite Ht3. subst w2. simpl.
    by rewrite <- app_assoc. }
  destruct o3; [|by intros [= <- <-]].
  destruct (elementsDrawMap (clear_at i w3) !! i) as [[k4 e4]|];
    [|by intros [= <- <-]].
  destruct (0 <? set_size (callbacks e4)); [|by intros [= <- <-]].
  destruct (callbacks_forEach host fuel i ee 0 (clear_at i w3)) as [w5|] eqn:Hcb;
    [|done].
  intros [= <- <-].
  destruct (callbacks_forEach_trace host _ _ _ _ _ _ Hcb) as (t & Ht & _).
  eexists. split; [|apply (Hin t)]. simpl. rewrite Ht. simpl. rewrite Ht3.
  subst w2. simpl. by rewrite <- !app_assoc.
Qed.

(** An entry that the loop has not reached yet is served by this very
    tick, if the tick gets that far. *)
Lemma map_forEach_serves fuel_cb fuel index j k ee w w' :
  index <= j -> dirty_at j k w -> element_truthy k = true ->
  getEnabledElement host k = Some ee ->
  map_forEach host fuel_cb fuel index w = Some (w', Normal) ->
  exists t flag, trace w' = trace w ++ t /\ EvRender k ee flag ∈ t.
Proof.
  intros Hle Hw Hk Hres. revert index w Hle Hw.
  induction fuel as [|fuel IH]; intros index w Hle Hw; [done|].
  rewrite map_forEach_S.
  destruct (elementsDrawMap w !! index) as [ke|] eqn:Hi.
  - destruct (visit host fuel_cb index w) as [[w1 []]|] eqn:Hv; [|done|done].
    intros Hrest. destruct (decide (index = j)) as [->|Hne].
    + destruct (visit_renders_dirty _ _ _ _ _ _ _ Hw Hk Hres Hv) as (t1 & Ht1 & Hin).
      destruct (map_forEach_trace _ _ _ _ _ _ Hrest) as [t2 Ht2].
      exists (t1 ++ t2), (invalid w (oid ee)). rewrite Ht2, Ht1, app_assoc.
      split; [done|]. apply elem_of_app. by left.
    + destruct (visit_trace _ _ _ _ _ Hv) as [t1 Ht1].
      destruct (IH (S index) w1) as (t2 & flag & Ht2 & Hin); [lia| |done|].
      { apply (visit_keeps_dirty fuel_cb index j k w w1 Normal); [lia|done|done]. }
      exists (t1 ++ t2), flag. rewrite Ht2, Ht1, app_assoc.
      split; [done|]. apply elem_of_app. by right.
  - destruct Hw as (e & Hj & _). apply lookup_ge_None_1 in Hi.
    apply lookup_lt_Some in Hj. lia.
Qed.

Lemma map_get_lookup k e (m : DrawMap) :
  map_get k m = Some e -> exists j, m !! j = Some (k, e).
Proof.
  intros H%map_get_elem_of. by apply list_elem_of_lookup_1 in H.
Qed.

(** An accepted call leaves the entry of its element dirty, wherever it is
    in the table. *)
Lemma drawImage_dirty_at ee inv w :
  drawImage_rejects (Some ee) = Some false ->
  exists j, dirty_at j (element ee) (drawImage host (Some ee) inv w).1.
Proof.
  intros Hacc. destruct (drawImage_accepted_dirty host ee inv w Hacc) as (e & He & Hd).
  destruct (map_get_lookup _ _ _ He) as [j Hj]. exists j, e. done.
Qed.

End DirtyDuringTick.

(** ** Which callbacks a tick invokes *)

Lemma evolves_refl s : evolves s s.
Proof. by split. Qed.

Lemma evolves_trans s1 s2 s3 : evolves s1 s2 -> evolves s2 s3 -> evolves s1 s3.
Proof.
  intros [Hl1 H1] [Hl2 H2]. split; [lia|].
  intros p f Hp H3. apply H1; [done|]. apply H2; [lia|done].
Qed.

Lemma evolves_set_add f s : evolves s (set_add f s).
Proof.
  unfold set_add. destruct (set_has f s); [apply evolves_refl|]. split.
  - rewrite length_app. lia.
  - intros p g Hp. by rewrite lookup_app_l.
Qed.

Lemma evolves_set_delete f s : evolves s (set_delete f s).
Proof.
  split; [by rewrite set_delete_length|]. intros p g _. revert p.
  induction s as [|e s IH]; intros p; simpl; [done|].
  destruct (decide (e = Some f)) as [->|Hne]; destruct p as [|p]; simpl; try done.
  apply IH.
Qed.

Lemma set_members_lookup (s : CallbackSet) f :
  f ∈ set_members s <-> exists p, s !! p = Some (Some f).
Proof.
  unfold set_members. rewrite list_elem_of_omap. split.
  - intros (x & Hx & Hf). simpl in Hf. subst x.
    by apply list_elem_of_lookup_1 in Hx.
  - intros [p Hp]. exists (Some f). split; [|done].
    by apply list_elem_of_lookup_2 in Hp.
Qed.

(** What an action does to the entry at a given position, as a relation
    between the entry before and after. *)
Lemma run_action_entry_rel host (R : Entry -> Entry -> Prop) a w i k e :
  (forall e0, R e0 e0) ->
  (is_draw a = true -> forall e0, R e0 (with_needsRedraw true e0)) ->
  (forall el f, a = AAddDrawCallback el f ->
     forall e0, R e0 (with_callbacks (set_add f (callbacks e0)) e0)) ->
  (forall el f, a = ARemoveDrawCallback el f ->
     forall e0, R e0 (with_callbacks (set_delete f (callbacks e0)) e0)) ->
  elementsDrawMap w !! i = Some (k, e) ->
  exists e', elementsDrawMap (run_action host a w).1 !! i = Some (k, e') /\ R e e'.
Proof.
  intros Rrefl Rdraw Radd Rdel Hi.
  assert (Hupd : forall k0 g (m : DrawMap), (forall e0, R e0 (g e0)) ->
            m !! i = Some (k, e) ->
            exists e', map_update k0 g m !! i = Some (k, e') /\ R e e').
  { intros k0 g m Hg Hm.
    destruct (map_update_lookup k0 g m i k e Hm) as (e' & Hl & [->| ->]); eauto. }
  assert (Hset : forall k0 (m : DrawMap), m !! i = Some (k, e) ->
            (if map_has k0 m then m else map_set k0 fresh_entry m) !! i
            = Some (k, e)).
  { intros k0 m Hm. destruct (map_has k0 m) eqn:Hh; [done|].
    by apply map_set_lookup. }
  destruct a as [a inv|el f|el f|dt|o b]; simpl; eauto.
  - destruct (drawImage_rejects a) as [[]|] eqn:Hrej.
    + rewrite drawImage_rejected by congruence. simpl.
      rewrite registerVisibilityChange_map. eauto.
    + destruct a as [ee|]; [|done]. rewrite drawImage_accepted_map by done.
      apply Hupd; [by apply Rdraw|]. by apply Hset.
    + rewrite drawImage_rejected by congruence. simpl.
      rewrite registerVisibilityChange_map. eauto.
  - unfold addDrawCallback. destruct (element_truthy el); simpl; [|eauto].
    apply Hupd; [by apply (Radd el f)|].
    specialize (Hset el (elementsDrawMap w) Hi).
    by destruct (map_has el (elementsDrawMap w)).
  - unfold removeDrawCallback. destruct (element_truthy el); simpl; [|eauto].
    destruct (map_get el (elementsDrawMap w)); simpl; [|eauto].
    apply Hupd; [by apply (Rdel el f)|done].
Qed.

Section Invoked.
Context (host : Host).

Lemma run_action_evolves a w i k e :
  elementsDrawMap w !! i = Some (k, e) ->
  exists e', elementsDrawMap (run_action host a w).1 !! i = Some (k, e') /\
             evolves (callbacks e) (callbacks e').
Proof.
  apply (run_action_entry_rel host
           (fun e0 e1 => evolves (callbacks e0) (callbacks e1))).
  - intros e0. apply evolves_refl.
  - intros _ e0. apply evolves_refl.
  - intros _ f _ e0. apply evolves_set_add.
  - intros _ f _ e0. apply evolves_set_delete.
Qed.

Lemma run_script_evolves s w i k e :
  elementsDrawMap w !! i = Some (k, e) ->
  exists e', elementsDrawMap (run_script host s w).1 !! i = Some (k, e') /\
             evolves (callbacks e) (callbacks e').
Proof.
  intros Hi.
  apply (run_script_inv host (fun w0 =>
           exists e', elementsDrawMap w0 !! i = Some (k, e') /\
                      evolves (callbacks e) (callbacks e'))).
  - intros a w0 (e0 & Hi0 & He0).
    destruct (run_action_evolves a w0 i k e0 Hi0) as (e1 & Hi1 & He1).
    exists e1. split; [done|]. by apply (evolves_trans _ (callbacks e0)).
  - exists e. split; [done|apply evolves_refl].
Qed.

Lemma callbacks_forEach_evolves fuel i ee index k e w w' :
  elementsDrawMap w !! i = Some (k, e) ->
  callbacks_forEach host fuel i ee index w = Some w' ->
  exists e', elementsDrawMap w' !! i = Some (k, e') /\
             evolves (callbacks e) (callbacks e').
Proof.
  revert index w e. induction fuel as [|fuel IH]; intros index w e Hi; [done|].
  rewrite callbacks_forEach_S, Hi.
  assert (Hsame : Some w = Some w' ->
            exists e', elementsDrawMap w' !! i = Some (k, e') /\
                       evolves (callbacks e) (callbacks e')).
  { intros [= <-]. exists e. split; [done|apply evolves_refl]. }
  destruct (callbacks e !! index) as [[f|]|]; [|by apply IH|done].
  destruct (run_script_evolves (callback_body host f ee)
              (log (EvCallback k f ee) w) i k e Hi) as (e1 & Hi1 & He1).
  intros Hcb. destruct (IH _ _ _ Hi1 Hcb) as (e' & Hi' & He').
  exists e'. split; [done|]. by apply (evolves_trans _ (callbacks e1)).
Qed.

(** The loop over a callback set invokes every callback that is in the set
    when the loop ends, with the context it was given, and calls no other
    collaborator. *)
Lemma callbacks_forEach_invokes fuel i k e ee index w w' :
  elementsDrawMap w !! i = Some (k, e) ->
  callbacks_forEach host fuel i ee index w = Some w' ->
  exists t, trace w' = trace w ++ t /\ Forall (is_callback_of k ee) t /\
    forall e' p f,
      elementsDrawMap w' !! i = Some (k, e') -> index <= p ->
      callbacks e' !! p = Some (Some f) -> EvCallback k f ee ∈ t.
Proof.
  revert index w e. induction fuel as [|fuel IH]; intros index w e Hi; [done|].
  intros Hcb.
  destruct (callbacks_forEach_evolves _ _ _ _ _ _ _ _ Hi Hcb) as (e1 & Hi1 & [Hlen Hev]).
  revert Hcb. rewrite callbacks_forEach_S, Hi.
  destruct (callbacks e !! index) as [[f|]|] eqn:Hix.
  - intros Hcb.
    destruct (run_script_evolves (callback_body host f ee)
                (log (EvCallback k f ee) w) i k e Hi) as (e2 & Hi2 & _).
    destruct (IH _ _ _ Hi2 Hcb) as (t & Ht & Hall & Hin).
    rewrite run_script_trace in Ht. simpl in Ht.
    exists (EvCallback k f ee :: t). split; [by rewrite Ht, <- app_assoc|].
    split; [constructor; [by exists f|done]|].
    intros e' p g Hi' Hp Hg. rewrite Hi1 in Hi'. injection Hi' as <-.
    destruct (decide (p = index)) as [->|Hne].
    + apply lookup_lt_Some in Hix as Hlt. rewrite (Hev index g Hlt Hg) in Hix.
      injection Hix as ->. by left.
    + right. apply (Hin e1 p g); [done|lia|done].
  - intros Hcb. destruct (IH _ _ _ Hi Hcb) as (t & Ht & Hall & Hin).
    exists t. split; [done|]. split; [done|].
    intros e' p g Hi' Hp Hg. rewrite Hi1 in Hi'. injection Hi' as <-.
    destruct (decide (p = index)) as [->|Hne].
    + apply lookup_lt_Some in Hix as Hlt. rewrite (Hev index g Hlt Hg) in Hix.
      discriminate.
    + apply (Hin e1 p g); [done|lia|done].
  - intros [= <-]. exists []. rewrite app_nil_r. split; [done|]. split; [done|].
    intros e' p g Hi' Hp Hg. rewrite Hi in Hi'. injection Hi' as <-.
    apply lookup_ge_None_1 in Hix. apply lookup_lt_Some in Hg. lia.
Qed.

(** A loop over a callback set that invokes nobody changes nothing. *)
Lemma callbacks_forEach_silent fuel i ee index w w' :
  callbacks_forEach host fuel i ee index w = Some w' -> trace w' = trace w -> w' = w.
Proof.
  revert index w. induction fuel as [|fuel IH]; intros index w; [done|].
  rewrite callbacks_forEach_S.
  destruct (elementsDrawMap w !! i) as [[k e]|]; [|by intros [= <-]].
  destruct (callbacks e !! index) as [[f|]|]; [|apply IH|by intros [= <-]].
  intros Hcb Ht. exfalso.
  destruct (callbacks_forEach_trace host _ _ _ _ _ _ Hcb) as (t & Htr & _).
  rewrite run_script_trace in Htr. simpl in Htr. rewrite Ht, <- app_assoc in Htr.
  rewrite <- (app_nil_r (trace w)) in Htr at 1. by apply app_inv_head in Htr.
Qed.

(** A visit in which no callback is invoked leaves its entry clean,
    whatever the render routine asked for. *)
Lemma visit_without_callbacks fuel i k e ee w w' :
  elementsDrawMap w !! i = Some (k, e) -> resolved host (k, e) = Some ee ->
  visit host fuel i w = Some (w', Normal) ->
  trace w' = trace w ++ [EvPreRender k ee; EvRender k ee (invalid w (oid ee))] ->
  forall k', ~ dirty_at i k' w'.
Proof.
  intros Hi Hr. apply resolved_Some in Hr as (Hk & Hd & Hres).
  rewrite (visit_rendered host fuel i k e ee w Hi Hk Hd Hres).
  set (w2 := log _ (log _ w)).
  pose proof (run_script_trace host (drawImageSync host ee (invalid w (oid ee))) w2)
    as Ht3.
  destruct (run_script host _ w2) as [w3 o3]. simpl in Ht3.
  destruct o3; [|done].
  assert (Ht4 : trace (clear_at i w3) =
                trace w ++ [EvPreRender k ee; EvRender k ee (invalid w (oid ee))]).
  { simpl. rewrite Ht3. subst w2. simpl. by rewrite <- app_assoc. }
  assert (Hclean : forall k1, ~ dirty_at i k1 (clear_at i w3)).
  { intros k1 (e1 & H1 & Hd1). rewrite clear_at_lookup in H1.
    destruct (elementsDrawMap w3 !! i) as [[k3 e3]|]; [|done]. simpl in H1.
    rewrite decide_True in H1 by done. by injection H1 as <- <-. }
  destruct (elementsDrawMap (clear_at i w3) !! i) as [[k4 e4]|];
    [|by intros [= <-] _].
  destruct (0 <? set_size (callbacks e4)); [|by intros [= <-] _].
  destruct (callbacks_forEach host fuel i ee 0 (clear_at i w3)) as [w5|] eqn:Hcb;
    [|done].
  intros [= <-] Ht k' (e' & Hi' & Hd'). simpl in Ht, Hi'.
  rewrite <- Ht4 in Ht.
  rewrite (callbacks_forEach_silent _ _ _ _ _ _ Hcb Ht) in Hi'.
  apply (Hclean k'). by exists e'.
Qed.

(** The visit of a dirty entry whose element resolves: the notification,
    the render call, and then the callbacks, all with the resolved context;
    every callback that is in the set when the visit ends has been invoked;
    when a callback was invoked the deadline is 100 ms after the clock. *)
Lemma visit_invokes fuel i k e ee w w' :
  elementsDrawMap w !! i = Some (k, e) -> resolved host (k, e) = Some ee ->
  visit host fuel i w = Some (w', Normal) ->
  exists t,
    trace w' = trace w ++ EvPreRender k ee :: EvRender k ee (invalid w (oid ee)) :: t /\
    Forall (is_callback_of k ee) t /\
    (forall e' f,
       elementsDrawMap w' !! i = Some (k, e') -> f ∈ set_members (callbacks e') ->
       EvCallback k f ee ∈ t) /\
    (t <> [] -> rafStopTime w' = Some (now w' + rafStopMaxTime)).
Proof.
  intros Hi Hr. apply resolved_Some in Hr as (Hk & Hd & Hres).
  rewrite (visit_rendered host fuel i k e ee w Hi Hk Hd Hres).
  set (w2 := log _ (log _ w)).
  pose proof (run_script_trace host (drawImageSync host ee (invalid w (oid ee))) w2)
    as Ht3.
  pose proof (run_script_key host (drawImageSync host ee (invalid w (oid ee)))
                w2 i k (key_of_lookup w i k e Hi)) as Hk3.
  destruct (run_script host _ w2) as [w3 o3]. simpl in Ht3, Hk3.
  destruct o3; [|done].
  assert (Ht4 : trace (clear_at i w3) =
                trace w ++ [EvPreRender k ee; EvRender k ee (invalid w (oid ee))]).
  { simpl. rewrite Ht3. subst w2. simpl. by rewrite <- app_assoc. }
  destruct (elementsDrawMap (clear_at i w3) !! i) as [[k4 e4]|] eqn:Hi4.
  - assert (Hk4 : k4 = k).
    { assert (Hkk : keys (clear_at i w3) !! i = Some k)
        by (by rewrite clear_at_keys).
      apply key_of_lookup in Hi4. congruence. }
    subst k4.
    destruct (0 <? set_size (callbacks e4)) eqn:Hsz.
    + destruct (callbacks_forEach host fuel i ee 0 (clear_at i w3)) as [w5|] eqn:Hcb;
        [|done].
      intros [= <-].
      destruct (callbacks_forEach_invokes _ _ _ _ _ _ _ _ Hi4 Hcb)
        as (t & Ht & Hall & Hin).
      exists t. split; [simpl; by rewrite Ht, Ht4, <- app_assoc|].
      split; [done|]. split; [|done].
      intros e' f Hi' Hf. apply set_members_lookup in Hf as [p Hp].
      apply (Hin e' p f); [done|lia|done].
    + intros [= <-]. exists []. split; [done|]. split; [done|]. split; [|done].
      intros e' f Hi' Hf. rewrite Hi4 in Hi'. injection Hi' as <-.
      apply Nat.ltb_ge in Hsz. unfold set_size in Hsz.
      destruct (set_members (callbacks e4)); [by apply elem_of_nil in Hf|].
      simpl in Hsz. lia.
  - intros [= <-]. exists []. split; [done|]. split; [done|]. split; [|done].
    intros e' f Hi'. by rewrite Hi4 in Hi'.
Qed.

End Invoked.

(** ** The callbacks of a tick with settled collaborators *)


Section SettledInvokes.
Context (host : Host) (ks : list Element).
Hypothesis host_settled : settled_host ks host.

Lemma visit_settled_shape fuel i w w' o :
  keys w = ks -> visit host fuel i w = Some (w', o) ->
  shape (elementsDrawMap w') = shape (elementsDrawMap w).
Proof.
  destruct host_settled as [Hr Hc]. intros Hks.
  apply (visit_hinv host (settled_action ks)
           (fun w0 => shape (elementsDrawMap w0) = shape (elementsDrawMap w)));
    [done|done| | | | | |done].
  - intros a w0 Ha Hw0.
    destruct (run_action_settled host ks a w0) as [_ ->]; [|done|done].
    rewrite <- Hks. by apply keys_of_shape.
  - by intros.
  - by intros.
  - by intros.
  - intros k e ee w1 Hw1 _ _ _. by rewrite shape_clear_at.
Qed.

(** Settled collaborators only ever take callbacks out of a set. *)
Lemma run_action_shrinks a w i k e :
  settled_action ks a = true -> elementsDrawMap w !! i = Some (k, e) ->
  exists e', elementsDrawMap (run_action host a w).1 !! i = Some (k, e') /\
             forall f, f ∈ set_members (callbacks e') -> f ∈ set_members (callbacks e).
Proof.
  intros Ha.
  apply (run_action_entry_rel host
           (fun e0 e1 => forall f, f ∈ set_members (callbacks e1) ->
                                   f ∈ set_members (callbacks e0))).
  - by intros e0 f.
  - by intros _ e0 f.
  - intros el f ->. done.
  - intros el f _ e0 g. apply set_delete_members.
Qed.

Lemma map_forEach_shrinks fuel_cb fuel index i k (M : list nat) w w' o :
  i < index -> keys w = ks ->
  (exists e, elementsDrawMap w !! i = Some (k, e) /\
             forall f, f ∈ set_members (callbacks e) -> f ∈ M) ->
  map_forEach host fuel_cb fuel index w = Some (w', o) ->
  exists e', elementsDrawMap w' !! i = Some (k, e') /\
             forall f, f ∈ set_members (callbacks e') -> f ∈ M.
Proof.
  destruct host_settled as [Hr Hc]. intros Hlt Hks Hw Hrun.
  apply (map_forEach_hinv host (settled_action ks)
           (fun w0 => exists e', elementsDrawMap w0 !! i = Some (k, e') /\
                                 forall f, f ∈ set_members (callbacks e') -> f ∈ M))
    in Hrun; [done|done|done| | | | | |done].
  - intros a w0 Ha (e0 & Hi0 & Hm0).
    destruct (run_action_shrinks a w0 i k e0 Ha Hi0) as (e1 & Hi1 & Hm1).
    exists e1. split; [done|]. intros f Hf. apply Hm0. by apply Hm1.
  - by intros.
  - by intros.
  - by intros.
  - intros j kj ej ee w1 Hle (e1 & Hi1 & Hm1) _ _ _. exists e1. split; [|done].
    rewrite clear_at_lookup, Hi1. simpl. rewrite decide_False by lia. done.
Qed.

Lemma map_forEach_settled_invokes fuel_cb fuel index i k ee w wd :
  keys w = ks -> index <= i -> dirty_at i k w -> element_truthy k = true ->
  getEnabledElement host k = Some ee ->
  map_forEach host fuel_cb fuel index w = Some (wd, Normal) ->
  exists t, trace wd = trace w ++ t /\
    (exists flag, EvRender k ee flag ∈ t) /\
    forall e' f,
      elementsDrawMap wd !! i = Some (k, e') -> f ∈ set_members (callbacks e') ->
      EvCallback k f ee ∈ t.
Proof.
  intros Hks Hle Hw Hk Hres. revert index w Hks Hle Hw.
  induction fuel as [|fuel IH]; intros index w Hks Hle Hw; [done|].
  rewrite map_forEach_S.
  destruct (elementsDrawMap w !! index) as [ke|] eqn:Hix.
  - destruct (visit host fuel_cb index w) as [[w1 []]|] eqn:Hv; [|done|done].
    intros Hrest.
    pose proof (visit_settled_shape _ _ _ _ _ Hks Hv) as Hsh.
    assert (Hks1 : keys w1 = ks) by (rewrite <- Hks; by apply keys_of_shape).
    destruct (decide (index = i)) as [->|Hne].
    + destruct Hw as (e & Hi & Hd).
      destruct (visit_invokes host fuel_cb i k e ee w w1 Hi) as (t1 & Ht1 & _ & Hin & _);
        [by apply resolved_Some|done|].
      destruct (shape_lookup _ _ i k e Hsh Hi) as (e1 & Hi1 & _).
      destruct (map_forEach_shrinks fuel_cb fuel (S i) i k
                  (set_members (callbacks e1)) w1 wd Normal)
        as (e' & Hi' & Hm'); [lia|done|by exists e1|done|].
      destruct (map_forEach_trace host _ _ _ _ _ _ Hrest) as [t2 Ht2].
      exists ((EvPreRender k ee :: EvRender k ee (invalid w (oid ee)) :: t1) ++ t2).
      split; [by rewrite Ht2, Ht1, app_assoc|]. split.
      * exists (invalid w (oid ee)). apply elem_of_app. left.
        rewrite !elem_of_cons. auto.
      * intros e'' f Hi'' Hf. rewrite Hi' in Hi''. injection Hi'' as <-.
        apply elem_of_app. left. rewrite !elem_of_cons. right. right.
        apply (Hin e1 f Hi1). by apply Hm'.
    + destruct (visit_trace host _ _ _ _ _ Hv) as [t1 Ht1].
      destruct (IH (S index) w1) as (t2 & Hrt & Hrender & Hin); [done|lia| |done|].
      { apply (visit_keeps_dirty host fuel_cb index i k w w1 Normal); [lia|done|done]. }
      exists (t1 ++ t2). split; [by rewrite Hrt, Ht1, app_assoc|]. split.
      * destruct Hrender as [flag Hf]. exists flag. apply elem_of_app. by right.
      * intros e' f Hi' Hf. apply elem_of_app. right. by apply (Hin e' f).
  - destruct Hw as (e & Hj & _). apply lookup_ge_None_1 in Hix.
    apply lookup_lt_Some in Hj. lia.
Qed.

End SettledInvokes.

Section SettledCalls.
Context (host : Host) (ks : list Element).
Hypothesis host_settled : settled_host ks host.

(** With settled collaborators a tick invokes no callback that was not
    registered for its element when the tick began. *)
Lemma map_forEach_settled_calls fuel_cb fuel index w w' o :
  keys w = ks -> map_forEach host fuel_cb fuel index w = Some (w', o) ->
  exists t, trace w' = trace w ++ t /\
            Forall (registered_call host (elementsDrawMap w)) t.
Proof.
  destruct host_settled as [Hr Hc]. intros Hks Hrun.
  apply (map_forEach_hinv host (settled_action ks)
           (fun w0 =>
              shape (elementsDrawMap w0) = shape (elementsDrawMap w) /\
              (forall i k e0,
                 elementsDrawMap w0 !! i = Some (k, e0) ->
                 exists e, elementsDrawMap w !! i = Some (k, e) /\
                   forall f, f ∈ set_members (callbacks e0) ->
                             f ∈ set_members (callbacks e)) /\
              exists t, trace w0 = trace w ++ t /\
                        Forall (registered_call host (elementsDrawMap w)) t))
    in Hrun; [by destruct Hrun as (_ & _ & H)|done|done| | | | | |].
  - intros a w0 Ha (Hsh & Hent & Htr).
    destruct (run_action_settled host ks a w0) as [_ Hsh1]; [|done|].
    { rewrite <- Hks. by apply keys_of_shape. }
    split; [by rewrite Hsh1|]. split; [|by rewrite run_action_trace].
    intros i k e1 Hi1.
    destruct (shape_lookup _ (elementsDrawMap w0) i k e1 (eq_sym Hsh1) Hi1)
      as (e0 & Hi0 & _).
    destruct (run_action_shrinks host ks a w0 i k e0 Ha Hi0) as (e1' & Hi1' & Hm1).
    rewrite Hi1 in Hi1'. injection Hi1' as <-.
    destruct (Hent i k e0 Hi0) as (e & Hi & Hm). exists e. split; [done|].
    intros f Hf. apply Hm. by apply Hm1.
  - intros i k e ee w0 (Hsh & Hent & t & Ht & Hall) _ _ _ _.
    split; [done|]. split; [done|].
    exists (t ++ [EvPreRender k ee; EvRender k ee (invalid w0 (oid ee))]).
    simpl. rewrite Ht, <- !app_assoc. split; [done|].
    apply Forall_app. split; [done|]. by repeat constructor.
  - intros i k e0 f ee w0 (Hsh & Hent & t & Ht & Hall) Hi0 Hf Hres.
    split; [done|]. split; [done|]. exists (t ++ [EvCallback k f ee]).
    simpl. rewrite Ht, <- !app_assoc. split; [done|].
    apply Forall_app. split; [done|]. constructor; [|done].
    destruct (Hent i k e0 Hi0) as (e & Hi & Hm). exists i, e. auto.
  - by intros.
  - intros i k e ee w1 _ (Hsh & Hent & Htr) _ _ _.
    split; [by rewrite shape_clear_at|]. split; [|done].
    intros j kj ej. rewrite clear_at_lookup.
    destruct (elementsDrawMap w1 !! j) as [[k1 e1]|] eqn:Hj; [|done]. simpl.
    destruct (Hent j k1 e1 Hj) as (e0 & Hj0 & Hm0).
    destruct (decide (j = i)); intros [= <- <-]; by exists e0.
  - split; [done|]. split; [by eauto|]. exists []. by rewrite app_nil_r.
Qed.

End SettledCalls.

(** ** Dirty entries across ticks

    With collaborators that never call [drawImage] nothing sets a dirty
    flag during a tick, so that a tick that runs to its end leaves dirty
    only what it could not draw. *)

Lemma dirty_position w : dirty w <-> exists j k, dirty_at j k w.
Proof.
  unfold dirty, dirty_at, has_dirty. split.
  - intros H. apply existsb_exists in H as ([k e] & Hin & He).
    apply list_elem_of_In, list_elem_of_lookup_1 in Hin as [j Hj]. by exists j, k, e.
  - intros (j & k & e & Hj & He). apply existsb_exists. exists (k, e).
    split; [|done]. by apply list_elem_of_lookup_2, list_elem_of_In in Hj.
Qed.

Lemma map_update_lookup_back k0 g (m : DrawMap) i k e' :
  map_update k0 g m !! i = Some (k, e') ->
  exists e, m !! i = Some (k, e) /\ (e' = e \/ k = k0 /\ e' = g e).
Proof.
  revert i. induction m as [|[k1 e1] m IH]; intros i; simpl; [done|].
  destruct (decide (k1 = k0)) as [->|Hne]; destruct i as [|i]; simpl.
  - intros [= <- <-]. eauto.
  - eauto.
  - intros [= <- <-]. eauto.
  - apply IH.
Qed.

Lemma ensure_lookup_back k0 (m : DrawMap) i k e :
  (if map_has k0 m then m else map_set k0 fresh_entry m) !! i = Some (k, e) ->
  needsRedraw e = true -> m !! i = Some (k, e).
Proof.
  unfold map_set. destruct (map_has k0 m); [done|].
  intros [H|[_ H]]%lookup_app_Some Hd; [done|].
  apply list_lookup_singleton_Some in H as [_ [= <- <-]]. done.
Qed.

Lemma clear_at_dirty_back i j k w : dirty_at j k (clear_at i w) -> dirty_at j k w.
Proof.
  intros (e & Hj & He). rewrite clear_at_lookup in Hj.
  destruct (elementsDrawMap w !! j) as [[k1 e1]|] eqn:Hj1; [|done]. simpl in Hj.
  destruct (decide (j = i)); injection Hj as <- <-; [done|]. by exists e1.
Qed.

Section NonDrawing.
Context (host : Host).
Hypothesis host_nd : nondrawing_host host.

Lemma run_action_nodraw_dirty a w j k :
  nondrawing a = true -> dirty_at j k (run_action host a w).1 -> dirty_at j k w.
Proof.
  intros Ha (e' & Hj & He').
  destruct a as [a inv|el f|el f|dt|o b]; simpl in *; try done; try (by exists e').
  - unfold addDrawCallback in Hj. destruct (element_truthy el); [|by exists e'].
    simpl in Hj.
    assert (H : map_update el (fun e => with_callbacks (set_add f (callbacks e)) e)
                  (if map_has el (elementsDrawMap w) then elementsDrawMap w
                   else map_set el fresh_entry (elementsDrawMap w)) !! j
                = Some (k, e')).
    { by destruct (map_has el (elementsDrawMap w)). }
    apply map_update_lookup_back in H as (e & H & [->|[_ ->]]).
    + exists e. split; [|done]. by apply (ensure_lookup_back el).
    + exists e. split; [|done]. by apply (ensure_lookup_back el).
  - unfold removeDrawCallback in Hj. destruct (element_truthy el); [|by exists e'].
    simpl in Hj. destruct (map_get el (elementsDrawMap w)) as [e0|]; [|by exists e'].
    simpl in Hj. apply map_update_lookup_back in Hj as (e1 & H & [->|[_ ->]]);
      by exists e1.
Qed.

Lemma callbacks_forEach_nd_back fuel i k0 ee index w w' :
  getEnabledElement host k0 = Some ee -> keys w !! i = Some k0 ->
  callbacks_forEach host fuel i ee index w = Some w' ->
  forall j k, dirty_at j k w' -> dirty_at j k w.
Proof.
  destruct host_nd as [Hr Hc]. intros Hres Hk Hcb.
  refine (proj1 (callbacks_forEach_hinv host nondrawing
                   (fun w0 => forall j k, dirty_at j k w0 -> dirty_at j k w)
                   Hc _ _ fuel i k0 ee index w w' Hres Hk _ Hcb)).
  - intros a w0 Ha Hw0 j k Hd. apply Hw0. by apply (run_action_nodraw_dirty a).
  - intros ? ? ? ? ? w0 Hw0 _ _ _ j k Hd. by apply Hw0.
  - done.
Qed.

Lemma visit_nd_back fuel i w w' o :
  visit host fuel i w = Some (w', o) -> forall j k, dirty_at j k w' -> dirty_at j k w.
Proof.
  destruct host_nd as [Hr Hc].
  apply (visit_hinv host nondrawing
           (fun w0 => forall j k, dirty_at j k w0 -> dirty_at j k w));
    [done|done| | | | | |done].
  - intros a w0 Ha Hw0 j k Hd. apply Hw0. by apply (run_action_nodraw_dirty a).
  - intros ? ? ? ? w0 Hw0 _ _ _ _ j k Hd. by apply Hw0.
  - intros ? ? ? ? ? w0 Hw0 _ _ _ j k Hd. by apply Hw0.
  - intros w0 Hw0 j k Hd. by apply Hw0.
  - intros k e ee w1 Hw1 _ _ _ j kj Hd. apply Hw1. by apply (clear_at_dirty_back i).
Qed.

Lemma map_forEach_nd_back fuel_cb fuel index w w' o :
  map_forEach host fuel_cb fuel index w = Some (w', o) ->
  forall j k, dirty_at j k w' -> dirty_at j k w.
Proof.
  destruct host_nd as [Hr Hc].
  apply (map_forEach_hinv host nondrawing
           (fun w0 => forall j k, dirty_at j k w0 -> dirty_at j k w));
    [done|done| | | | | |done].
  - intros a w0 Ha Hw0 j k Hd. apply Hw0. by apply (run_action_nodraw_dirty a).
  - intros ? ? ? ? w0 Hw0 _ _ _ _ j k Hd. by apply Hw0.
  - intros ? ? ? ? ? w0 Hw0 _ _ _ j k Hd. by apply Hw0.
  - intros w0 Hw0 j k Hd. by apply Hw0.
  - intros i k e ee w1 _ Hw1 _ _ _ j kj Hd. apply Hw1.
    by apply (clear_at_dirty_back i).
Qed.

(** The visit of an entry leaves it clean, when every dirty entry belongs
    to a node that resolves. *)
Lemma visit_nd_clears fuel i w w' :
  dirty_resolve host w -> visit host fuel i w = Some (w', Normal) ->
  forall k, ~ dirty_at i k w'.
Proof.
  intros Hdr Hv k Hd'.
  pose proof (visit_nd_back fuel i w w' Normal Hv i k Hd') as (e & Hi & Hd).
  destruct (Hdr i k e Hi Hd) as [Hk [ee Hres]].
  rewrite (visit_rendered host fuel i k e ee w Hi Hk Hd Hres) in Hv.
  set (w2 := log _ (log _ w)) in Hv.
  pose proof (run_script_key host (drawImageSync host ee (invalid w (oid ee)))
                w2 i k (key_of_lookup w i k e Hi)) as Hk3.
  destruct (run_script host _ w2) as [w3 o3]. simpl in Hk3.
  destruct o3; [|done].
  assert (Hclean : forall k1, ~ dirty_at i k1 (clear_at i w3)).
  { intros k1 (e1 & H1 & Hd1). rewrite clear_at_lookup in H1.
    destruct (elementsDrawMap w3 !! i) as [[k3 e3]|]; [|done]. simpl in H1.
    rewrite decide_True in H1 by done. by injection H1 as <- <-. }
  assert (Hk4 : keys (clear_at i w3) !! i = Some k) by (by rewrite clear_at_keys).
  destruct (elementsDrawMap (clear_at i w3) !! i) as [[k4 e4]|];
    [|injection Hv as <-; by apply (Hclean k)].
  destruct (0 <? set_size (callbacks e4)); [|injection Hv as <-; by apply (Hclean k)].
  destruct (callbacks_forEach host fuel i ee 0 (clear_at i w3)) as [w5|] eqn:Hcb;
    [|done].
  injection Hv as <-. apply (Hclean k).
  apply (callbacks_forEach_nd_back fuel i k ee 0 (clear_at i w3) w5 Hres Hk4 Hcb).
  destruct Hd' as (e' & He' & Hd''). by exists e'.
Qed.

(** A tick that runs to its end leaves no entry dirty. *)
Lemma map_forEach_nd_clean fuel_cb fuel index w wd :
  dirty_resolve host w -> (forall j k, j < index -> ~ dirty_at j k w) ->
  map_forEach host fuel_cb fuel index w = Some (wd, Normal) -> ~ dirty wd.
Proof.
  revert index w. induction fuel as [|fuel IH]; intros index w Hdr Hclean; [done|].
  rewrite map_forEach_S.
  destruct (elementsDrawMap w !! index) as [ke|] eqn:Hix.
  - destruct (visit host fuel_cb index w) as [[w1 []]|] eqn:Hv; [|done|done].
    apply IH.
    + intros j k e Hj Hd.
      destruct (visit_nd_back fuel_cb index w w1 Normal Hv j k) as (e0 & Hj0 & Hd0);
        [by exists e|]. by apply (Hdr j k e0).
    + intros j k Hlt Hd. destruct (decide (j = index)) as [->|Hne].
      * by apply (visit_nd_clears fuel_cb index w w1 Hdr Hv k).
      * apply (Hclean j k); [lia|].
        by apply (visit_nd_back fuel_cb index w w1 Normal Hv).
  - intros [= <-] (j & k & e & Hj & Hd)%dirty_position.
    apply lookup_ge_None_1 in Hix. apply lookup_lt_Some in Hj as Hlt.
    apply (Hclean j k); [lia|]. by exists e.
Qed.

(** What such a tick leaves dirty was dirty before and could not be drawn:
    its element is not a node, or does not resolve. *)
Lemma visit_nd_leftover fuel i k w w' :
  visit host fuel i w = Some (w', Normal) -> dirty_at i k w' ->
  dirty_at i k w /\ (element_truthy k = false \/ getEnabledElement host k = None).
Proof.
  intros Hv Hd'.
  pose proof (visit_nd_back fuel i w w' Normal Hv i k Hd') as Hd.
  split; [done|]. destruct Hd as (e & Hi & Hd).
  destruct (element_truthy k) eqn:Hk; [|by left].
  destruct (getEnabledElement host k) as [ee|] eqn:Hres; [|by right].
  exfalso.
  rewrite (visit_rendered host fuel i k e ee w Hi Hk Hd Hres) in Hv.
  set (w2 := log _ (log _ w)) in Hv.
  pose proof (run_script_key host (drawImageSync host ee (invalid w (oid ee)))
                w2 i k (key_of_lookup w i k e Hi)) as Hk3.
  destruct (run_script host _ w2) as [w3 o3]. simpl in Hk3.
  destruct o3; [|done].
  assert (Hclean : forall k1, ~ dirty_at i k1 (clear_at i w3)).
  { intros k1 (e1 & H1 & Hd1). rewrite clear_at_lookup in H1.
    destruct (elementsDrawMap w3 !! i) as [[k3 e3]|]; [|done]. simpl in H1.
    rewrite decide_True in H1 by done. by injection H1 as <- <-. }
  assert (Hk4 : keys (clear_at i w3) !! i = Some k) by (by rewrite clear_at_keys).
  destruct (elementsDrawMap (clear_at i w3) !! i) as [[k4 e4]|];
    [|injection Hv as <-; by apply (Hclean k)].
  destruct (0 <? set_size (callbacks e4)); [|injection Hv as <-; by apply (Hclean k)].
  destruct (callbacks_forEach host fuel i ee 0 (clear_at i w3)) as [w5|] eqn:Hcb;
    [|done].
  injection Hv as <-. apply (Hclean k).
  apply (callbacks_forEach_nd_back fuel i k ee 0 (clear_at i w3) w5 Hres Hk4 Hcb).
  destruct Hd' as (e' & He' & Hd''). by exists e'.
Qed.

Lemma map_forEach_nd_leftover fuel_cb fuel index w wd :
  map_forEach host fuel_cb fuel index w = Some (wd, Normal) ->
  forall j k, index <= j -> dirty_at j k wd ->
    dirty_at j k w /\ (element_truthy k = false \/ getEnabledElement host k = None).
Proof.
  revert index w. induction fuel as [|fuel IH]; intros index w; [done|].
  rewrite map_forEach_S.
  destruct (elementsDrawMap w !! index) as [ke|] eqn:Hix.
  - destruct (visit host fuel_cb index w) as [[w1 []]|] eqn:Hv; [|done|done].
    intros Hrest j k Hle Hd. destruct (decide (j = index)) as [->|Hne].
    + apply (visit_nd_leftover fuel_cb index k w w1 Hv).
      by apply (map_forEach_nd_back fuel_cb fuel (S index) w1 wd Normal Hrest).
    + destruct (IH (S index) w1 Hrest j k) as [Hd1 Hwhy]; [lia|done|].
      split; [|done]. by apply (visit_nd_back fuel_cb index w w1 Normal Hv).
  - intros [= <-] j k Hle (e & Hj & _).
    apply lookup_ge_None_1 in Hix. apply lookup_lt_Some in Hj. lia.
Qed.

Lemma run_actions_nodraw_normal l w :
  forallb nondrawing l = true -> (run_actions host l w).2 = Normal.
Proof.
  revert w. induction l as [|a l IH]; intros w; simpl; [done|].
  intros [Ha Hl]%andb_prop.
  assert (Ho : (run_action host a w).2 = Normal) by (by destruct a).
  destruct (run_action host a w) as [w1 o1]. simpl in Ho. subst o1. by apply IH.
Qed.

(** Such a tick raises only if the render routine does. *)
Lemma visit_nd_normal fuel i w w' o :
  render_returns host -> visit host fuel i w = Some (w', o) -> o = Normal.
Proof.
  destruct host_nd as [Hr _]. intros Hret. unfold visit.
  destruct (elementsDrawMap w !! i) as [[k e]|]; [|by intros [= _ <-]].
  destruct (negb (element_truthy k) || negb (needsRedraw e)); [by intros [= _ <-]|].
  destruct (getEnabledElement host k) as [ee|]; [|by intros [= _ <-]].
  set (s := drawImageSync host ee _). set (w2 := log _ (log _ w)).
  pose proof (run_actions_nodraw_normal (actions s) w2 (Hr _ _)) as Ho.
  unfold run_script. destruct (run_actions host (actions s) w2) as [w3 o3].
  simpl in Ho. subst o3. subst s. rewrite Hret.
  destruct (_ !! i) as [[k4 e4]|]; [|by intros [= _ <-]].
  destruct (0 <? set_size (callbacks e4)); [|by intros [= _ <-]].
  destruct (callbacks_forEach _ _ _ _ _ _); [|done]. by intros [= _ <-].
Qed.

Lemma map_forEach_nd_normal fuel_cb fuel index w w' o :
  render_returns host -> map_forEach host fuel_cb fuel index w = Some (w', o) ->
  o = Normal.
Proof.
  intros Hret. revert index w. induction fuel as [|fuel IH]; intros index w; [done|].
  rewrite map_forEach_S. destruct (elementsDrawMap w !! index); [|by intros [= _ <-]].
  destruct (visit host fuel_cb index w) as [[w1 o1]|] eqn:Hv; [|done].
  rewrite (visit_nd_normal _ _ _ _ _ Hret Hv). apply IH.
Qed.

End NonDrawing.

(** ** Dirty entries and the request, tick after tick *)

Lemma hidden_listeners (l : list HiddenProperty) w :
  rafId w = None ->
  rafId (foldl (fun w0 _ => visibility_listener true w0) w l) = None.
Proof.
  revert w. induction l as [|p l IH]; intros w Hw; cbn [foldl]; [done|].
  apply IH. unfold visibility_listener. apply stopRaf_effect.
Qed.

(** Hiding the page clears [rafId], whatever the table holds. *)
Lemma visibilitychange_hidden w :
  listeners w <> [] ->
  rafId (visibilitychange true w) = None /\
  elementsDrawMap (visibilitychange true w) = elementsDrawMap w.
Proof.
  intros Hl. split; [|apply visibilitychange_map].
  unfold visibilitychange. destruct (listeners w) as [|p l]; [done|]. cbn [foldl].
  apply hidden_listeners. unfold visibility_listener. apply stopRaf_effect.
Qed.

Lemma visibility_listener_outstanding hidden w :
  request_outstanding (visibility_listener hidden w).
Proof.
  unfold request_outstanding, visibility_listener.
  destruct (stopRaf_effect w) as [Hr _]. revert Hr.
  generalize (stopRaf w) as w1. intros w1 Hr. destruct hidden; simpl.
  - by rewrite Hr.
  - intros _. by destruct (pending w1).
Qed.

Lemma visibilitychange_outstanding hidden w :
  request_outstanding w -> request_outstanding (visibilitychange hidden w).
Proof.
  unfold visibilitychange. generalize (listeners w) as l. intros l. revert w.
  induction l as [|p l IH]; intros w Hw; cbn [foldl]; [done|].
  apply IH, visibility_listener_outstanding.
Qed.

Section Promises.
Context (host : Host).
Hypothesis host_nd : nondrawing_host host.

Lemma drawImage_dirty_resolve ee inv w :
  drawImage_rejects (Some ee) = Some false -> element_truthy (element ee) = true ->
  is_Some (getEnabledElement host (element ee)) ->
  dirty_resolve host w -> dirty_resolve host (drawImage host (Some ee) inv w).1.
Proof.
  intros Hacc Hk Hres Hdr i k e Hi Hd.
  rewrite drawImage_accepted_map in Hi by done.
  apply map_update_lookup_back in Hi as (e1 & Hi & [->|[-> ->]]); [|done].
  apply (Hdr i k e1); [|done]. by apply (ensure_lookup_back (element ee)).
Qed.

Lemma step_nd_scheduled fuel w w' o :
  step host fuel w = Some (w', o) ->
  dirty_resolve host w /\ dirty_scheduled w ->
  dirty_resolve host w' /\ dirty_scheduled w'.
Proof.
  intros Hs [Hdr Hds]. unfold step in Hs.
  destruct (drain host fuel w) as [[wd od]|] eqn:Hd; [|done].
  assert (Hback : forall j k, dirty_at j k wd -> dirty_at j k w)
    by (by apply (map_forEach_nd_back host host_nd fuel fuel 0 w wd od)).
  destruct od.
  - assert (Hclean : ~ dirty wd).
    { apply (map_forEach_nd_clean host host_nd fuel fuel 0 w wd); [done| |done].
      intros j k Hlt. lia. }
    assert (Hm : elementsDrawMap w' = elementsDrawMap wd).
    { destruct (keep_running wd); injection Hs as <-; [done|]. apply stopRaf_frame. }
    split.
    + intros i k e Hi He. destruct Hclean. apply dirty_position. exists i, k, e.
      by rewrite <- Hm.
    + intros Hd'. destruct Hclean. unfold dirty in *. by rewrite <- Hm.
  - injection Hs as <-. split.
    + intros i k e Hi He. destruct (Hback i k) as (e0 & Hi0 & He0); [by exists e|].
      by apply (Hdr i k e0).
    + intros Hd'. apply dirty_position in Hd' as (j & k & Hjk).
      assert (Ht : truthy (rafId w) = true).
      { apply Hds, dirty_position. exists j, k. by apply Hback. }
      by destruct (drain_keeps_request host fuel w wd Throw Ht Hd) as (-> & _).
Qed.

Lemma react_nd_scheduled i w w' :
  resolvable_input host i = true -> react host i w = Some w' ->
  dirty_resolve host w /\ dirty_scheduled w ->
  dirty_resolve host w' /\ dirty_scheduled w'.
Proof.
  intros Hin Hr [Hdr Hds].
  assert (Hsame : elementsDrawMap w' = elementsDrawMap w -> dirty_resolve host w').
  { intros Hm i0 k e. rewrite Hm. apply Hdr. }
  destruct i as [a inv|el f|el f|hidden|fuel|dt].
  - split; [|by apply (react_keeps_schedule host (InDrawImage a inv) w)].
    simpl in Hr. injection Hr as <-.
    destruct (drawImage_rejects a) as [[]|] eqn:Hrej.
    + apply Hsame. rewrite drawImage_rejected by congruence. simpl.
      apply registerVisibilityChange_map.
    + destruct a as [ee|]; [|done]. cbn [resolvable_input] in Hin.
      rewrite Hrej in Hin.
      apply andb_prop in Hin as [Hk Hres].
      apply drawImage_dirty_resolve; try done.
      by destruct (getEnabledElement host (element ee)).
    + apply Hsame. rewrite drawImage_rejected by congruence. simpl.
      apply registerVisibilityChange_map.
  - split; [|by apply (react_keeps_schedule host (InAddDrawCallback el f) w)].
    simpl in Hr. injection Hr as <-. intros i k e Hi He.
    destruct (run_action_nodraw_dirty host (AAddDrawCallback el f) w i k)
      as (e0 & Hi0 & He0); [done|by exists e|]. by apply (Hdr i k e0).
  - split; [|by apply (react_keeps_schedule host (InRemoveDrawCallback el f) w)].
    simpl in Hr. injection Hr as <-. intros i k e Hi He.
    destruct (run_action_nodraw_dirty host (ARemoveDrawCallback el f) w i k)
      as (e0 & Hi0 & He0); [done|by exists e|]. by apply (Hdr i k e0).
  - destruct hidden; [done|].
    split; [|by apply (react_keeps_schedule host (InVisibility false) w)].
    simpl in Hr. injection Hr as <-. apply Hsame, visibilitychange_map.
  - simpl in Hr. unfold frame in Hr.
    destruct (pending w) as [|id rest]; [by injection Hr as <-|].
    destruct (step host fuel (with_pending rest w)) as [[w1 o]|] eqn:Hs; [|done].
    injection Hr as <-. by apply (step_nd_scheduled fuel (with_pending rest w) w1 o).
  - simpl in Hr. injection Hr as <-. done.
Qed.

Lemma run_nd_scheduled l w w' :
  forallb (resolvable_input host) l = true -> run host l w = Some w' ->
  dirty_resolve host w /\ dirty_scheduled w ->
  dirty_resolve host w' /\ dirty_scheduled w'.
Proof.
  revert w. induction l as [|i l IH]; intros w; simpl; [by intros _ [= <-]|].
  intros [Hi Hl]%andb_prop. destruct (react host i w) as [w1|] eqn:Hr; [|done].
  intros Hrun Hw. apply (IH w1); [done|done|]. by apply (react_nd_scheduled i w).
Qed.

Lemma react_nd_outstanding i w w' :
  render_returns host -> react host i w = Some w' ->
  request_outstanding w -> request_outstanding w'.
Proof.
  intros Hret Hr Hw. unfold request_outstanding in *.
  destruct i as [a inv|el f|el f|hidden|fuel|dt]; simpl in Hr.
  - injection Hr as <-. destruct (drawImage_rejects a) as [[]|] eqn:Hrej.
    + rewrite drawImage_rejected by congruence. simpl.
      by destruct (registerVisibilityChange_frame host w) as (_ & -> & _ & _ & -> & _).
    + destruct a as [ee|]; [|done].
      destruct (drawImage_accepted_request host ee inv w Hrej) as [_ H].
      destruct (truthy (rafId w)) eqn:Ht.
      * destruct H as (-> & _ & ->). rewrite Ht. auto.
      * destruct H as (_ & _ & ->). intros _. by destruct (pending w).
    + rewrite drawImage_rejected by congruence. simpl.
      by destruct (registerVisibilityChange_frame host w) as (_ & -> & _ & _ & -> & _).
  - injection Hr as <-.
    by destruct (addDrawCallback_schedule el f w) as (_ & -> & _ & -> & _).
  - injection Hr as <-.
    by destruct (removeDrawCallback_schedule el f w) as (_ & -> & _ & -> & _).
  - injection Hr as <-. by apply visibilitychange_outstanding.
  - unfold frame in Hr. destruct (pending w) as [|id rest] eqn:Hp.
    + injection Hr as <-. by rewrite Hp.
    + destruct (step host fuel (with_pending rest w)) as [[w1 o]|] eqn:Hs; [|done].
      injection Hr as <-. unfold step in Hs.
      destruct (drain host fuel (with_pending rest w)) as [[wd od]|] eqn:Hd; [|done].
      pose proof (map_forEach_nd_normal host host_nd _ _ _ _ _ _ Hret Hd) as ->.
      destruct (keep_running wd); injection Hs as <- <-.
      * intros _. simpl. by destruct (pending wd).
      * destruct (stopRaf_effect wd) as [-> _]. done.
  - by injection Hr as <-.
Qed.

Lemma run_nd_outstanding l w w' :
  render_returns host -> run host l w = Some w' ->
  request_outstanding w -> request_outstanding w'.
Proof.
  intros Hret. revert w. induction l as [|i l IH]; intros w; simpl; [by intros [= <-]|].
  destruct (react host i w) as [w1|] eqn:Hr; [|done].
  intros Hrun Hw. apply (IH w1); [done|]. by apply (react_nd_outstanding i w).
Qed.

End Promises.

(** ** The dormant loop *)

Section Dormant.
Context (host : Host).

Lemma drawImage_wakes ee inv w :
  rafId w = None -> pending w = [] -> drawImage_rejects (Some ee) = Some false ->
  let w' := (drawImage host (Some ee) inv w).1 in
  rafId w' = Some (S (raf_calls w)) /\ pending w' = [S (raf_calls w)] /\
  raf_calls w' = S (raf_calls w) /\ rafStopTime w' = Some (now w + rafStopMaxTime).
Proof.
  intros Hr Hp Hacc. destruct (drawImage_accepted_request host ee inv w Hacc) as [Hs H].
  rewrite Hr in H. cbn [truthy] in H. rewrite Hp in H. destruct H as (H1 & H2 & H3).
  done.
Qed.

Lemma visibilitychange_wakes p w :
  rafId w = None -> pending w = [] -> listeners w = [p] ->
  let w' := visibilitychange false w in
  rafId w' = Some (S (raf_calls w)) /\ pending w' = [S (raf_calls w)] /\
  raf_calls w' = S (raf_calls w) /\ rafStopTime w' = Some (now w + rafStopMaxTime).
Proof.
  intros Hr Hp Hl. unfold visibilitychange. rewrite Hl. cbn [foldl].
  assert (Hw : single_request w) by (by left).
  by destruct (visibility_listener_effect false w Hw) as (_ & _ & _ & H).
Qed.

(** From the dormant state every sequence of inputs without an accepted
    [drawImage] and without a change to visible is accepted and leaves the
    loop dormant: no request is made, whatever ticks the browser still
    delivers. *)
Lemma run_dormant l w :
  rafId w = None -> pending w = [] -> forallb (fun i => negb (wakes i)) l = true ->
  exists w', run host l w = Some w' /\
    rafId w' = None /\ pending w' = [] /\ raf_calls w' = raf_calls w.
Proof.
  revert w. induction l as [|i l IH]; intros w Hr Hp; simpl; [by exists w|].
  intros [Hi Hl]%andb_prop. apply negb_true_iff in Hi.
  assert (Hsome : exists w1, react host i w = Some w1).
  { destruct i; simpl; eauto. unfold frame. rewrite Hp. simpl. eauto. }
  destruct Hsome as [w1 Hw1]. rewrite Hw1.
  pose proof (react_dormant host i w w1 Hr Hp Hw1) as H. rewrite Hi in H.
  destruct H as (Hr1 & Hp1 & Hc1).
  destruct (IH w1 Hr1 Hp1 Hl) as (w' & Hrun & Hr' & Hp' & Hc').
  exists w'. split; [done|]. split; [done|]. split; [done|]. congruence.
Qed.

End Dormant.


(** ** The request handle during a tick, and redraws asked for meanwhile *)

Lemma step_decides_total host fuel w wd :
  drain host fuel w = Some (wd, Normal) ->
  exists w',
    step host fuel w = Some (w', Normal) /\
    elementsDrawMap w' = elementsDrawMap wd /\ trace w' = trace wd /\
    rafStopTime w' = rafStopTime wd /\ truthy (rafId w') = keep_running wd /\
    (deadline_ahead wd ->
       rafId w' = Some (S (raf_calls wd)) /\
       pending w' = pending wd ++ [S (raf_calls wd)] /\
       raf_calls w' = S (raf_calls wd)) /\
    (~ deadline_ahead wd ->
       w' = stopRaf wd /\ rafId w' = None /\ raf_calls w' = raf_calls wd /\
       forall id, id ∈ pending w' -> id ∈ pending wd).
Proof.
  intros Hd. rewrite (step_of_drain host fuel w wd Hd).
  pose proof (keep_running_ahead wd) as Hka.
  destruct (stopRaf_frame wd) as (Hm & Hs & _ & _ & Ht & _).
  destruct (stopRaf_effect wd) as (Hr & Hc & Hp).
  destruct (keep_running wd); eexists; (split; [reflexivity|]).
  - split; [done|]. split; [done|]. split; [done|]. split; [done|].
    split; [done|]. intros Hn. destruct Hn. by apply Hka.
  - split; [done|]. split; [done|]. split; [done|]. split; [by rewrite Hr|].
    split; [|done]. intros Ha. apply Hka in Ha. discriminate.
Qed.

Lemma drain_fuel_shape (m m' : DrawMap) :
  shape m' = shape m -> drain_fuel m' = drain_fuel m.
Proof.
  intros Hs. unfold drain_fuel. rewrite <- (shape_length m'), Hs, shape_length.
  f_equal. generalize (length m) as n. intros n.
  assert (H : forall m0 : DrawMap,
            foldr (fun ke n0 => max (length (callbacks ke.2)) n0) n m0 =
            foldr (fun kn n0 => max kn.2 n0) n (shape m0)).
  { induction m0 as [|ke m0 IH]; csimpl; [done|]. by rewrite IH. }
  by rewrite !H, Hs.
Qed.

(** With settled collaborators, what a tick that arms the next request
    leaves dirty is rendered by the next tick. *)
Lemma next_tick_serves host fuel w j k ee :
  settled_host (keys w) host -> render_returns host ->
  drain_fuel (elementsDrawMap w) <= fuel ->
  element_truthy k = true -> getEnabledElement host k = Some ee ->
  exists wd w1,
    drain host fuel w = Some (wd, Normal) /\ step host fuel w = Some (w1, Normal) /\
    (dirty_at j k wd -> keep_running wd = true ->
     exists w2 t flag,
       frame host fuel w1 = Some (w2, Normal) /\ trace w2 = trace w1 ++ t /\
       EvRender k ee flag ∈ t).
Proof.
  intros Hset Hret Hfuel Hk Hres.
  destruct (drain_settled host fuel w Hset Hret Hfuel) as (wd & Hd & Hsh).
  exists wd, (if keep_running wd then arm wd else stopRaf wd).
  split; [done|]. split; [by apply step_of_drain|]. intros Hdirty ->.
  assert (Hp : exists p0 rest, pending (arm wd) = p0 :: rest).
  { simpl. destruct (pending wd); simpl; eauto. }
  destruct Hp as (p0 & rest & Hp). unfold frame. rewrite Hp.
  set (w1 := with_pending rest (arm wd)).
  assert (Hset1 : settled_host (keys w1) host).
  { change (keys w1) with (keys wd). by rewrite (keys_of_shape w wd). }
  assert (Hfuel1 : drain_fuel (elementsDrawMap w1) <= fuel).
  { change (elementsDrawMap w1) with (elementsDrawMap wd).
    by rewrite (drain_fuel_shape _ _ Hsh). }
  destruct (drain_settled host fuel w1 Hset1 Hret Hfuel1) as (wd2 & Hd2 & _).
  destruct (map_forEach_serves host fuel fuel 0 j k ee w1 wd2) as (t & flag & Ht & Hin);
    [lia|done|done|done|done|].
  destruct (step_decides_total host fuel w1 wd2 Hd2) as (w2 & Hs2 & _ & Ht2 & _).
  exists w2, t, flag. split; [done|]. split; [|done]. by rewrite Ht2, Ht.
Qed.

(** With settled collaborators the loop does get as far as an entry it
    has not reached yet. *)
Lemma map_forEach_settled_serves host fuel index j k ee w :
  settled_host (keys w) host -> render_returns host ->
  drain_fuel (elementsDrawMap w) <= fuel ->
  index <= j -> dirty_at j k w -> element_truthy k = true ->
  getEnabledElement host k = Some ee ->
  exists wd t flag,
    map_forEach host fuel fuel index w = Some (wd, Normal) /\
    trace wd = trace w ++ t /\ EvRender k ee flag ∈ t.
Proof.
  intros Hset Hret Hfuel Hle Hd Hk Hres.
  destruct (drain_fuel_enough _ _ Hfuel) as [Hlen Hall].
  destruct fuel as [|n]; [lia|].
  destruct (map_forEach_settled host (keys w) Hset (S n) n index w) as (wd & Hrun & _);
    [done|done| |lia|].
  { unfold shape. apply Forall_fmap. by apply (Forall_impl _ _ _ Hall). }
  destruct (map_forEach_serves host (S n) (S n) index j k ee w wd)
    as (t & flag & Ht & Hin); try done.
  by exists wd, t, flag.
Qed.

(** C2, as stated, fails.  Node 1 is dirty and has one callback, which calls
    [drawImage] for node 1 again; request 1 has just fired.  When the drain
    is over the callback has run and the entry is dirty again, yet [rafId]
    is still the handle of the request that fired, and the call made from
    inside the callback has armed nothing.  Nor is a redraw asked for from
    inside a callback always deferred to a later tick: in a page whose
    callbacks ask for a redraw of node 2, the entry of node 2 is appended
    to the table while the entry of node 1 is processed, and the same drain
    goes on to render it. *)
Lemma drain_entered_with_stale_handle :
  run redrawing_host
    [InAddDrawCallback (ElNode 1) 7; InDrawImage (Some ee1) false]
    (initial all_clear) = Some (with_pending [1] tick_world) /\
  rafId tick_world = Some 1 /\
  (exists wd,
     drain redrawing_host 3 tick_world = Some (wd, Normal) /\
     trace wd = [EvPreRender (ElNode 1) ee1; EvRender (ElNode 1) ee1 false;
                 EvCallback (ElNode 1) 7 ee1] /\
     map_get (ElNode 1) (elementsDrawMap wd) =
       Some {| needsRedraw := true; callbacks := [Some 7] |} /\
     rafId wd = Some 1 /\ raf_calls wd = 1 /\ pending wd = []) /\
  (fun w => (trace w, has_dirty (elementsDrawMap w), raf_calls w)) <$>
    run forwarding_host
      [InAddDrawCallback (ElNode 1) 7; InDrawImage (Some ee1) false; InFrame 3]
      (initial all_clear)
  = Some ([EvPreRender (ElNode 1) ee1; EvRender (ElNode 1) ee1 false;
           EvCallback (ElNode 1) 7 ee1;
           EvPreRender (ElNode 2) ee2; EvRender (ElNode 2) ee2 false], false, 2).
Proof.
  split; [vm_compute; reflexivity|]. split; [vm_compute; reflexivity|].
  split; [|vm_compute; reflexivity].
  eexists. split; [vm_compute; reflexivity|].
  repeat split; vm_compute; reflexivity.
Qed.

(** C2, amended.  [step] does not clear [rafId] before it processes the
    entries.  When [rafId] is a live handle on entry, every call made by
    foreign code during the tick leaves [rafId] and the outstanding
    requests as they are, and so does the drain as a whole; a [drawImage]
    made during the tick arms nothing: it marks the entry of its element
    dirty and puts the deadline 100 ms after the clock.  When the drain is
    over, [step] itself makes the request for the next tick if the deadline
    is still ahead, and otherwise clears [rafId]; with settled
    collaborators and a render routine that returns the tick does get that
    far.  What becomes of a redraw asked for during the tick depends on the
    position of its entry.  No callback can clear a dirty flag; an entry
    that the loop has passed (the one whose callbacks are running, or an
    earlier one) stays dirty until the drain is over and is not rendered
    again in this tick: it waits for the next one.  An entry that the loop
    has not reached yet is rendered in this very tick, if the tick gets
    that far, as it does with settled collaborators and a render routine
    that returns.  With such collaborators, what a tick that arms the next
    request leaves dirty is rendered by the next tick.  The flag of an
    entry is cleared when its render call has returned: a redraw that the
    render routine asks for the element it is drawing is dropped, unless a
    callback of that visit asks again. *)
Theorem step_rearms_after_drain (host : Host) (fuel : nat) (w : World) :
  truthy (rafId w) = true ->
  (forall a,
     let w' := (run_action host a w).1 in
     rafId w' = rafId w /\ raf_calls w' = raf_calls w /\ pending w' = pending w) /\
  (forall ee inv,
     drawImage_rejects (Some ee) = Some false ->
     let w' := (run_action host (ADrawImage (Some ee) inv) w).1 in
     (exists j, dirty_at j (element ee) w') /\
     rafStopTime w' = Some (now w + 100)) /\
  (forall wd o,
     drain host fuel w = Some (wd, o) ->
     rafId wd = rafId w /\ raf_calls wd = raf_calls w /\ pending wd = pending w) /\
  (forall wd,
     drain host fuel w = Some (wd, Normal) ->
     exists w',
       step host fuel w = Some (w', Normal) /\
       elementsDrawMap w' = elementsDrawMap wd /\
       if keep_running wd
       then rafId w' = Some (S (raf_calls w)) /\
            pending w' = pending w ++ [S (raf_calls w)] /\
            raf_calls w' = S (raf_calls w)
       else rafId w' = None /\ raf_calls w' = raf_calls w) /\
  (settled_host (keys w) host -> render_returns host ->
   drain_fuel (elementsDrawMap w) <= fuel ->
   exists wd w',
     drain host fuel w = Some (wd, Normal) /\ step host fuel w = Some (w', Normal) /\
     if keep_running wd
     then rafId w' = Some (S (raf_calls w)) /\
          pending w' = pending w ++ [S (raf_calls w)]
     else rafId w' = None) /\
  (forall fuel_cb i ee index j k w1 w2,
     dirty_at j k w1 -> callbacks_forEach host fuel_cb i ee index w1 = Some w2 ->
     dirty_at j k w2) /\
  (forall fuel_cb n index j k w1 wd o,
     j < index -> dirty_at j k w1 ->
     map_forEach host fuel_cb n index w1 = Some (wd, o) ->
     dirty_at j k wd /\
     (map_of_sets w1 ->
      exists t, trace wd = trace w1 ++ t /\ List.filter (is_render_of k) t = [])) /\
  (forall fuel_cb n index j k ee w1 wd,
     index <= j -> dirty_at j k w1 -> element_truthy k = true ->
     getEnabledElement host k = Some ee ->
     map_forEach host fuel_cb n index w1 = Some (wd, Normal) ->
     exists t flag, trace wd = trace w1 ++ t /\ EvRender k ee flag ∈ t) /\
  (forall fuel0 index j k ee w1,
     settled_host (keys w1) host -> render_returns host ->
     drain_fuel (elementsDrawMap w1) <= fuel0 ->
     index <= j -> dirty_at j k w1 -> element_truthy k = true ->
     getEnabledElement host k = Some ee ->
     exists wd t flag,
       map_forEach host fuel0 fuel0 index w1 = Some (wd, Normal) /\
       trace wd = trace w1 ++ t /\ EvRender k ee flag ∈ t) /\
  (forall j k ee,
     settled_host (keys w) host -> render_returns host ->
     drain_fuel (elementsDrawMap w) <= fuel ->
     element_truthy k = true -> getEnabledElement host k = Some ee ->
     exists wd w1,
       drain host fuel w = Some (wd, Normal) /\
       step host fuel w = Some (w1, Normal) /\
       (dirty_at j k wd -> keep_running wd = true ->
        exists w2 t flag,
          frame host fuel w1 = Some (w2, Normal) /\ trace w2 = trace w1 ++ t /\
          EvRender k ee flag ∈ t)) /\
  (forall i k e ee w1 w2,
     elementsDrawMap w1 !! i = Some (k, e) -> resolved host (k, e) = Some ee ->
     visit host fuel i w1 = Some (w2, Normal) ->
     trace w2 =
       trace w1 ++ [EvPreRender k ee; EvRender k ee (invalid w1 (oid ee))] ->
     forall k', ~ dirty_at i k' w2).
Proof.
  intros Ht.
  assert (Hafter : forall wd, drain host fuel w = Some (wd, Normal) ->
            exists w',
              step host fuel w = Some (w', Normal) /\
              elementsDrawMap w' = elementsDrawMap wd /\
              if keep_running wd
              then rafId w' = Some (S (raf_calls w)) /\
                   pending w' = pending w ++ [S (raf_calls w)] /\
                   raf_calls w' = S (raf_calls w)
              else rafId w' = None /\ raf_calls w' = raf_calls w).
  { intros wd Hd.
    destruct (drain_keeps_request host fuel w wd Normal Ht Hd) as (Hr & Hc & Hp).
    rewrite (step_of_drain host fuel w wd Hd).
    destruct (stopRaf_frame wd) as (Hm & _).
    destruct (stopRaf_effect wd) as (Hr' & Hc' & _).
    destruct (keep_running wd); eexists; (split; [reflexivity|]).
    - split; [done|]. simpl. by rewrite Hc, Hp.
    - split; [done|]. split; [done|]. by rewrite Hc'. }
  split; [intros a; by apply run_action_keeps_request|].
  split.
  { intros ee inv Hacc. cbn [run_action]. split; [by apply drawImage_dirty_at|].
    by destruct (drawImage_accepted_request host ee inv w Hacc) as [-> _]. }
  split; [intros wd o; by apply drain_keeps_request|].
  split; [exact Hafter|].
  split.
  { intros Hs Hret Hfuel.
    destruct (drain_settled host fuel w Hs Hret Hfuel) as (wd & Hd & _).
    destruct (Hafter wd Hd) as (w' & Hstep & _ & H).
    exists wd, w'. split; [done|]. split; [done|].
    destruct (keep_running wd); [by destruct H as (? & ? & _)|by destruct H]. }
  split; [intros fuel_cb i ee index j k w1 w2;
          apply callbacks_forEach_keeps_dirty|].
  split.
  { intros fuel_cb n index j k w1 wd o Hlt Hd Hrun. split.
    - by apply (map_forEach_keeps_dirty host fuel_cb n index j k w1 wd o).
    - intros Hw1.
      destruct (map_forEach_renders host fuel_cb n index w1 wd o Hw1 Hrun)
        as (t & Htr & H).
      exists t. split; [done|]. destruct Hd as (e & Hj & _).
      apply (proj2 (H k) j Hlt). by apply (key_of_lookup w1 j k e). }
  split; [intros fuel_cb n index j k ee w1 wd; apply map_forEach_serves|].
  split; [intros fuel0 index j k ee w1; apply map_forEach_settled_serves|].
  split; [intros j k ee; apply next_tick_serves|].
  intros i k e ee w1 w2. apply visit_without_callbacks.
Qed.

Lemma step_rearms_after_drain_witness :
  truthy (rafId tick_world) = true /\
  exists wd w',
    drain redrawing_host 3 tick_world = Some (wd, Normal) /\
    step redrawing_host 3 tick_world = Some (w', Normal) /\
    if keep_running wd
    then rafId w' = Some (S (raf_calls tick_world)) /\
         pending w' = pending tick_world ++ [S (raf_calls tick_world)]
    else rafId w' = None.
Proof.
  assert (Ht : truthy (rafId tick_world) = true) by (vm_compute; reflexivity).
  split; [exact Ht|].
  apply (proj1 (proj2 (proj2 (proj2 (proj2
           (step_rearms_after_drain redrawing_host 3 tick_world Ht)))))).
  - split; intros; vm_compute; reflexivity.
  - intros ee b. reflexivity.
  - vm_compute. lia.
Defined.

(** ** The idle deadline, tick after tick *)

(** The browser runs the outstanding request of an idle loop: the tick
    calls nobody; it arms the one next request while the deadline is ahead,
    and leaves the loop dormant once the deadline has passed. *)
Lemma frame_idle host fuel w n :
  rafId w = Some (S n) -> pending w = [S n] ->
  length (elementsDrawMap w) < fuel -> ~ dirty w ->
  exists w',
    frame host fuel w = Some (w', Normal) /\
    elementsDrawMap w' = elementsDrawMap w /\ trace w' = trace w /\
    rafStopTime w' = rafStopTime w /\
    (deadline_ahead w ->
       rafId w' = Some (S (raf_calls w)) /\ pending w' = [S (raf_calls w)] /\
       raf_calls w' = S (raf_calls w)) /\
    (~ deadline_ahead w ->
       rafId w' = None /\ pending w' = [] /\ raf_calls w' = raf_calls w).
Proof.
  intros Hr Hp Hlen Hd. unfold frame. rewrite Hp.
  set (w0 := with_pending [] w).
  assert (Hdr : drain host fuel w0 = Some (w0, Normal)).
  { unfold drain. destruct fuel as [|fuel]; [simpl in Hlen; lia|].
    apply map_forEach_clean; [by apply not_true_is_false|simpl in *; lia]. }
  destruct (step_decides_total host fuel w0 w0 Hdr)
    as (w' & Hs & Hm & Ht & Hst & _ & Hahead & Hpast).
  exists w'. split; [done|]. split; [done|]. split; [done|]. split; [done|].
  split.
  - intros Ha. by destruct (Hahead Ha) as (? & ? & ?).
  - intros Hn. destruct (Hpast Hn) as (-> & _ & Hc & _).
    split; [apply stopRaf_effect|]. split; [|done].
    unfold stopRaf. subst w0. simpl. by rewrite Hr.
Qed.

(** C8.  An accepted [drawImage] puts the deadline [rafStopTime] 100 ms
    ahead of the clock.  When the drain of a tick is over, [step] returns
    after having armed a new request if the deadline is still ahead of the
    clock, and after having cleared [rafId] without any request otherwise;
    with settled collaborators and a render routine that returns every tick
    gets that far, and so does, whatever the host, a tick that finds
    nothing dirty: it calls no collaborator and leaves the table and the
    deadline alone, so that the request of an idle loop, when the browser
    runs it, is followed by exactly one new request while the deadline is
    ahead and by none once it has passed.  Once [rafId] is null and nothing
    is outstanding, the loop is dormant: every sequence of inputs without
    an accepted [drawImage] and without a change to visible, further ticks
    included, is accepted and makes no request; an accepted [drawImage]
    arms exactly one request, and so does a change to visible when the
    listener is installed, both with the deadline 100 ms ahead; without a
    listener a visibility change does nothing. *)
Theorem idle_loop_stops (host : Host) :
  (forall ee inv w,
     drawImage_rejects (Some ee) = Some false ->
     rafStopTime (drawImage host (Some ee) inv w).1 = Some (now w + 100)) /\
  (forall fuel w wd,
     drain host fuel w = Some (wd, Normal) ->
     exists w',
       step host fuel w = Some (w', Normal) /\
       (deadline_ahead wd ->
          rafId w' = Some (S (raf_calls wd)) /\
          pending w' = pending wd ++ [S (raf_calls wd)] /\
          raf_calls w' = S (raf_calls wd)) /\
       (~ deadline_ahead wd ->
          rafId w' = None /\ raf_calls w' = raf_calls wd /\
          forall id, id ∈ pending w' -> id ∈ pending wd)) /\
  (forall fuel w,
     settled_host (keys w) host -> render_returns host ->
     drain_fuel (elementsDrawMap w) <= fuel ->
     exists wd w',
       drain host fuel w = Some (wd, Normal) /\
       step host fuel w = Some (w', Normal) /\
       (deadline_ahead wd ->
          rafId w' = Some (S (raf_calls wd)) /\
          pending w' = pending wd ++ [S (raf_calls wd)]) /\
       (~ deadline_ahead wd -> rafId w' = None /\ raf_calls w' = raf_calls wd)) /\
  (forall fuel w,
     length (elementsDrawMap w) < fuel -> ~ dirty w ->
     exists w',
       step host fuel w = Some (w', Normal) /\
       elementsDrawMap w' = elementsDrawMap w /\ trace w' = trace w /\
       rafStopTime w' = rafStopTime w /\
       (deadline_ahead w ->
          rafId w' = Some (S (raf_calls w)) /\
          pending w' = pending w ++ [S (raf_calls w)] /\
          raf_calls w' = S (raf_calls w)) /\
       (~ deadline_ahead w ->
          w' = stopRaf w /\ rafId w' = None /\ raf_calls w' = raf_calls w)) /\
  (forall fuel w n,
     rafId w = Some (S n) -> pending w = [S n] ->
     length (elementsDrawMap w) < fuel -> ~ dirty w ->
     exists w',
       frame host fuel w = Some (w', Normal) /\
       elementsDrawMap w' = elementsDrawMap w /\ trace w' = trace w /\
       rafStopTime w' = rafStopTime w /\
       (deadline_ahead w ->
          rafId w' = Some (S (raf_calls w)) /\ pending w' = [S (raf_calls w)] /\
          raf_calls w' = S (raf_calls w)) /\
       (~ deadline_ahead w ->
          rafId w' = None /\ pending w' = [] /\ raf_calls w' = raf_calls w)) /\
  (forall l w,
     rafId w = None -> pending w = [] ->
     forallb (fun i => negb (wakes i)) l = true ->
     exists w', run host l w = Some w' /\
       rafId w' = None /\ pending w' = [] /\ raf_calls w' = raf_calls w) /\
  (forall ee inv w,
     rafId w = None -> pending w = [] ->
     drawImage_rejects (Some ee) = Some false ->
     let w' := (drawImage host (Some ee) inv w).1 in
     rafId w' = Some (S (raf_calls w)) /\ pending w' = [S (raf_calls w)] /\
     raf_calls w' = S (raf_calls w) /\ rafStopTime w' = Some (now w + 100)) /\
  (forall p w,
     rafId w = None -> pending w = [] -> listeners w = [p] ->
     let w' := visibilitychange false w in
     rafId w' = Some (S (raf_calls w)) /\ pending w' = [S (raf_calls w)] /\
     raf_calls w' = S (raf_calls w) /\ rafStopTime w' = Some (now w + 100)) /\
  (forall hidden w, listeners w = [] -> visibilitychange hidden w = w).
Proof.
  split.
  { intros ee inv w Hacc. apply (drawImage_accepted_request host ee inv w Hacc). }
  split.
  { intros fuel w wd Hd.
    destruct (step_decides_total host fuel w wd Hd)
      as (w' & Hs & _ & _ & _ & _ & Hahead & Hpast).
    exists w'. split; [done|]. split; [done|].
    intros Hn. by destruct (Hpast Hn) as (_ & ? & ? & ?). }
  split.
  { intros fuel w Hset Hret Hfuel.
    destruct (drain_settled host fuel w Hset Hret Hfuel) as (wd & Hd & _).
    destruct (step_decides_total host fuel w wd Hd)
      as (w' & Hs & _ & _ & _ & _ & Hahead & Hpast).
    exists wd, w'. split; [done|]. split; [done|]. split.
    - intros Ha. by destruct (Hahead Ha) as (? & ? & _).
    - intros Hn. by destruct (Hpast Hn) as (_ & ? & ? & _). }
  split.
  { intros fuel w Hlen Hd.
    assert (Hdr : drain host fuel w = Some (w, Normal)).
    { unfold drain. destruct fuel as [|fuel]; [lia|].
      apply map_forEach_clean; [by apply not_true_is_false|lia]. }
    destruct (step_decides_total host fuel w w Hdr)
      as (w' & Hs & Hm & Ht & Hst & _ & Hahead & Hpast).
    exists w'. split; [done|]. split; [done|]. split; [done|]. split; [done|].
    split; [done|]. intros Hn. by destruct (Hpast Hn) as (? & ? & ? & _). }
  split; [apply frame_idle|].
  split; [apply run_dormant|].
  split; [apply drawImage_wakes|].
  split; [apply visibilitychange_wakes|].
  intros hidden w Hl. unfold visibilitychange. by rewrite Hl.
Qed.

Lemma idle_loop_stops_witness :
  length (elementsDrawMap idle_world) < 2 /\ ~ dirty idle_world /\
  ~ deadline_ahead idle_world /\
  exists w', step page_host 2 idle_world = Some (w', Normal) /\
             w' = stopRaf idle_world /\ rafId w' = None.
Proof.
  assert (Hlen : length (elementsDrawMap idle_world) < 2) by (simpl; lia).
  assert (Hd : ~ dirty idle_world) by (intros H; vm_compute in H; discriminate).
  assert (Ha : ~ deadline_ahead idle_world).
  { intros (t & Ht & Hlt). simpl in Ht, Hlt. injection Ht as <-. lia. }
  split; [exact Hlen|]. split; [exact Hd|]. split; [exact Ha|].
  destruct (proj1 (proj2 (proj2 (proj2 (idle_loop_stops page_host)))) 2 idle_world
              Hlen Hd) as (w' & Hs & _ & _ & _ & _ & Hpast).
  exists w'. split; [exact Hs|]. destruct (Hpast Ha) as (Hw & Hr & _).
  split; [exact Hw|exact Hr].
Defined.

(** ** Dirty entries without a request *)




(** ** The callbacks of an entry *)

(** C6, as stated, fails.  Callbacks 7 and 8 are registered for node 1, and
    callback 7 unregisters callback 8.  In the tick that renders node 1
    callback 7 is invoked and callback 8, registered when the tick began
    and when the loop over the set began, is not; the tick goes on with
    node 2. *)
Lemma unregistered_callback_not_invoked :
  map_get (ElNode 1) (elementsDrawMap two_dirty) =
    Some {| needsRedraw := true; callbacks := [Some 7; Some 8] |} /\
  (fun r => (trace r.1, map_get (ElNode 1) (elementsDrawMap r.1), r.2)) <$>
    drain unregistering_host 3 two_dirty
  = Some ([EvPreRender (ElNode 1) ee1; EvRender (ElNode 1) ee1 false;
           EvCallback (ElNode 1) 7 ee1;
           EvPreRender (ElNode 2) ee2; EvRender (ElNode 2) ee2 false;
           EvCallback (ElNode 2) 9 ee2],
          Some {| needsRedraw := false; callbacks := [Some 7; None] |}, Normal).
Proof. split; vm_compute; reflexivity. Qed.

(** C6, amended.  An exception thrown by a callback is swallowed: whatever
    the collaborators do, the drain is the same as with callbacks that
    return where they would throw.  The visit of a dirty entry whose
    element resolves makes the pre-render notification and the render call
    and then calls nothing but callbacks of that element, with the resolved
    context; every callback that is in the set when the visit ends has been
    invoked (one that an earlier callback took out of the set before its
    turn is not); and when a callback was invoked the deadline is 100 ms
    after the clock when the visit ends.  With settled collaborators and a
    render routine that returns, the drain runs to its end whichever
    callbacks throw: every dirty entry whose element resolves is rendered,
    every callback still registered for it when the drain ends has been
    invoked, and no callback is invoked that was not registered for its
    element when the tick began.  With collaborators that do not call back
    at all, the record of the tick is exactly: for each such entry, in the
    order of the table, the notification, the render call and every member
    of the set in the order of the set; and when an entry with a callback
    is rendered the deadline afterwards is 100 ms past a clock reading
    taken during the tick, and otherwise the deadline is left alone. *)
Theorem callbacks_isolated (host : Host) (w : World) (fuel : nat) :
  drain (without_callback_throws host) fuel w = drain host fuel w /\
  (forall i k e ee w',
     elementsDrawMap w !! i = Some (k, e) -> resolved host (k, e) = Some ee ->
     visit host fuel i w = Some (w', Normal) ->
     exists t,
       trace w' =
         trace w ++ EvPreRender k ee :: EvRender k ee (invalid w (oid ee)) :: t /\
       Forall (is_callback_of k ee) t /\
       (forall e' f,
          elementsDrawMap w' !! i = Some (k, e') -> f ∈ set_members (callbacks e') ->
          EvCallback k f ee ∈ t) /\
       (t <> [] -> rafStopTime w' = Some (now w' + 100))) /\
  (settled_host (keys w) host -> render_returns host ->
   drain_fuel (elementsDrawMap w) <= fuel ->
   exists wd t,
     drain host fuel w = Some (wd, Normal) /\ trace wd = trace w ++ t /\
     Forall (registered_call host (elementsDrawMap w)) t /\
     forall i k e ee,
       elementsDrawMap w !! i = Some (k, e) -> resolved host (k, e) = Some ee ->
       (exists flag, EvRender k ee flag ∈ t) /\
       forall e' f,
         elementsDrawMap wd !! i = Some (k, e') -> f ∈ set_members (callbacks e') ->
         EvCallback k f ee ∈ t) /\
  (passive_host host -> render_returns host ->
   drain_fuel (elementsDrawMap w) <= fuel ->
   exists wd,
     drain host fuel w = Some (wd, Normal) /\
     trace wd = trace w ++ drain_trace host (invalid w) (elementsDrawMap w) /\
     (forall k e ee f,
        (k, e) ∈ elementsDrawMap w -> resolved host (k, e) = Some ee ->
        f ∈ set_members (callbacks e) ->
        EvCallback k f ee ∈ drain_trace host (invalid w) (elementsDrawMap w)) /\
     (existsb (invokes host) (elementsDrawMap w) = true ->
      exists t, now w <= t /\ t <= now wd /\
                rafStopTime wd = Some (t + rafStopMaxTime)) /\
     (existsb (invokes host) (elementsDrawMap w) = false ->
      rafStopTime wd = rafStopTime w)).
Proof.
  split; [apply drain_silenced|].
  split; [intros i k e ee w'; apply visit_invokes|].
  split.
  { intros Hset Hret Hfuel.
    destruct (drain_settled host fuel w Hset Hret Hfuel) as (wd & Hd & _).
    destruct (map_forEach_settled_calls host (keys w) Hset fuel fuel 0 w wd Normal
                eq_refl Hd) as (t & Ht & Hreg).
    exists wd, t. split; [done|]. split; [done|]. split; [done|].
    intros i k e ee Hi Hres. apply resolved_Some in Hres as (Hk & Hdirty & Hres).
    destruct (map_forEach_settled_invokes host (keys w) Hset fuel fuel 0 i k ee w wd)
      as (t' & Ht' & Hrender & Hin); [done|lia|by exists e|done|done|done|].
    assert (t' = t) as -> by (rewrite Ht in Ht'; by apply app_inv_head in Ht').
    done. }
  intros Hp Hr Hfuel.
  destruct (drain_passive host Hp Hr fuel w Hfuel)
    as (wd & Hd & _ & Ht & _ & _ & Hdl).
  exists wd. split; [done|]. split; [done|]. split.
  - intros k e ee f Hin Hres Hf. unfold drain_trace.
    apply list_elem_of_bind. exists (k, e). split; [|done].
    unfold entry_trace. rewrite Hres. simpl.
    rewrite !elem_of_cons, list_elem_of_fmap. right. right. by exists f.
  - split; intros Hex; by rewrite Hex in Hdl.
Qed.

Lemma callbacks_isolated_witness :
  (exists wd,
     drain page_host 3 two_dirty = Some (wd, Normal) /\
     trace wd =
       [EvPreRender (ElNode 1) ee1; EvRender (ElNode 1) ee1 false;
        EvCallback (ElNode 1) 7 ee1; EvCallback (ElNode 1) 8 ee1;
        EvPreRender (ElNode 2) ee2; EvRender (ElNode 2) ee2 false;
        EvCallback (ElNode 2) 9 ee2] /\
     exists t, now two_dirty <= t /\ t <= now wd /\
               rafStopTime wd = Some (t + rafStopMaxTime)) /\
  exists w' t,
    visit registering_host 5 0 two_dirty = Some (w', Normal) /\
    trace w' =
      trace two_dirty ++
      EvPreRender (ElNode 1) ee1 :: EvRender (ElNode 1) ee1 false :: t /\
    EvCallback (ElNode 1) 10 ee1 ∈ t.
Proof.
  split.
  - destruct (proj2 (proj2 (proj2 (callbacks_isolated page_host two_dirty 3)))
                page_host_passive)
      as (wd & Hd & Ht & _ & Hdl & _).
    + intros ee b. reflexivity.
    + vm_compute. lia.
    + exists wd. split; [exact Hd|]. split.
      * rewrite Ht. vm_compute. reflexivity.
      * apply Hdl. vm_compute. reflexivity.
  - destruct (visit registering_host 5 0 two_dirty) as [[w' []]|] eqn:Hv.
    + destruct (proj1 (proj2 (callbacks_isolated registering_host two_dirty 5))
                  0 (ElNode 1) {| needsRedraw := true; callbacks := [Some 7; Some 8] |}
                  ee1 w' eq_refl eq_refl Hv)
        as (t & Ht & _ & Hin & _).
      exists w', t. split; [reflexivity|]. split; [exact Ht|].
      vm_compute in Hv. injection Hv as <-.
      apply (Hin {| needsRedraw := false; callbacks := [Some 7; Some 8; Some 10] |}).
      * reflexivity.
      * apply set_members_lookup. exists 2. reflexivity.
    + vm_compute in Hv. discriminate.
    + vm_compute in Hv. discriminate.
Defined.
